(** * Classification-and-scan engine of the music-only recommendations
      extension (content.js): a shallow embedding and its properties.

    Modelling conventions.
    - A JavaScript string is a [string]: a sequence of code units, here
      the code units 0..255 (ASCII and Latin-1).  [toLowerCase], the
      regular expression classes [\s], [\d], [[a-z0-9]] and [[0-9:]] are
      written out on that range.
    - The numbers of the duration parser are doubles ([Js.number]): an
      integer that a double holds, an infinity or [NaN], with the
      rounding of [parseInt], [+] and [*] to the nearest double written
      out.  Timestamps and delays are [Z], counters and the scan epoch
      [nat]: they stay far below 2^53, where doubles are exact.
    - A keyword list of the settings is an array of strings, one string
      or a value of another type.  An array with an element that is not
      a string is outside the model ([normalizeText] throws a
      [TypeError] on a truthy one); the options page stores arrays of
      strings only.
    - [null] / [undefined] are [None].
    - The ES6 [Map] of the decision cache is an association list in
      insertion order (oldest first).
    - DOM nodes are handles ([nat]) into a side table of element records;
      what the selectors and the field extraction read off the page is
      an input of the model. *)

From Stdlib Require Import String Ascii List NArith ZArith Bool Lia.
From stdpp Require Import strings pretty gmap.
Import ListNotations.

Local Open Scope string_scope.
Local Open Scope list_scope.

(* ===================================================================== *)
(** ** JavaScript string primitives used by content.js                    *)
(* ===================================================================== *)

Module Js.

Definition code (c : ascii) : N := N_of_ascii c.

Definition between (lo hi : N) (c : ascii) : bool :=
  (N.leb lo (code c)) && (N.leb (code c) hi).

(** [\d] and [[0-9]] *)
Definition isDigit (c : ascii) : bool := between 48 57 c.

(** [[a-z]] *)
Definition isLower (c : ascii) : bool := between 97 122 c.

(** [[a-z0-9]] *)
Definition isAlnum (c : ascii) : bool := isLower c || isDigit c.

(** [[0-9:]] *)
Definition isDigitOrColon (c : ascii) : bool :=
  isDigit c || N.eqb (code c) 58.

(** [\s], and the characters removed by [trim]: TAB, LF, VT, FF, CR,
    SPACE and NBSP are the ones below U+0100. *)
Definition isSpace (c : ascii) : bool :=
  between 9 13 c || N.eqb (code c) 32 || N.eqb (code c) 160.

(** [String.prototype.toLowerCase] on one code unit: A-Z, and the
    Latin-1 capitals U+00C0..U+00DE except the multiplication sign. *)
Definition lowerChar (c : ascii) : ascii :=
  if between 65 90 c then ascii_of_N (code c + 32)
  else if between 192 222 c && negb (N.eqb (code c) 215)
       then ascii_of_N (code c + 32)
       else c.

Fixpoint toLowerCase (s : string) : string :=
  match s with
  | EmptyString => EmptyString
  | String c r => String (lowerChar c) (toLowerCase r)
  end.

(** [s.replace(/[p]+/g, " ")]: every maximal run of characters of the
    class [p] becomes one space.  [inrun] tells that the previous
    character already belonged to the run being replaced. *)
Fixpoint replaceRunsFrom (p : ascii -> bool) (inrun : bool) (s : string)
  : string :=
  match s with
  | EmptyString => EmptyString
  | String c r =>
      if p c
      then if inrun then replaceRunsFrom p true r
           else String " " (replaceRunsFrom p true r)
      else String c (replaceRunsFrom p false r)
  end.

Definition replaceRuns (p : ascii -> bool) (s : string) : string :=
  replaceRunsFrom p false s.

(** [s.replace(/[^p]/g, "")] *)
Fixpoint keepChars (p : ascii -> bool) (s : string) : string :=
  match s with
  | EmptyString => EmptyString
  | String c r => if p c then String c (keepChars p r) else keepChars p r
  end.

(** [/[p]/.test(s)] *)
Fixpoint testChar (p : ascii -> bool) (s : string) : bool :=
  match s with
  | EmptyString => false
  | String c r => p c || testChar p r
  end.

Fixpoint trimStart (s : string) : string :=
  match s with
  | EmptyString => EmptyString
  | String c r => if isSpace c then trimStart r else s
  end.

Fixpoint trimEnd (s : string) : string :=
  match s with
  | EmptyString => EmptyString
  | String c r =>
      match trimEnd r with
      | EmptyString => if isSpace c then EmptyString else String c EmptyString
      | r' => String c r'
      end
  end.

Definition trim (s : string) : string := trimEnd (trimStart s).

(** Truthiness of a string: [!s] is [isEmpty s]. *)
Definition isEmpty (s : string) : bool :=
  match s with EmptyString => true | _ => false end.

Definition truthy (s : string) : bool := negb (isEmpty s).

(** [hay.includes(needle)] *)
Fixpoint includes (hay needle : string) : bool :=
  if String.prefix needle hay then true
  else match hay with
       | EmptyString => false
       | String _ r => includes r needle
       end.

(** [s.split(sep)] for a separator class of single characters; the
    result is never empty ([""] splits to [[""]]). *)
Fixpoint split (sep : ascii -> bool) (s : string) : list string :=
  match s with
  | EmptyString => [EmptyString]
  | String c r =>
      if sep c then EmptyString :: split sep r
      else match split sep r with
           | h :: t => String c h :: t
           | [] => [String c EmptyString]
           end
  end.

(** [list.filter(Boolean)] on strings *)
Definition filterBoolean (l : list string) : list string :=
  List.filter truthy l.

(** [s.slice(0, n)] *)
Fixpoint slice0 (n : nat) (s : string) : string :=
  match n, s with
  | S m, String c r => String c (slice0 m r)
  | _, _ => EmptyString
  end.

Definition digitValue (c : ascii) : Z := (Z.of_N (code c) - 48)%Z.

(** Value of a string of decimal digits, most significant first. *)
Fixpoint digitsFrom (acc : Z) (s : string) : Z :=
  match s with
  | EmptyString => acc
  | String c r => digitsFrom (10 * acc + digitValue c)%Z r
  end.

Fixpoint takeDigits (s : string) : string :=
  match s with
  | EmptyString => EmptyString
  | String c r => if isDigit c then String c (takeDigits r) else EmptyString
  end.

(** A Number, as far as this code meets one: a double that holds an
    integer, an infinity, or [NaN].  The two zeros are one value here
    (nothing in the code tells them apart). *)
Inductive number :=
| Finite (n : Z)
| Infinity (negative : bool)
| NaN.

(** The double nearest to the integer [z], ties to the even
    significand: an integer of at most 53 bits is kept as it is; a
    larger one keeps its 53 leading bits, rounded; from
    2^1024 - 2^970 on the result is an infinity. *)
Definition roundToDouble (z : Z) : number :=
  let a := Z.abs z in
  if Z.leb a (2 ^ 53) then Finite z
  else
    let shift := (Z.log2 a - 52)%Z in
    let q := Z.shiftr a shift in
    let r := (a - Z.shiftl q shift)%Z in
    let half := Z.shiftl 1 (shift - 1) in
    let q' := if Z.ltb r half then q
              else if Z.ltb half r then (q + 1)%Z
                   else if Z.even q then q else (q + 1)%Z in
    let m := Z.shiftl q' shift in
    if Z.leb (2 ^ 1024) m then Infinity (Z.ltb z 0)
    else Finite (Z.sgn z * m).

(** [a * b] *)
Definition mul (a b : number) : number :=
  match a, b with
  | NaN, _ | _, NaN => NaN
  | Finite x, Finite y => roundToDouble (x * y)
  | Finite x, Infinity negative | Infinity negative, Finite x =>
      if Z.eqb x 0 then NaN else Infinity (xorb negative (Z.ltb x 0))
  | Infinity n1, Infinity n2 => Infinity (xorb n1 n2)
  end.

(** [a + b] *)
Definition add (a b : number) : number :=
  match a, b with
  | NaN, _ | _, NaN => NaN
  | Finite x, Finite y => roundToDouble (x + y)
  | Finite _, Infinity negative | Infinity negative, Finite _ =>
      Infinity negative
  | Infinity n1, Infinity n2 => if Bool.eqb n1 n2 then Infinity n1 else NaN
  end.

(** [a < b] and [a <= b]; [a > b] is [ltb b a], [a >= b] is [leb b a].
    Every comparison with [NaN] is false. *)
Definition ltb (a b : number) : bool :=
  match a, b with
  | NaN, _ | _, NaN => false
  | Finite x, Finite y => Z.ltb x y
  | Finite _, Infinity negative => negb negative
  | Infinity negative, Finite _ => negative
  | Infinity n1, Infinity n2 => n1 && negb n2
  end.

Definition leb (a b : number) : bool :=
  match a, b with
  | NaN, _ | _, NaN => false
  | Finite x, Finite y => Z.leb x y
  | Finite _, Infinity negative => negb negative
  | Infinity negative, Finite _ => negative
  | Infinity n1, Infinity n2 => n1 || negb n2
  end.

(** [Number.isNaN(a)] *)
Definition isNaN (a : number) : bool :=
  match a with NaN => true | _ => false end.

(** [parseInt(s, 10)]: leading white space is skipped, one sign is
    read, then the longest prefix of digits; without a digit the result
    is [NaN], otherwise the double nearest to the integer the digits
    denote.  (Past 20 significant digits the language lets an
    implementation read the later digits as zeros; the engines of the
    browsers round the exact value, as here.) *)
Definition readSign (s : string) : bool * string :=
  match s with
  | String "-" r => (true, r)
  | String "+" r => (false, r)
  | _ => (false, s)
  end.

Definition parseInt (s : string) : number :=
  let s1 := trimStart s in
  let '(negative, s2) := readSign s1 in
  match takeDigits s2 with
  | EmptyString => NaN
  | ds =>
      roundToDouble
        (if negative then Z.opp (digitsFrom 0 ds) else digitsFrom 0 ds)
  end.

End Js.

(* ===================================================================== *)
(** ** 4) Text normalization and matching helpers                         *)
(* ===================================================================== *)

Definition normalizeText (text : string) : string :=
  if Js.isEmpty text then ""
  else Js.trim
         (Js.replaceRuns Js.isSpace
            (Js.replaceRuns (fun c => negb (Js.isAlnum c))
               (Js.toLowerCase text))).

Definition containsToken (normalizedText normalizedToken : string) : bool :=
  if Js.isEmpty normalizedText || Js.isEmpty normalizedToken then false
  else
    let hay := " " +:+ normalizedText +:+ " " in
    let needle := " " +:+ normalizedToken +:+ " " in
    Js.includes hay needle.

Fixpoint containsAny (normalizedText : string) (normalizedTokens : list string)
  : bool :=
  match normalizedTokens with
  | [] => false
  | token :: rest =>
      if containsToken normalizedText token then true
      else containsAny normalizedText rest
  end.

(** A keyword list as it sits in the settings object: an array of
    strings, one string (split on newline or comma), or a value that is
    neither an array nor a string.  Arrays with other elements are not
    represented: [normalizeText] returns [""] for a falsy element and
    throws a [TypeError] for a truthy one that is not a string. *)
Inductive ListValue :=
| LArray (items : list string)
| LString (text : string)
| LOther.

Definition isNewlineOrComma (c : ascii) : bool :=
  N.eqb (Js.code c) 10 || N.eqb (Js.code c) 44.

Definition normalizeList (listValue : ListValue) : list string :=
  match listValue with
  | LArray items => Js.filterBoolean (List.map normalizeText items)
  | LString text =>
      Js.filterBoolean (List.map normalizeText (Js.split isNewlineOrComma text))
  | LOther => []
  end.

(* ===================================================================== *)
(** ** 5) Duration parsing                                                *)
(* ===================================================================== *)

Definition MUSIC_MIN_SECONDS : Z := 90.
Definition MUSIC_MAX_SECONDS : Z := 600.
Definition EXTREME_SHORT : Z := 30.
Definition EXTREME_LONG : Z := (30 * 60)%Z.

Definition isColon (c : ascii) : bool := N.eqb (Js.code c) 58.

(** The loop of [durationToSeconds]: [parts] is visited from its last
    element to its first, so the function receives the reversed list. *)
Fixpoint sumParts (partsFromRight : list string)
  (seconds multiplier : Js.number) : option Js.number :=
  match partsFromRight with
  | [] => Some seconds
  | part :: rest =>
      let value := Js.parseInt part in
      if Js.isNaN value then None
      else sumParts rest (Js.add seconds (Js.mul value multiplier))
             (Js.mul multiplier (Js.Finite 60))
  end.

Definition durationParts (cleaned : string) : list string :=
  Js.filterBoolean (Js.split isColon (Js.keepChars Js.isDigitOrColon cleaned)).

(** [text.toLowerCase().replace(/\s+/g, " ").trim()] *)
Definition cleanDuration (text : string) : string :=
  Js.trim (Js.replaceRuns Js.isSpace (Js.toLowerCase text)).

Definition durationToSeconds (text : string) : option Js.number :=
  if Js.isEmpty text then None
  else
    let cleaned := cleanDuration text in
    (* If there are no digits at all, we can't parse a time. *)
    if negb (Js.testChar Js.isDigit cleaned) then None
    else
      let parts := durationParts cleaned in
      match parts with
      | [] => None
      | _ => sumParts (List.rev parts) (Js.Finite 0) (Js.Finite 1)
      end.

Definition durationInMusicRange (seconds : option Js.number) : bool :=
  match seconds with
  | None => false
  | Some s =>
      Js.leb (Js.Finite MUSIC_MIN_SECONDS) s
      && Js.leb s (Js.Finite MUSIC_MAX_SECONDS)
  end.

Definition durationStronglyContradicts (seconds : option Js.number) : bool :=
  match seconds with
  | None => false
  | Some s =>
      Js.ltb s (Js.Finite EXTREME_SHORT) || Js.ltb (Js.Finite EXTREME_LONG) s
  end.

(* ===================================================================== *)
(** ** 2) Settings, matchers and the shapes of the data                   *)
(* ===================================================================== *)

Definition MAX_CACHE_ENTRIES : nat := 5000.
Definition HIDE_DELAY_MS : Z := 150.

Record Settings := {
  strongMusicKeywords : ListValue;
  moderateMusicKeywords : ListValue;
  nonMusicKeywords : ListValue;
  channelMusicTokens : ListValue;
  defaultPolicy : string;
  showBlocked : bool;
  debounceMs : Z;
  debugMode : bool
}.

(** The literal that content.js falls back to when no global
    [MV_DEFAULT_SETTINGS] object is defined. *)
Definition DEFAULTS : Settings := {|
  strongMusicKeywords := LArray [];
  moderateMusicKeywords := LArray [];
  nonMusicKeywords := LArray [];
  channelMusicTokens := LArray [];
  defaultPolicy := "show";
  showBlocked := false;
  debounceMs := 60;
  debugMode := false
|}.

Record Matchers := {
  strong : list string;
  moderate : list string;
  non : list string;
  channel_ : list string
}.

Definition buildMatchers (currentSettings : Settings) : Matchers := {|
  strong := normalizeList (strongMusicKeywords currentSettings);
  moderate := normalizeList (moderateMusicKeywords currentSettings);
  non := normalizeList (nonMusicKeywords currentSettings);
  channel_ := normalizeList (channelMusicTokens currentSettings)
|}.

(** Truthiness of a nullable string. *)
Definition truthyOpt (o : option string) : bool :=
  match o with
  | Some s => Js.truthy s
  | None => false
  end.

(* ===================================================================== *)
(** ** 6) Extraction                                                      *)
(* ===================================================================== *)

(** What the DOM queries of [extractTitle], [extractHref],
    [extractChannel], [extractDurationText] and [extractVideoId] return
    for one recommendation element.  The selectors themselves belong to
    the page markup and are inputs here. *)
Record RawFields := {
  rawTitle : string;
  rawHref : string;
  rawChannel : string;
  rawDurationText : string;
  rawVideoId : option string
}.

Record VideoData := {
  title : string;
  href : string;
  channel : string;
  durationText : string;
  durationSeconds : option Js.number;
  videoId : option string;
  normalizedTitle : string;
  cacheKey : option string
}.

Definition extractVideoData (root : RawFields) : VideoData :=
  let title := rawTitle root in
  let href := rawHref root in
  let channel := rawChannel root in
  let durationText := rawDurationText root in
  let durationSeconds := durationToSeconds durationText in
  let videoId := rawVideoId root in
  let normalizedTitle := normalizeText title in
  let cacheKey :=
    if truthyOpt videoId
    then Some ("id:" +:+ default "" videoId)
    else if Js.truthy normalizedTitle
         then Some ("title:" +:+ normalizedTitle)
         else None in
  {| title := title; href := href; channel := channel;
     durationText := durationText; durationSeconds := durationSeconds;
     videoId := videoId; normalizedTitle := normalizedTitle;
     cacheKey := cacheKey |}.

(* ===================================================================== *)
(** ** 7) Classification algorithm                                        *)
(* ===================================================================== *)

Module Result.
Record t := { isMusic : bool; reason : string }.
End Result.

(** [normalizeText(`${data.title} ${data.channel}`)] *)
Definition combinedText (data : VideoData) : string :=
  normalizeText (title data +:+ " " +:+ channel data).

Definition classifyVideo (settings : Settings) (matchers : Matchers)
  (data : VideoData) : Result.t :=
  let combined := combinedText data in
  let channelNormalized := normalizeText (channel data) in
  (* 1) Strong music keywords -> MUSIC *)
  if containsAny combined (strong matchers)
  then {| Result.isMusic := true; Result.reason := "strong" |}
  (* 2) Non-music keywords -> NON-MUSIC *)
  else if containsAny combined (non matchers)
  then {| Result.isMusic := false; Result.reason := "non" |}
  (* 3) Moderate keywords -> MUSIC unless duration strongly contradicts *)
  else if containsAny combined (moderate matchers)
  then if durationStronglyContradicts (durationSeconds data)
       then {| Result.isMusic := false; Result.reason := "moderate+duration" |}
       else {| Result.isMusic := true; Result.reason := "moderate" |}
  (* 4) Duration in music range AND channel looks music-ish -> MUSIC *)
  else if durationInMusicRange (durationSeconds data)
          && containsAny channelNormalized (channel_ matchers)
  then {| Result.isMusic := true; Result.reason := "duration+channel" |}
  (* 5) Default policy *)
  else
    let defaultIsMusic := negb (String.eqb (defaultPolicy settings) "hide") in
    {| Result.isMusic := defaultIsMusic; Result.reason := "default" |}.

(* ===================================================================== *)
(** ** The ES6 Map behind the decision cache                              *)
(* ===================================================================== *)

Module Entry.
Record t := { isMusic : bool; ts : Z }.
End Entry.

(** [Map<cacheKey, { isMusic, ts }>], oldest insertion first. *)
Definition CacheMap : Type := list (string * Entry.t).

Fixpoint mapGet (key : string) (m : CacheMap) : option Entry.t :=
  match m with
  | [] => None
  | (k, e) :: rest => if String.eqb k key then Some e else mapGet key rest
  end.

(** [Map.prototype.set]: an existing key keeps its place, a new key goes
    to the end. *)
Fixpoint mapSet (key : string) (value : Entry.t) (m : CacheMap) : CacheMap :=
  match m with
  | [] => [(key, value)]
  | (k, e) :: rest =>
      if String.eqb k key then (k, value) :: rest
      else (k, e) :: mapSet key value rest
  end.

Definition mapDelete (key : string) (m : CacheMap) : CacheMap :=
  List.filter (fun ke => negb (String.eqb (fst ke) key)) m.

Definition mapKeys (m : CacheMap) : list string := List.map fst m.

(** A persisted value is kept by [loadCache] only when it is an object
    whose [isMusic] field is a boolean. *)
Inductive StoredValue :=
| WellFormed (entry : Entry.t)
| Malformed.

(* ===================================================================== *)
(** ** The page, the DOM side table and the process state                 *)
(* ===================================================================== *)

(** [element.dataset]: the [data-mv-*] attributes the scanner keeps on a
    node.  An absent [mvKey] or [mvProcessed] reads as the empty string
    wherever the code looks at it. *)
Record Dataset := {
  mvEpoch : option nat;
  mvKey : string;
  mvProcessed : string;
  mvWatchId : option string;
  mvReason : option string;
  mvTitle : option string;
  mvId : option string
}.

Definition set_mvEpoch (v : option nat) (x : Dataset) : Dataset :=
  {| mvEpoch := v; mvKey := mvKey x; mvProcessed := mvProcessed x;
     mvWatchId := mvWatchId x; mvReason := mvReason x; mvTitle := mvTitle x;
     mvId := mvId x |}.

Definition set_mvKey (v : string) (x : Dataset) : Dataset :=
  {| mvEpoch := mvEpoch x; mvKey := v; mvProcessed := mvProcessed x;
     mvWatchId := mvWatchId x; mvReason := mvReason x; mvTitle := mvTitle x;
     mvId := mvId x |}.

Definition set_mvProcessed (v : string) (x : Dataset) : Dataset :=
  {| mvEpoch := mvEpoch x; mvKey := mvKey x; mvProcessed := v;
     mvWatchId := mvWatchId x; mvReason := mvReason x; mvTitle := mvTitle x;
     mvId := mvId x |}.

Definition set_mvWatchId (v : option string) (x : Dataset) : Dataset :=
  {| mvEpoch := mvEpoch x; mvKey := mvKey x; mvProcessed := mvProcessed x;
     mvWatchId := v; mvReason := mvReason x; mvTitle := mvTitle x;
     mvId := mvId x |}.

Definition set_mvReason (v : option string) (x : Dataset) : Dataset :=
  {| mvEpoch := mvEpoch x; mvKey := mvKey x; mvProcessed := mvProcessed x;
     mvWatchId := mvWatchId x; mvReason := v; mvTitle := mvTitle x;
     mvId := mvId x |}.

Definition set_mvTitle (v : option string) (x : Dataset) : Dataset :=
  {| mvEpoch := mvEpoch x; mvKey := mvKey x; mvProcessed := mvProcessed x;
     mvWatchId := mvWatchId x; mvReason := mvReason x; mvTitle := v;
     mvId := mvId x |}.

Definition set_mvId (v : option string) (x : Dataset) : Dataset :=
  {| mvEpoch := mvEpoch x; mvKey := mvKey x; mvProcessed := mvProcessed x;
     mvWatchId := mvWatchId x; mvReason := mvReason x; mvTitle := mvTitle x;
     mvId := v |}.

(** One recommendation node: what extraction reads off it, its
    [data-mv-*] attributes and its two marker classes [mv-blocked] and
    [mv-hidden]. *)
Record Element := {
  raw : RawFields;
  dataset : Dataset;
  mvBlocked : bool;
  mvHidden : bool
}.

Definition set_raw (v : RawFields) (x : Element) : Element :=
  {| raw := v; dataset := dataset x; mvBlocked := mvBlocked x;
     mvHidden := mvHidden x |}.

Definition set_dataset (v : Dataset) (x : Element) : Element :=
  {| raw := raw x; dataset := v; mvBlocked := mvBlocked x;
     mvHidden := mvHidden x |}.

Definition set_mvBlocked (v : bool) (x : Element) : Element :=
  {| raw := raw x; dataset := dataset x; mvBlocked := v;
     mvHidden := mvHidden x |}.

Definition set_mvHidden (v : bool) (x : Element) : Element :=
  {| raw := raw x; dataset := dataset x; mvBlocked := mvBlocked x;
     mvHidden := v |}.

Definition freshElement (fields : RawFields) : Element :=
  {| raw := fields;
     dataset := {| mvEpoch := None; mvKey := ""; mvProcessed := "";
                   mvWatchId := None; mvReason := None; mvTitle := None;
                   mvId := None |};
     mvBlocked := false; mvHidden := false |}.

Record DebugState := {
  scanned : nat;
  blocked : nat;
  allowed : nat;
  lastScanAt : Z;
  lastReason : string;
  lastContext : string;
  lastPath : string;
  candidates : nat;
  skippedNoData : nat;
  skippedProcessed : nat;
  cacheHits : nat
}.

Definition set_scanned (v : nat) (x : DebugState) : DebugState :=
  {| scanned := v; blocked := blocked x; allowed := allowed x;
     lastScanAt := lastScanAt x; lastReason := lastReason x;
     lastContext := lastContext x; lastPath := lastPath x;
     candidates := candidates x; skippedNoData := skippedNoData x;
     skippedProcessed := skippedProcessed x; cacheHits := cacheHits x |}.

Definition set_blocked (v : nat) (x : DebugState) : DebugState :=
  {| scanned := scanned x; blocked := v; allowed := allowed x;
     lastScanAt := lastScanAt x; lastReason := lastReason x;
     lastContext := lastContext x; lastPath := lastPath x;
     candidates := candidates x; skippedNoData := skippedNoData x;
     skippedProcessed := skippedProcessed x; cacheHits := cacheHits x |}.

Definition set_allowed (v : nat) (x : DebugState) : DebugState :=
  {| scanned := scanned x; blocked := blocked x; allowed := v;
     lastScanAt := lastScanAt x; lastReason := lastReason x;
     lastContext := lastContext x; lastPath := lastPath x;
     candidates := candidates x; skippedNoData := skippedNoData x;
     skippedProcessed := skippedProcessed x; cacheHits := cacheHits x |}.

Definition set_lastReason (v : string) (x : DebugState) : DebugState :=
  {| scanned := scanned x; blocked := blocked x; allowed := allowed x;
     lastScanAt := lastScanAt x; lastReason := v;
     lastContext := lastContext x; lastPath := lastPath x;
     candidates := candidates x; skippedNoData := skippedNoData x;
     skippedProcessed := skippedProcessed x; cacheHits := cacheHits x |}.

Definition set_lastContext (v : string) (x : DebugState) : DebugState :=
  {| scanned := scanned x; blocked := blocked x; allowed := allowed x;
     lastScanAt := lastScanAt x; lastReason := lastReason x;
     lastContext := v; lastPath := lastPath x; candidates := candidates x;
     skippedNoData := skippedNoData x;
     skippedProcessed := skippedProcessed x; cacheHits := cacheHits x |}.

Definition set_candidates (v : nat) (x : DebugState) : DebugState :=
  {| scanned := scanned x; blocked := blocked x; allowed := allowed x;
     lastScanAt := lastScanAt x; lastReason := lastReason x;
     lastContext := lastContext x; lastPath := lastPath x; candidates := v;
     skippedNoData := skippedNoData x;
     skippedProcessed := skippedProcessed x; cacheHits := cacheHits x |}.

Definition set_skippedNoData (v : nat) (x : DebugState) : DebugState :=
  {| scanned := scanned x; blocked := blocked x; allowed := allowed x;
     lastScanAt := lastScanAt x; lastReason := lastReason x;
     lastContext := lastContext x; lastPath := lastPath x;
     candidates := candidates x; skippedNoData := v;
     skippedProcessed := skippedProcessed x; cacheHits := cacheHits x |}.

Definition set_skippedProcessed (v : nat) (x : DebugState) : DebugState :=
  {| scanned := scanned x; blocked := blocked x; allowed := allowed x;
     lastScanAt := lastScanAt x; lastReason := lastReason x;
     lastContext := lastContext x; lastPath := lastPath x;
     candidates := candidates x; skippedNoData := skippedNoData x;
     skippedProcessed := v; cacheHits := cacheHits x |}.

Definition set_cacheHits (v : nat) (x : DebugState) : DebugState :=
  {| scanned := scanned x; blocked := blocked x; allowed := allowed x;
     lastScanAt := lastScanAt x; lastReason := lastReason x;
     lastContext := lastContext x; lastPath := lastPath x;
     candidates := candidates x; skippedNoData := skippedNoData x;
     skippedProcessed := skippedProcessed x; cacheHits := v |}.

(** Pending [setTimeout] callbacks of this content script. *)
Inductive TimerTask :=
| ScanTask
| HideTask (element : nat)
| CacheSaveTask.

Record Timer := { timerId : nat; timerDelay : Z; timerTask : TimerTask }.

Record State := {
  settings : Settings;
  matchers : Matchers;
  decisionCache : CacheMap;
  cacheSaveTimer : option nat;
  debugState : DebugState;
  scanTimer : option nat;
  scanEpoch : nat;
  elements : gmap nat Element;
  timers : list Timer;
  nextTimerId : nat;
  clock : Z;
  rootShowBlocked : bool;
  persisted : option CacheMap
}.

Definition set_settings (v : Settings) (x : State) : State :=
  {| settings := v; matchers := matchers x; decisionCache := decisionCache x;
     cacheSaveTimer := cacheSaveTimer x; debugState := debugState x;
     scanTimer := scanTimer x; scanEpoch := scanEpoch x;
     elements := elements x; timers := timers x;
     nextTimerId := nextTimerId x; clock := clock x;
     rootShowBlocked := rootShowBlocked x; persisted := persisted x |}.

Definition set_matchers (v : Matchers) (x : State) : State :=
  {| settings := settings x; matchers := v; decisionCache := decisionCache x;
     cacheSaveTimer := cacheSaveTimer x; debugState := debugState x;
     scanTimer := scanTimer x; scanEpoch := scanEpoch x;
     elements := elements x; timers := timers x;
     nextTimerId := nextTimerId x; clock := clock x;
     rootShowBlocked := rootShowBlocked x; persisted := persisted x |}.

Definition set_decisionCache (v : CacheMap) (x : State) : State :=
  {| settings := settings x; matchers := matchers x; decisionCache := v;
     cacheSaveTimer := cacheSaveTimer x; debugState := debugState x;
     scanTimer := scanTimer x; scanEpoch := scanEpoch x;
     elements := elements x; timers := timers x;
     nextTimerId := nextTimerId x; clock := clock x;
     rootShowBlocked := rootShowBlocked x; persisted := persisted x |}.

Definition set_cacheSaveTimer (v : option nat) (x : State) : State :=
  {| settings := settings x; matchers := matchers x;
     decisionCache := decisionCache x; cacheSaveTimer := v;
     debugState := debugState x; scanTimer := scanTimer x;
     scanEpoch := scanEpoch x; elements := elements x; timers := timers x;
     nextTimerId := nextTimerId x; clock := clock x;
     rootShowBlocked := rootShowBlocked x; persisted := persisted x |}.

Definition set_debugState (v : DebugState) (x : State) : State :=
  {| settings := settings x; matchers := matchers x;
     decisionCache := decisionCache x; cacheSaveTimer := cacheSaveTimer x;
     debugState := v; scanTimer := scanTimer x; scanEpoch := scanEpoch x;
     elements := elements x; timers := timers x;
     nextTimerId := nextTimerId x; clock := clock x;
     rootShowBlocked := rootShowBlocked x; persisted := persisted x |}.

Definition set_scanTimer (v : option nat) (x : State) : State :=
  {| settings := settings x; matchers := matchers x;
     decisionCache := decisionCache x; cacheSaveTimer := cacheSaveTimer x;
     debugState := debugState x; scanTimer := v; scanEpoch := scanEpoch x;
     elements := elements x; timers := timers x;
     nextTimerId := nextTimerId x; clock := clock x;
     rootShowBlocked := rootShowBlocked x; persisted := persisted x |}.

Definition set_scanEpoch (v : nat) (x : State) : State :=
  {| settings := settings x; matchers := matchers x;
     decisionCache := decisionCache x; cacheSaveTimer := cacheSaveTimer x;
     debugState := debugState x; scanTimer := scanTimer x; scanEpoch := v;
     elements := elements x; timers := timers x;
     nextTimerId := nextTimerId x; clock := clock x;
     rootShowBlocked := rootShowBlocked x; persisted := persisted x |}.

Definition set_elements (v : gmap nat Element) (x : State) : State :=
  {| settings := settings x; matchers := matchers x;
     decisionCache := decisionCache x; cacheSaveTimer := cacheSaveTimer x;
     debugState := debugState x; scanTimer := scanTimer x;
     scanEpoch := scanEpoch x; elements := v; timers := timers x;
     nextTimerId := nextTimerId x; clock := clock x;
     rootShowBlocked := rootShowBlocked x; persisted := persisted x |}.

Definition set_timers (v : list Timer) (x : State) : State :=
  {| settings := settings x; matchers := matchers x;
     decisionCache := decisionCache x; cacheSaveTimer := cacheSaveTimer x;
     debugState := debugState x; scanTimer := scanTimer x;
     scanEpoch := scanEpoch x; elements := elements x; timers := v;
     nextTimerId := nextTimerId x; clock := clock x;
     rootShowBlocked := rootShowBlocked x; persisted := persisted x |}.

Definition set_nextTimerId (v : nat) (x : State) : State :=
  {| settings := settings x; matchers := matchers x;
     decisionCache := decisionCache x; cacheSaveTimer := cacheSaveTimer x;
     debugState := debugState x; scanTimer := scanTimer x;
     scanEpoch := scanEpoch x; elements := elements x; timers := timers x;
     nextTimerId := v; clock := clock x;
     rootShowBlocked := rootShowBlocked x; persisted := persisted x |}.

Definition set_clock (v : Z) (x : State) : State :=
  {| settings := settings x; matchers := matchers x;
     decisionCache := decisionCache x; cacheSaveTimer := cacheSaveTimer x;
     debugState := debugState x; scanTimer := scanTimer x;
     scanEpoch := scanEpoch x; elements := elements x; timers := timers x;
     nextTimerId := nextTimerId x; clock := v;
     rootShowBlocked := rootShowBlocked x; persisted := persisted x |}.

Definition set_rootShowBlocked (v : bool) (x : State) : State :=
  {| settings := settings x; matchers := matchers x;
     decisionCache := decisionCache x; cacheSaveTimer := cacheSaveTimer x;
     debugState := debugState x; scanTimer := scanTimer x;
     scanEpoch := scanEpoch x; elements := elements x; timers := timers x;
     nextTimerId := nextTimerId x; clock := clock x; rootShowBlocked := v;
     persisted := persisted x |}.

Definition set_persisted (v : option CacheMap) (x : State) : State :=
  {| settings := settings x; matchers := matchers x;
     decisionCache := decisionCache x; cacheSaveTimer := cacheSaveTimer x;
     debugState := debugState x; scanTimer := scanTimer x;
     scanEpoch := scanEpoch x; elements := elements x; timers := timers x;
     nextTimerId := nextTimerId x; clock := clock x;
     rootShowBlocked := rootShowBlocked x; persisted := v |}.

Definition set_showBlocked (v : bool) (x : Settings) : Settings :=
  {| strongMusicKeywords := strongMusicKeywords x;
     moderateMusicKeywords := moderateMusicKeywords x;
     nonMusicKeywords := nonMusicKeywords x;
     channelMusicTokens := channelMusicTokens x;
     defaultPolicy := defaultPolicy x; showBlocked := v;
     debounceMs := debounceMs x; debugMode := debugMode x |}.

Definition initialState : State := {|
  settings := DEFAULTS;
  matchers := buildMatchers DEFAULTS;
  decisionCache := [];
  cacheSaveTimer := None;
  debugState := {| scanned := 0; blocked := 0; allowed := 0; lastScanAt := 0;
                   lastReason := ""; lastContext := ""; lastPath := "";
                   candidates := 0; skippedNoData := 0; skippedProcessed := 0;
                   cacheHits := 0 |};
  scanTimer := None;
  scanEpoch := 0;
  elements := ∅;
  timers := [];
  nextTimerId := 1;
  clock := 0;
  rootShowBlocked := false;
  persisted := None
|}.

(** One entry of [getScanTargets()] together with what the two
    [querySelectorAll] calls of [collectCandidates] return under its
    root: the nodes matching the target's selector, and the containers
    ([link.closest(VIDEO_CONTAINER_SELECTOR)], when there is one) of the
    links matching the fallback selector. *)
Record Target := {
  context : string;
  selectorMatches : list nat;
  fallbackContainers : list nat
}.

(** What the page shows when a callback runs: [window.location], the
    visible home root and the watch sidebar root, if any, with the
    results of the selector queries under them. *)
Record Page := {
  pathname : string;
  vParam : option string;
  homeRoot : option (list nat);
  watchRoot : option (list nat * list nat)
}.

(** [Date.now()] *)
Definition now (st : State) : Z := clock st.

(** [setTimeout(task, delay)]; the identifiers handed out are positive,
    hence truthy. *)
Definition setTimeout (task : TimerTask) (delay : Z) (st : State)
  : nat * State :=
  let id := nextTimerId st in
  (id,
   set_nextTimerId (S id)
     (set_timers (timers st ++ [{| timerId := id; timerDelay := delay;
                                   timerTask := task |}]) st)).

Definition updateElement (el : nat) (f : Element -> Element) (st : State)
  : State :=
  set_elements (alter f el (elements st)) st.

Definition updateDataset (el : nat) (f : Dataset -> Dataset) (st : State)
  : State :=
  updateElement el (fun e => set_dataset (f (dataset e)) e) st.

Definition updateDebug (f : DebugState -> DebugState) (st : State) : State :=
  set_debugState (f (debugState st)) st.

(** [if (settings.debugMode) { ... }] *)
Definition whenDebug (f : State -> State) (st : State) : State :=
  if debugMode (settings st) then f st else st.

(* ===================================================================== *)
(** ** 8) Cache helpers                                                   *)
(* ===================================================================== *)

Definition scheduleCacheSave (st : State) : State :=
  match cacheSaveTimer st with
  | Some _ => st
  | None =>
      let '(id, st1) := setTimeout CacheSaveTask 1000 st in
      set_cacheSaveTimer (Some id) st1
  end.

(** The callback of the timer set by [scheduleCacheSave]. *)
Definition cacheSaveCallback (st : State) : State :=
  let st1 := set_cacheSaveTimer None st in
  set_persisted (Some (decisionCache st1)) st1.

Definition cacheGet (key : string) (st : State) : option bool * State :=
  if Js.isEmpty key then (None, st)
  else
    match mapGet key (decisionCache st) with
    | None => (None, st)
    | Some entry =>
        (* Touch the entry to keep it fresh. *)
        let m1 := mapDelete key (decisionCache st) in
        let m2 := mapSet key {| Entry.isMusic := Entry.isMusic entry;
                                Entry.ts := now st |} m1 in
        (Some (Entry.isMusic entry), set_decisionCache m2 st)
    end.

Definition cacheSet (key : string) (isMusic : bool) (st : State) : State :=
  if Js.isEmpty key then st
  else
    let m1 := mapSet key {| Entry.isMusic := isMusic; Entry.ts := now st |}
                (decisionCache st) in
    (* Trim the cache if it grows too large. *)
    let m2 :=
      if Nat.ltb MAX_CACHE_ENTRIES (length m1)
      then match mapKeys m1 with
           | oldestKey :: _ => mapDelete oldestKey m1
           | [] => m1
           end
      else m1 in
    scheduleCacheSave (set_decisionCache m2 st).

(** [loadCache], from the moment the storage read has resolved: [raw] is
    [Object.entries] of the persisted object. *)
Definition loadCache (raw : list (string * StoredValue)) (st : State) : State :=
  fold_left
    (fun acc kv =>
       match snd kv with
       | WellFormed value =>
           set_decisionCache (mapSet (fst kv) value (decisionCache acc)) acc
       | Malformed => acc
       end)
    raw st.

(* ===================================================================== *)
(** ** 9) DOM hide/show helpers                                           *)
(* ===================================================================== *)

Definition hideElement (el : nat) (st : State) : State :=
  let st1 := updateElement el (set_mvBlocked true) st in
  if showBlocked (settings st1) then st1
  else snd (setTimeout (HideTask el) HIDE_DELAY_MS st1).

(** The callback of the timer set by [hideElement]. *)
Definition hideCallback (el : nat) (st : State) : State :=
  match elements st !! el with
  | Some e =>
      if negb (showBlocked (settings st)) && mvBlocked e
      then updateElement el (set_mvHidden true) st
      else st
  | None => st
  end.

Definition unhideElement (el : nat) (st : State) : State :=
  updateElement el (set_mvBlocked false)
    (updateElement el (set_mvHidden false) st).

(** [document.querySelectorAll(".mv-blocked")] *)
Definition blockedElements (st : State) : list nat :=
  List.map fst
    (List.filter (fun he => mvBlocked (snd he)) (map_to_list (elements st))).

Definition applyShowBlocked (show : bool) (st : State) : State :=
  let st1 := set_settings (set_showBlocked show (settings st)) st in
  let st2 := set_rootShowBlocked show st1 in
  if show
  then fold_left (fun acc el => updateElement el (set_mvHidden false) acc)
         (blockedElements st2) st2
  else fold_left
         (fun acc el =>
            match elements acc !! el with
            | Some e => if negb (mvHidden e) then hideElement el acc else acc
            | None => acc
            end)
         (blockedElements st2) st2.

(* ===================================================================== *)
(** ** 10) Page context detection                                         *)
(* ===================================================================== *)

Definition getCurrentWatchVideoId (page : Page) : option string :=
  if negb (String.eqb (pathname page) "/watch") then None else vParam page.

Definition getScanTargets (page : Page) : list Target :=
  (if String.eqb (pathname page) "/"
   then match homeRoot page with
        | Some found => [{| context := "home"; selectorMatches := found;
                            fallbackContainers := [] |}]
        | None => []
        end
   else [])
  ++
  (if String.eqb (pathname page) "/watch"
   then match watchRoot page with
        | Some (found, viaLinks) =>
            [{| context := "watch-sidebar"; selectorMatches := found;
                fallbackContainers := viaLinks |}]
        | None => []
        end
   else []).

(* ===================================================================== *)
(** ** 11) Scanning and processing                                        *)
(* ===================================================================== *)

(** [a || b] on numbers and on strings *)
Definition orNumber (a b : Z) : Z := if Z.eqb a 0 then b else a.
Definition orString (a b : string) : string := if Js.truthy a then a else b.

Definition scheduleScan (st : State) : State :=
  match scanTimer st with
  | Some _ => st
  | None =>
      let delay :=
        orNumber (debounceMs (settings st)) (orNumber (debounceMs DEFAULTS) 60) in
      let '(id, st1) := setTimeout ScanTask delay st in
      set_scanTimer (Some id) st1
  end.

(** [Set.prototype.add] on a set kept in insertion order *)
Definition setAdd (el : nat) (candidates : list nat) : list nat :=
  if existsb (Nat.eqb el) candidates then candidates else candidates ++ [el].

Definition collectCandidates (target : Target) : list nat :=
  let candidates := fold_left (fun acc el => setAdd el acc)
                      (selectorMatches target) [] in
  (* Fallback: on watch pages, YouTube sometimes uses different renderers. *)
  if String.eqb (context target) "watch-sidebar"
  then fold_left (fun acc el => setAdd el acc) (fallbackContainers target)
         candidates
  else candidates.

Definition elementKeyOf (data : VideoData) : string :=
  orString (default "" (cacheKey data))
    (orString (normalizedTitle data) (title data)).

Definition allowSkip (context : string) : bool :=
  negb (String.eqb context "watch-sidebar").

Definition applyDecision (el : nat) (isMusic : bool) (st : State) : State :=
  if negb isMusic then hideElement el st else unhideElement el st.

(** Steps 2) to 5) of [processCandidate]: classify locally, apply the
    result, save it to the cache, mark the node as processed. *)
Definition classifyCandidate (el : nat) (data : VideoData) (st : State)
  : State :=
  let result := classifyVideo (settings st) (matchers st) data in
  let st1 := applyDecision el (Result.isMusic result) st in
  let st2 :=
    if truthyOpt (cacheKey data)
    then cacheSet (default "" (cacheKey data)) (Result.isMusic result) st1
    else st1 in
  let st3 :=
    whenDebug
      (updateDataset el
         (fun d =>
            set_mvId (Some (default "" (videoId data)))
              (set_mvTitle (Some (Js.slice0 80 (title data)))
                 (set_mvReason (Some (Result.reason result)) d))))
      st2 in
  let st4 := updateDebug (fun d => set_scanned (S (scanned d)) d) st3 in
  let st5 :=
    if Result.isMusic result
    then updateDebug (fun d => set_allowed (S (allowed d)) d) st4
    else updateDebug (fun d => set_blocked (S (blocked d)) d) st4 in
  let st6 := updateDebug (set_lastReason (Result.reason result)) st5 in
  updateDataset el (set_mvProcessed "1") st6.

(** Step 1) of the decision: the cache is consulted first when the item
    has a cache key; a hit applies the cached decision and returns. *)
Definition decideCandidate (el : nat) (data : VideoData) (st : State)
  : State :=
  let '(cached, st1) :=
    if truthyOpt (cacheKey data)
    then cacheGet (default "" (cacheKey data)) st
    else (None, st) in
  match cached with
  | Some isMusic =>
      let st2 := applyDecision el isMusic st1 in
      let st3 :=
        whenDebug
          (fun s =>
             updateDataset el (set_mvReason (Some "cache"))
               (updateDebug (fun d => set_cacheHits (S (cacheHits d)) d) s))
          st2 in
      updateDataset el (set_mvProcessed "1") st3
  | None => classifyCandidate el data st1
  end.

(** [!data.title && !data.videoId] is false *)
Definition hasData (data : VideoData) : bool :=
  negb (Js.isEmpty (title data) && negb (truthyOpt (videoId data))).

(** [currentWatchId && element.dataset.mvWatchId !== currentWatchId] *)
Definition watchChanged (page : Page) (element : Element) : bool :=
  truthyOpt (getCurrentWatchVideoId page)
  && negb (bool_decide
             (mvWatchId (dataset element) = getCurrentWatchVideoId page)).

Definition markEpoch (el : nat) (st : State) : State :=
  updateDataset el (set_mvEpoch (Some (scanEpoch st))) st.

(** On watch pages, YouTube reuses DOM nodes for new videos.  If the
    watch video changed, force reprocessing. *)
Definition forgetOnWatchChange (page : Page) (el : nat) (element : Element)
  (st : State) : State :=
  if watchChanged page element
  then updateDataset el
         (fun d => set_mvWatchId (getCurrentWatchVideoId page)
                     (set_mvKey "" (set_mvProcessed "" d)))
         st
  else st.

(** The skip test.  [previousKey] was read before the watch-change reset;
    [mvProcessed] is read after it. *)
Definition skipsProcessed (page : Page) (context : string) (element : Element)
  (data : VideoData) : bool :=
  let elementKey := elementKeyOf data in
  let previousKey := mvKey (dataset element) in
  let processed :=
    if watchChanged page element then "" else mvProcessed (dataset element) in
  allowSkip context && String.eqb processed "1"
  && String.eqb previousKey elementKey.

(** [element.dataset.mvKey = elementKey.slice(0, 200)] and the watch id,
    written once the node is known not to be skipped. *)
Definition rememberKey (page : Page) (el : nat) (data : VideoData)
  (st : State) : State :=
  let elementKey := elementKeyOf data in
  let st1 :=
    if Js.truthy elementKey
    then updateDataset el (set_mvKey (Js.slice0 200 elementKey)) st
    else st in
  if truthyOpt (getCurrentWatchVideoId page)
  then updateDataset el (set_mvWatchId (getCurrentWatchVideoId page)) st1
  else st1.

Definition processCandidate (page : Page) (context : string) (el : nat)
  (st : State) : State :=
  match elements st !! el with
  | None => st
  | Some element =>
      (* Avoid double-processing the same node within the same scan. *)
      if bool_decide (mvEpoch (dataset element) = Some (scanEpoch st)) then st
      else
        let st1 := markEpoch el st in
        let data := extractVideoData (raw element) in
        (* If we have no useful info yet, skip for now and try later. *)
        if negb (hasData data)
        then whenDebug
               (updateDebug (fun d => set_skippedNoData (S (skippedNoData d)) d))
               st1
        else
          let st2 := forgetOnWatchChange page el element st1 in
          if skipsProcessed page context element data
          then whenDebug
                 (updateDebug
                    (fun d => set_skippedProcessed (S (skippedProcessed d)) d))
                 st2
          else decideCandidate el data (rememberKey page el data st2)
  end.

Fixpoint joinComma (l : list string) : string :=
  match l with
  | [] => ""
  | [x] => x
  | x :: rest => x +:+ "," +:+ joinComma rest
  end.

Definition resetDebug (page : Page) (st : State) : State :=
  updateDebug
    (fun d =>
       {| scanned := 0; blocked := 0; allowed := 0; lastScanAt := now st;
          lastReason := ""; lastContext := ""; lastPath := pathname page;
          candidates := 0; skippedNoData := 0; skippedProcessed := 0;
          cacheHits := 0 |})
    st.

Definition scanTarget (page : Page) (st : State) (target : Target) : State :=
  let found := collectCandidates target in
  let st1 :=
    whenDebug
      (updateDebug (fun d => set_candidates (candidates d + length found) d))
      st in
  fold_left (fun acc el => processCandidate page (context target) el acc)
    found st1.

Definition scanNow (page : Page) (st : State) : State :=
  let st1 := whenDebug (resetDebug page) st in
  let st2 := set_scanEpoch (S (scanEpoch st1)) st1 in
  let targets := getScanTargets page in
  let st3 :=
    whenDebug
      (updateDebug
         (set_lastContext (orString (joinComma (List.map context targets)) "-")))
      st2 in
  fold_left (scanTarget page) targets st3.

(** The first half of [rescanAll]: remove the processed marks of every
    enumerated node. *)
Definition clearMarks (el : nat) (st : State) : State :=
  unhideElement el
    (updateDataset el (fun d => set_mvKey "" (set_mvProcessed "" d)) st).

Definition clearTargets (page : Page) (st : State) : State :=
  fold_left
    (fun acc target =>
       fold_left (fun acc' el => clearMarks el acc') (collectCandidates target)
         acc)
    (getScanTargets page) st.

Definition rescanAll (page : Page) (st : State) : State :=
  scanNow page (clearTargets page st).

(** The callback of the timer set by [scheduleScan]. *)
Definition scanCallback (page : Page) (st : State) : State :=
  scanNow page (set_scanTimer None st).

(* ===================================================================== *)
(** ** 12), 13) Listeners: what can happen to the content script          *)
(* ===================================================================== *)

Inductive Event :=
| ChangeSignal
    (** the MutationObserver callback or one of the navigation events *)
| TimerFires (id : nat) (page : Page)
    (** the browser runs a pending [setTimeout] callback *)
| Refresh (page : Page)
    (** an [MV_REFRESH] message or a write of the rescan token *)
| ToggleShowBlocked (show : bool)
    (** an [MV_TOGGLE_SHOW_BLOCKED] message *)
| SettingsChanged (newValue : Settings) (page : Page)
    (** the settings blob was replaced in storage *)
| CacheLoaded (raw : list (string * StoredValue))
    (** the storage read started by [loadCache] resolved *)
| DomReplaced (doc : gmap nat RawFields)
    (** the page rendered: nodes appear, disappear or show other items *)
| ClockAdvanced (t : Z).

Fixpoint takeTimer (id : nat) (pending : list Timer)
  : option (Timer * list Timer) :=
  match pending with
  | [] => None
  | t :: rest =>
      if Nat.eqb (timerId t) id then Some (t, rest)
      else match takeTimer id rest with
           | Some (found, rest') => Some (found, t :: rest')
           | None => None
           end
  end.

Definition render (doc : gmap nat RawFields) (st : State) : State :=
  set_elements
    (map_imap
       (fun el fields =>
          Some (match elements st !! el with
                | Some e => set_raw fields e
                | None => freshElement fields
                end))
       doc)
    st.

Definition step (st : State) (ev : Event) : State :=
  match ev with
  | ChangeSignal => scheduleScan st
  | TimerFires id page =>
      match takeTimer id (timers st) with
      | None => st
      | Some (t, rest) =>
          let st1 := set_timers rest st in
          match timerTask t with
          | ScanTask => scanCallback page st1
          | HideTask el => hideCallback el st1
          | CacheSaveTask => cacheSaveCallback st1
          end
      end
  | Refresh page => rescanAll page st
  | ToggleShowBlocked show => applyShowBlocked show st
  | SettingsChanged newValue page =>
      let st1 := set_matchers (buildMatchers newValue)
                   (set_settings newValue st) in
      rescanAll page (applyShowBlocked (showBlocked newValue) st1)
  | CacheLoaded raw => loadCache raw st
  | DomReplaced doc => render doc st
  | ClockAdvanced t => set_clock t st
  end.

Definition run (st : State) (evs : list Event) : State := fold_left step evs st.

(** [init], once the settings have been read from storage. *)
Definition init (loaded : Settings) (st : State) : State :=
  let st1 := set_matchers (buildMatchers loaded) (set_settings loaded st) in
  scheduleScan (applyShowBlocked (showBlocked loaded) st1).

(* ===================================================================== *)
(** ** The duration contract in the words of the specification            *)
(* ===================================================================== *)

(** Segments weighted 1, 60, 3600, ... from the right: the argument
    lists the segment values starting with the rightmost one. *)
Fixpoint positional (valuesFromRight : list Z) : Z :=
  match valuesFromRight with
  | [] => 0
  | v :: rest => v + 60 * positional rest
  end%Z.

(** The number a segment of digits denotes (an empty segment adds 0). *)
Definition segmentValue (segment : string) : Z := Js.digitsFrom 0 segment.

(** "Null when the text has no digit; otherwise strip everything except
    digits and colons, split on colon, and sum the segments right to
    left with multipliers 1, 60, 3600, ...": every segment of the split
    takes a position. *)
Definition parseDuration_allSegments (text : string) : option Z :=
  if negb (Js.testChar Js.isDigit text) then None
  else
    let segments := Js.split isColon (Js.keepChars Js.isDigitOrColon text) in
    Some (positional (List.rev (List.map segmentValue segments))).

(** The same contract with the empty segments dropped before the
    remaining ones are given their positions. *)
Definition parseDuration_nonEmptySegments (text : string) : option Z :=
  if negb (Js.testChar Js.isDigit text) then None
  else
    let segments :=
      Js.filterBoolean
        (Js.split isColon (Js.keepChars Js.isDigitOrColon text)) in
    Some (positional (List.rev (List.map segmentValue segments))).

(* ===================================================================== *)
(** ** Sample inputs used in the statements below                          *)
(* ===================================================================== *)

Definition settingsWith (strongList moderateList nonList channelList : list string)
  (policy : string) : Settings := {|
  strongMusicKeywords := LArray strongList;
  moderateMusicKeywords := LArray moderateList;
  nonMusicKeywords := LArray nonList;
  channelMusicTokens := LArray channelList;
  defaultPolicy := policy;
  showBlocked := false;
  debounceMs := 60;
  debugMode := false
|}.

Definition fieldsOf (titleText channelText duration : string)
  (id : option string) : RawFields := {|
  rawTitle := titleText;
  rawHref := "";
  rawChannel := channelText;
  rawDurationText := duration;
  rawVideoId := id
|}.

(** [from], [from + 1], ...: [n] numbers. *)
Fixpoint countFrom (from : N) (n : nat) : list N :=
  match n with
  | O => []
  | S m => from :: countFrom (N.succ from) m
  end.

(** The cache key of the video whose identifier is the decimal numeral
    of [n]. *)
Definition sampleKey (n : N) : string := "id:" +:+ pretty n.

Definition sampleEntry : Entry.t := {| Entry.isMusic := true; Entry.ts := 0 |}.

(** A cache filled to its bound: keys [id:0] (oldest) to [id:4999]. *)
Definition fullCache : CacheMap :=
  List.map (fun n => (sampleKey n, sampleEntry)) (countFrom 0 MAX_CACHE_ENTRIES).

(** The entries of the Map [m] as stored values, listed in the Map's
    order.  The object that the cache-save callback hands to storage
    holds these entries; in which order [Object.entries] lists them
    after the storage round trip is up to the engine and the storage
    (an object lists integer-like keys first), so what is said about a
    stored snapshot is said for every order of its entries. *)
Definition snapshotOf (m : CacheMap) : list (string * StoredValue) :=
  List.map (fun ke => (fst ke, WellFormed (snd ke))) m.

Definition fullSnapshot : list (string * StoredValue) := snapshotOf fullCache.


(** The two operations of the cache, to state what holds after every
    one of them. *)
Inductive CacheOp :=
| Get (key : string)
| Put (key : string) (isMusic : bool).

Definition applyOp (st : State) (op : CacheOp) : State :=
  match op with
  | Get key => snd (cacheGet key st)
  | Put key isMusic => cacheSet key isMusic st
  end.

(** [cacheSet] called for each key in turn. *)
Definition putAll (keys : list string) (isMusic : bool) (st : State) : State :=
  fold_left (fun acc key => cacheSet key isMusic acc) keys st.


Definition homePage (found : list nat) : Page := {|
  pathname := "/"; vParam := None; homeRoot := Some found; watchRoot := None
|}.

(** The number of candidates a scan of the page enumerates. *)
Definition candidateCount (page : Page) : nat :=
  list_sum (List.map (fun target => length (collectCandidates target))
              (getScanTargets page)).

(** Pending timers that run a scan. *)
Definition isScanTask (t : Timer) : bool :=
  match timerTask t with
  | ScanTask => true
  | _ => false
  end.

Definition pendingScans (st : State) : nat :=
  length (List.filter isScanTask (timers st)).

(** Does the event run [scanNow]? *)
Definition executesScan (st : State) (ev : Event) : bool :=
  match ev with
  | TimerFires id _ =>
      match takeTimer id (timers st) with
      | Some (t, _) => isScanTask t
      | None => false
      end
  | Refresh _ => true
  | SettingsChanged _ _ => true
  | _ => false
  end.

Fixpoint scansExecuted (st : State) (evs : list Event) : nat :=
  match evs with
  | [] => 0
  | ev :: later =>
      (if executesScan st ev then 1 else 0) + scansExecuted (step st ev) later
  end.

(** The key kept on a node has at most 200 characters. *)
Definition shortKey (e : Element) : Prop :=
  String.length (mvKey (dataset e)) <= 200.

Definition shortKeys (st : State) : Prop :=
  forall el e, elements st !! el = Some e -> shortKey e.

(** A title of 201 exclamation marks: it normalizes to the empty
    string, so a tile that shows it without a video id has no cache key
    and its element key is the raw title. *)
Fixpoint repeatChar (c : ascii) (n : nat) : string :=
  match n with
  | O => EmptyString
  | S m => String c (repeatChar c m)
  end.

Definition longTitle : string := repeatChar "!" 201.

(** A home page with one tile that shows [longTitle] and no video id. *)
Definition longTitleState : State :=
  render {[ 0 := fieldsOf longTitle "" "" None ]} initialState.

(** The tile of [longTitleState] as a first scan leaves it: allowed,
    marked processed, with the first 200 characters of its key. *)
Definition processedLongTile : Element := {|
  raw := fieldsOf longTitle "" "" None;
  dataset := {| mvEpoch := Some 1; mvKey := repeatChar "!" 200;
                mvProcessed := "1"; mvWatchId := None; mvReason := None;
                mvTitle := None; mvId := None |};
  mvBlocked := false;
  mvHidden := false
|}.

(** Every character of [s] belongs to the class [p]. *)
Fixpoint allChars (p : ascii -> bool) (s : string) : bool :=
  match s with
  | EmptyString => true
  | String c r => p c && allChars p r
  end.

(** A non-empty string of decimal digits. *)
Definition digitString (s : string) : bool :=
  Js.truthy s && allChars Js.isDigit s.

(** The multiplier of the loop of [durationToSeconds] when it reaches
    the part at position [i] from the right: 1 multiplied [i] times by
    60, in doubles. *)
Fixpoint multiplierAt (i : nat) : Js.number :=
  match i with
  | O => Js.Finite 1
  | S j => Js.mul (multiplierAt j) (Js.Finite 60)
  end.

(** A number that is at least [lo]: a double that holds an integer
    from [lo] on, or [Infinity]. *)
Definition atLeast (lo : Z) (v : Js.number) : Prop :=
  v = Js.Infinity false \/ exists n, v = Js.Finite n /\ (lo <= n)%Z.

(** The text [0:0:...:0] of [n] segments. *)
Fixpoint zeroSegments (n : nat) : string :=
  match n with
  | O => ""
  | S O => "0"
  | S m => String "0" (String ":" (zeroSegments m))
  end.

(* ===================================================================== *)
(** ** Notions used in the statements                                     *)
(* ===================================================================== *)

(** [quiet st st']: going from [st] to [st'] neither touched the scan
    timer or the epoch nor added or removed a pending scan. *)
Definition quiet (st st' : State) : Prop :=
  scanTimer st' = scanTimer st
  /\ scanEpoch st' = scanEpoch st
  /\ pendingScans st' = pendingScans st.

(** At most one scan is pending, and one is pending exactly when
    [scanTimer] is set. *)
Definition singleFlight (st : State) : Prop :=
  pendingScans st = match scanTimer st with Some _ => 1 | None => 0 end.

(** [keepsShort st st']: if every node's key was short in [st], it is in
    [st']. *)
Definition keepsShort (st st' : State) : Prop := shortKeys st -> shortKeys st'.

(** Every (key, decision) pair of [c] is still in [c']. *)
Definition cacheKeeps (c c' : CacheMap) : Prop :=
  forall k e, mapGet k c = Some e ->
              exists e', mapGet k c' = Some e'
                         /\ Entry.isMusic e' = Entry.isMusic e.

(** [grows n st st']: the cache gained at most [n] entries, and lost no
    pair if it had room for [n] more. *)
Definition grows (n : nat) (st st' : State) : Prop :=
  length (decisionCache st') <= length (decisionCache st) + n
  /\ (length (decisionCache st) + n <= MAX_CACHE_ENTRIES ->
      cacheKeeps (decisionCache st) (decisionCache st')).

(** What [clearMarks] leaves on a node. *)
Definition cleared (e : Element) : Prop :=
  mvProcessed (dataset e) = "" /\ mvKey (dataset e) = ""
  /\ mvBlocked e = false /\ mvHidden e = false.

(* ===================================================================== *)
(** ** Further notions used in the statements                            *)
(* ===================================================================== *)

(** *** Normalized text and whole-word matching *)

(** The space character, the only separator left in a normalized text. *)
Definition isBlank (c : ascii) : bool := N.eqb (Js.code c) 32.

(** The words of a text: its pieces between single spaces. *)
Definition wordsOf (text : string) : list string := Js.split isBlank text.

(** [[a-z0-9 ]] *)
Definition isAlnumOrBlank (c : ascii) : bool := Js.isAlnum c || isBlank c.

(** Characters of [[a-z0-9 ]] with no two spaces in a row and, when
    [afterSpace] is set, no space in front. *)
Fixpoint looseFrom (afterSpace : bool) (s : string) : bool :=
  match s with
  | EmptyString => true
  | String c r =>
      if Js.isAlnum c then looseFrom false r
      else isBlank c && negb afterSpace && looseFrom true r
  end.

(** The same, and the string does not end where a word has to start:
    words of [[a-z0-9]] separated by single spaces. *)
Fixpoint tidyFrom (afterSpace : bool) (s : string) : bool :=
  match s with
  | EmptyString => negb afterSpace
  | String c r =>
      if Js.isAlnum c then tidyFrom false r
      else isBlank c && negb afterSpace && tidyFrom true r
  end.

(** The empty text, or words of [[a-z0-9]] separated by single spaces. *)
Definition normalForm (s : string) : bool := Js.isEmpty s || tidyFrom true s.

(** A non-empty word of [[a-z0-9]]. *)
Definition alnumWord (w : string) : bool := Js.truthy w && allChars Js.isAlnum w.

(** Every word with a space in front: [" w1 w2 ... wn"]. *)
Fixpoint spaced (l : list string) : string :=
  match l with
  | [] => ""
  | w :: rest => " " +:+ w +:+ spaced rest
  end.

(** *** Durations as clock texts *)

(** [parts.join(sep)] for a separator of one character *)
Fixpoint joinWith (sep : ascii) (parts : list string) : string :=
  match parts with
  | [] => ""
  | [x] => x
  | x :: rest => x +:+ String sep (joinWith sep rest)
  end.

(** [parts.join(":")] *)
Definition joinColon (parts : list string) : string := joinWith ":" parts.

(** The clock text of the numbers [ns]: their decimal numerals joined
    by colons, as in [1:2:3]. *)
Definition clockText (ns : list N) : string := joinColon (List.map pretty ns).

(** *** The visit of one candidate *)

(** [touches el R st st']: from [st] to [st'] no node other than [el]
    changed, none appeared or disappeared, and the record of [el], if
    there is one, changed as [R] says. *)
Definition touches (el : nat) (R : Element -> Element -> Prop)
  (st st' : State) : Prop :=
  (forall x, x <> el -> elements st' !! x = elements st !! x)
  /\ match elements st !! el with
     | Some e => exists e', elements st' !! el = Some e' /\ R e e'
     | None => elements st' !! el = None
     end.

(** The decision [processCandidate] applies to an item: the cached one
    when the item has a cache key that is in the cache, the
    classifier's otherwise. *)
Definition decisionFor (data : VideoData) (st : State) : bool :=
  match (if truthyOpt (cacheKey data)
         then mapGet (default "" (cacheKey data)) (decisionCache st)
         else None) with
  | Some entry => Entry.isMusic entry
  | None => Result.isMusic (classifyVideo (settings st) (matchers st) data)
  end.

(** What applying the decision [isMusic] does to the two marker
    classes: a match loses both, a non-match gains [mv-blocked] and
    keeps [mv-hidden] as it was. *)
Definition marked (isMusic : bool) (e e' : Element) : Prop :=
  raw e' = raw e /\ dataset e' = dataset e
  /\ mvBlocked e' = negb isMusic
  /\ mvHidden e' = negb isMusic && mvHidden e.

(** Only debug attributes and the processed flag may differ. *)
Definition sameIdentity (e e' : Element) : Prop :=
  raw e' = raw e
  /\ mvBlocked e' = mvBlocked e /\ mvHidden e' = mvHidden e
  /\ mvEpoch (dataset e') = mvEpoch (dataset e)
  /\ mvKey (dataset e') = mvKey (dataset e)
  /\ mvWatchId (dataset e') = mvWatchId (dataset e).

(** The record of a node after the decision step applied [isMusic]. *)
Definition decidedAs (isMusic : bool) (e e' : Element) : Prop :=
  raw e' = raw e
  /\ mvEpoch (dataset e') = mvEpoch (dataset e)
  /\ mvKey (dataset e') = mvKey (dataset e)
  /\ mvWatchId (dataset e') = mvWatchId (dataset e)
  /\ mvProcessed (dataset e') = "1"
  /\ mvBlocked e' = negb isMusic
  /\ mvHidden e' = negb isMusic && mvHidden e.

(** The record of a node with the epoch stamp [epoch] written on it. *)
Definition stampedWith (epoch : nat) (e : Element) : Element :=
  set_dataset (set_mvEpoch (Some epoch) (dataset e)) e.

(** The marker classes, the extracted fields and the epoch stamp are
    as before. *)
Definition keepsMarks (e e' : Element) : Prop :=
  raw e' = raw e /\ mvBlocked e' = mvBlocked e /\ mvHidden e' = mvHidden e
  /\ mvEpoch (dataset e') = mvEpoch (dataset e).

(** What a visit of [processCandidate] that reaches the decision step
    leaves on a node. *)
Definition decidedNode (epoch : nat) (key : string) (isMusic : bool)
  (e e' : Element) : Prop :=
  raw e' = raw e
  /\ mvEpoch (dataset e') = Some epoch
  /\ mvProcessed (dataset e') = "1"
  /\ mvKey (dataset e') = Js.slice0 200 key
  /\ mvBlocked e' = negb isMusic
  /\ mvHidden e' = negb isMusic && mvHidden e.

(** Is the visit of a node that carries no stamp of the current epoch
    cut short, because the item has no data yet or because the node
    was processed for the same item? *)
Definition visitSkips (page : Page) (context : string) (e : Element) : bool :=
  negb (hasData (extractVideoData (raw e)))
  || skipsProcessed page context e (extractVideoData (raw e)).

(** The record [e] of a node after its visit in the epoch [epoch]. *)
Definition visited (page : Page) (context : string) (epoch : nat)
  (e e' : Element) : Prop :=
  if visitSkips page context e
  then e' = stampedWith epoch e
  else exists isMusic,
         decidedNode epoch (elementKeyOf (extractVideoData (raw e))) isMusic
           e e'.

(** Nothing but the debug counters differs. *)
Definition debugOnly (st st' : State) : Prop :=
  elements st' = elements st /\ scanEpoch st' = scanEpoch st
  /\ decisionCache st' = decisionCache st
  /\ settings st' = settings st /\ matchers st' = matchers st
  /\ timers st' = timers st /\ cacheSaveTimer st' = cacheSaveTimer st.

(** A page state with one node, [0], that shows the item [fields]. *)
Definition tileState (fields : RawFields) : State :=
  render {[ 0 := fields ]} initialState.

(** What a visit that reaches the decision step leaves on a node whose
    computed key [key] is longer than 200 characters: the stamp, the
    processed flag, and the key cut to its first 200 characters, which
    is not [key]. *)
Definition decidedCut (epoch : nat) (key : string) (e e' : Element) : Prop :=
  raw e' = raw e
  /\ mvEpoch (dataset e') = Some epoch
  /\ mvProcessed (dataset e') = "1"
  /\ mvKey (dataset e') = Js.slice0 200 key
  /\ String.length (mvKey (dataset e')) = 200
  /\ mvKey (dataset e') <> key.

(** *** Timers and marker classes *)

(** Pending timers that persist the cache. *)
Definition isSaveTask (t : Timer) : bool :=
  match timerTask t with
  | CacheSaveTask => true
  | _ => false
  end.

Definition pendingSaves (st : State) : nat :=
  length (List.filter isSaveTask (timers st)).

(** At most one cache save is pending, and one is pending exactly when
    [cacheSaveTimer] is set. *)
Definition saveFlight (st : State) : Prop :=
  pendingSaves st = match cacheSaveTimer st with Some _ => 1 | None => 0 end.

(** A node that carries [mv-hidden] carries [mv-blocked]; while blocked
    items are to be shown no node carries [mv-hidden]; and the class on
    the root element mirrors the setting. *)
Definition marksConsistent (st : State) : Prop :=
  (forall el e, elements st !! el = Some e ->
                mvHidden e = true -> mvBlocked e = true)
  /\ (showBlocked (settings st) = true ->
      forall el e, elements st !! el = Some e -> mvHidden e = false)
  /\ rootShowBlocked st = showBlocked (settings st).

(** *** The cache across a session *)

(** The keys of the cache are distinct, as the keys of a [Map] are. *)
Definition uniqueKeys (st : State) : Prop :=
  List.NoDup (mapKeys (decisionCache st)).

(** The cache is a well-formed [Map] of at most [MAX_CACHE_ENTRIES]
    entries. *)
Definition withinBound (st : State) : Prop :=
  uniqueKeys st /\ length (decisionCache st) <= MAX_CACHE_ENTRIES.

(** No event of the run is the arrival of the persisted cache. *)
Definition isLoad (ev : Event) : bool :=
  match ev with
  | CacheLoaded _ => true
  | _ => false
  end.

(** No node carries an epoch stamp of a scan that has not started. *)
Definition stampsBounded (st : State) : Prop :=
  forall el e k, elements st !! el = Some e ->
                 mvEpoch (dataset e) = Some k -> k <= scanEpoch st.

(** The well-formed value that the persisted object [raw] holds under
    [key], if any (the last one, should a key occur twice). *)
Fixpoint storedUnder (key : string) (raw : list (string * StoredValue))
  : option Entry.t :=
  match raw with
  | [] => None
  | (k, v) :: rest =>
      match storedUnder key rest with
      | Some e => Some e
      | None =>
          match v with
          | WellFormed e => if String.eqb k key then Some e else None
          | Malformed => None
          end
      end
  end.

(** *** Targets, scans and rescans *)

(** The scan target of the home page whose selector matches [found]. *)
Definition homeTarget (found : list nat) : Target :=
  {| context := "home"; selectorMatches := found; fallbackContainers := [] |}.

(** A page that is neither the home feed nor a watch page. *)
Definition resultsPage : Page :=
  {| pathname := "/results"; vParam := None; homeRoot := None;
     watchRoot := None |}.

(** *** The keyword lists of the options form *)

(** The helpers of the options page (options.js) that turn a keyword
    list into the text of its textarea and back. *)
Module Options.

Definition isNewline (c : ascii) : bool := N.eqb (Js.code c) 10.

(** [list.join("\n")], and the empty text for anything but an array *)
Definition listToText (list : ListValue) : string :=
  match list with
  | LArray items => joinWith "010" items
  | _ => ""
  end.

(** [text.split(/\n/).map((line) => line.trim()).filter(Boolean)] *)
Definition textToList (text : string) : list string :=
  Js.filterBoolean (List.map Js.trim (Js.split isNewline text)).

End Options.

(** A line as [textToList] returns it: not empty, trimmed and without a
    line feed. *)
Definition cleanLine (line : string) : Prop :=
  line <> "" /\ Js.trim line = line
  /\ allChars (fun c => negb (Options.isNewline c)) line = true.

(** *** Pending hides *)

(** A hide timer for the node [el] is pending. *)
Definition hidePendingFor (el : nat) (st : State) : Prop :=
  exists t, In t (timers st) /\ timerTask t = HideTask el.

(** While blocked items are not to be shown, every node that is blocked
    and not yet hidden has a hide timer pending. *)
Definition hidePending (st : State) : Prop :=
  showBlocked (settings st) = false ->
  forall el e, elements st !! el = Some e ->
               mvBlocked e = true -> mvHidden e = false ->
               hidePendingFor el st.

(* ===================================================================== *)
(** * Properties                                                          *)
(* ===================================================================== *)

(** ** Characters *)

Ltac each_char c :=
  destruct c as [[] [] [] [] [] [] [] []]; intros;
  repeat match goal with
         | H : _ = true |- _ => vm_compute in H; try discriminate H; clear H
         | H : _ = false |- _ => vm_compute in H; try discriminate H; clear H
         end;
  try reflexivity.

Lemma lowerChar_digitOrColon (c : ascii) :
  Js.isDigitOrColon (Js.lowerChar c) = Js.isDigitOrColon c.
Proof. each_char c. Qed.

Lemma lowerChar_fixes_digitOrColon (c : ascii) :
  Js.isDigitOrColon c = true -> Js.lowerChar c = c.
Proof. each_char c. Qed.

Lemma space_not_digitOrColon (c : ascii) :
  Js.isSpace c = true -> Js.isDigitOrColon c = false.
Proof. each_char c. Qed.

Lemma digit_is_digitOrColon (c : ascii) :
  Js.isDigit c = true -> Js.isDigitOrColon c = true.
Proof. each_char c. Qed.

Lemma digitOrColon_cases (c : ascii) :
  Js.isDigitOrColon c = true -> isColon c = false -> Js.isDigit c = true.
Proof. each_char c. Qed.

Lemma colon_not_digit (c : ascii) : isColon c = true -> Js.isDigit c = false.
Proof. each_char c. Qed.

Lemma digit_not_space (c : ascii) : Js.isDigit c = true -> Js.isSpace c = false.
Proof. each_char c. Qed.

Lemma readSign_digit (c : ascii) (r : string) :
  Js.isDigit c = true -> Js.readSign (String c r) = (false, String c r).
Proof. each_char c. Qed.

Lemma digitValue_range (c : ascii) :
  Js.isDigit c = true -> (0 <= Js.digitValue c <= 9)%Z.
Proof. each_char c; vm_compute; split; discriminate. Qed.

(** ** The duration parser *)

Section KeepChars.
Variable p : ascii -> bool.
Hypothesis p_lower : forall c, p (Js.lowerChar c) = p c.
Hypothesis p_fixed : forall c, p c = true -> Js.lowerChar c = c.
Hypothesis p_space : forall c, Js.isSpace c = true -> p c = false.

Lemma keepChars_toLowerCase (s : string) :
  Js.keepChars p (Js.toLowerCase s) = Js.keepChars p s.
Proof.
  induction s as [|c r IH]; simpl; [reflexivity|].
  rewrite p_lower. destruct (p c) eqn:Hc; [|exact IH].
  rewrite (p_fixed _ Hc), IH. reflexivity.
Qed.

Lemma keepChars_replaceRunsFrom (b : bool) (s : string) :
  Js.keepChars p (Js.replaceRunsFrom Js.isSpace b s) = Js.keepChars p s.
Proof.
  revert b. induction s as [|c r IH]; intros b; simpl; [reflexivity|].
  destruct (Js.isSpace c) eqn:Hs.
  - rewrite (p_space _ Hs). destruct b; simpl.
    + apply IH.
    + rewrite (p_space " "%char eq_refl). apply IH.
  - simpl. rewrite IH. reflexivity.
Qed.

Lemma keepChars_trimStart (s : string) :
  Js.keepChars p (Js.trimStart s) = Js.keepChars p s.
Proof.
  induction s as [|c r IH]; simpl; [reflexivity|].
  destruct (Js.isSpace c) eqn:Hs; [|reflexivity].
  rewrite (p_space _ Hs). exact IH.
Qed.

Lemma keepChars_trimEnd (s : string) :
  Js.keepChars p (Js.trimEnd s) = Js.keepChars p s.
Proof.
  induction s as [|c r IH]; simpl; [reflexivity|].
  destruct (Js.trimEnd r) as [|c' r'] eqn:Hr.
  - simpl in IH. destruct (Js.isSpace c) eqn:Hs.
    + rewrite (p_space _ Hs). exact IH.
    + simpl. rewrite <- IH. reflexivity.
  - change (Js.keepChars p (String c (String c' r')))
      with (if p c then String c (Js.keepChars p (String c' r'))
            else Js.keepChars p (String c' r')).
    rewrite IH. reflexivity.
Qed.

Lemma keepChars_cleanDuration (s : string) :
  Js.keepChars p (cleanDuration s) = Js.keepChars p s.
Proof.
  unfold cleanDuration, Js.trim, Js.replaceRuns.
  rewrite keepChars_trimEnd, keepChars_trimStart,
    keepChars_replaceRunsFrom, keepChars_toLowerCase.
  reflexivity.
Qed.
End KeepChars.

Lemma testChar_keepChars (s : string) :
  Js.testChar Js.isDigit (Js.keepChars Js.isDigitOrColon s)
  = Js.testChar Js.isDigit s.
Proof.
  induction s as [|c r IH]; simpl; [reflexivity|].
  destruct (Js.isDigitOrColon c) eqn:Hc; simpl.
  - rewrite IH. reflexivity.
  - destruct (Js.isDigit c) eqn:Hd; [|exact IH].
    rewrite (digit_is_digitOrColon _ Hd) in Hc. discriminate.
Qed.

Lemma keepChars_digitOrColon_clean (text : string) :
  Js.keepChars Js.isDigitOrColon (cleanDuration text)
  = Js.keepChars Js.isDigitOrColon text.
Proof.
  apply keepChars_cleanDuration.
  - apply lowerChar_digitOrColon.
  - apply lowerChar_fixes_digitOrColon.
  - apply space_not_digitOrColon.
Qed.

Lemma testChar_digit_clean (text : string) :
  Js.testChar Js.isDigit (cleanDuration text) = Js.testChar Js.isDigit text.
Proof.
  rewrite <- (testChar_keepChars (cleanDuration text)),
    keepChars_digitOrColon_clean.
  apply testChar_keepChars.
Qed.

Lemma allChars_keepChars (p : ascii -> bool) (s : string) :
  allChars p (Js.keepChars p s) = true.
Proof.
  induction s as [|c r IH]; simpl; [reflexivity|].
  destruct (p c) eqn:Hc; simpl; [rewrite Hc|]; exact IH.
Qed.

(** A string of digits and colons splits into segments of digits. *)
Lemma split_segments (s : string) :
  allChars Js.isDigitOrColon s = true ->
  Forall (fun seg => allChars Js.isDigit seg = true) (Js.split isColon s).
Proof.
  induction s as [|c r IH]; simpl; intros H.
  - constructor; [reflexivity|constructor].
  - apply andb_prop in H as [Hc Hr]. specialize (IH Hr).
    destruct (isColon c) eqn:Hcol.
    + constructor; [reflexivity|exact IH].
    + destruct (Js.split isColon r) as [|h t] eqn:Hs.
      * constructor; [|constructor]. simpl.
        rewrite (digitOrColon_cases _ Hc Hcol). reflexivity.
      * inversion IH as [|? ? Hh Ht]; subst. constructor; [|exact Ht].
        simpl. rewrite (digitOrColon_cases _ Hc Hcol). exact Hh.
Qed.

Lemma durationParts_digitStrings (cleaned : string) :
  Forall (fun part => digitString part = true) (durationParts cleaned).
Proof.
  unfold durationParts, Js.filterBoolean.
  pose proof (split_segments _ (allChars_keepChars Js.isDigitOrColon cleaned))
    as H.
  induction H as [|seg l Hseg Hl IH]; simpl; [constructor|].
  destruct (Js.truthy seg) eqn:Ht; [|exact IH].
  constructor; [|exact IH]. unfold digitString. rewrite Ht, Hseg. reflexivity.
Qed.

Lemma takeDigits_all (s : string) :
  allChars Js.isDigit s = true -> Js.takeDigits s = s.
Proof.
  induction s as [|c r IH]; simpl; [reflexivity|].
  intros H. apply andb_prop in H as [Hc Hr]. rewrite Hc, (IH Hr). reflexivity.
Qed.

(** On a non-empty string of digits [parseInt] is the double nearest to
    the number the digits denote. *)
Lemma parseInt_digitString (s : string) :
  digitString s = true -> Js.parseInt s = Js.roundToDouble (segmentValue s).
Proof.
  unfold digitString. destruct s as [|c r]; [discriminate|]. simpl.
  intros H. apply andb_prop in H as [Hc Hr].
  pose proof (takeDigits_all r Hr) as Ht.
  unfold Js.parseInt, segmentValue. simpl Js.trimStart.
  rewrite (digit_not_space _ Hc), (readSign_digit _ _ Hc).
  assert (Js.takeDigits (String c r) = String c r) as Hall
      by (simpl; rewrite Hc, Ht; reflexivity).
  rewrite Hall. reflexivity.
Qed.

Lemma digitsFrom_nonneg (s : string) (acc : Z) :
  allChars Js.isDigit s = true -> (0 <= acc)%Z -> (0 <= Js.digitsFrom acc s)%Z.
Proof.
  revert acc. induction s as [|c r IH]; simpl; intros acc H Hacc; [exact Hacc|].
  apply andb_prop in H as [Hc Hr]. apply IH; [exact Hr|].
  pose proof (digitValue_range _ Hc). lia.
Qed.

Lemma segmentValue_nonneg (s : string) :
  digitString s = true -> (0 <= segmentValue s)%Z.
Proof.
  unfold digitString, segmentValue. intros H. apply andb_prop in H as [_ H].
  apply digitsFrom_nonneg; [exact H|lia].
Qed.

Lemma positional_nonneg (parts : list string) :
  Forall (fun part => digitString part = true) parts ->
  (0 <= positional (List.map segmentValue parts))%Z.
Proof.
  induction 1 as [|part l Hp _ IH]; simpl; [lia|].
  pose proof (segmentValue_nonneg _ Hp). lia.
Qed.

(** *** Doubles *)

Ltac each_branch :=
  repeat match goal with
         | |- context [if ?b then _ else _] => destruct b
         end.

(** An integer of at most 53 bits is a double. *)
Lemma roundToDouble_exact (z : Z) :
  (Z.abs z <= 2 ^ 53)%Z -> Js.roundToDouble z = Js.Finite z.
Proof.
  intros H. unfold Js.roundToDouble. apply Z.leb_le in H. rewrite H.
  reflexivity.
Qed.

Lemma roundToDouble_not_NaN (z : Z) : Js.isNaN (Js.roundToDouble z) = false.
Proof. unfold Js.roundToDouble. each_branch; reflexivity. Qed.

(** Rounding keeps a number that is at least [lo], for [lo] 0 or 1, at
    least [lo], or takes it to [Infinity]. *)
Lemma roundToDouble_lower (lo z : Z) :
  (0 <= lo <= 1)%Z -> (lo <= z)%Z -> atLeast lo (Js.roundToDouble z).
Proof.
  intros Hlo Hz. unfold Js.roundToDouble, atLeast.
  destruct (Z.leb (Z.abs z) (2 ^ 53)) eqn:Hsmall; [right; eauto|].
  apply Z.leb_gt in Hsmall.
  assert (0 < 2 ^ 53)%Z as Hpow by (apply Z.pow_pos_nonneg; lia).
  assert (2 ^ 53 < z)%Z as Hbig by lia.
  rewrite (Z.abs_eq z) by lia.
  assert (53 <= Z.log2 z)%Z as Hlog by (apply Z.log2_le_pow2; lia).
  set (shift := (Z.log2 z - 52)%Z).
  assert (1 <= shift)%Z as Hshift by (unfold shift; lia).
  set (q := Z.shiftr z shift).
  assert (1 <= q)%Z as Hq.
  { unfold q. rewrite Z.shiftr_div_pow2 by lia.
    apply Z.div_le_lower_bound; [apply Z.pow_pos_nonneg; lia|].
    rewrite Z.mul_1_r.
    transitivity (2 ^ Z.log2 z)%Z.
    - apply Z.pow_le_mono_r; unfold shift; lia.
    - apply Z.log2_spec. lia. }
  match goal with
  | |- context [Z.shiftl ?x shift] =>
      match x with
      | q => fail 1
      | _ => set (q' := x)
      end
  end.
  assert (1 <= q')%Z as Hq' by (unfold q'; each_branch; lia).
  assert (1 <= Z.shiftl q' shift)%Z as Hm.
  { rewrite Z.shiftl_mul_pow2 by lia.
    pose proof (Z.pow_pos_nonneg 2 shift ltac:(lia) ltac:(lia)). nia. }
  destruct (Z.leb (2 ^ 1024) (Z.shiftl q' shift)).
  - left. f_equal. apply Z.ltb_ge. lia.
  - right. eexists. split; [reflexivity|].
    rewrite (Z.sgn_pos z) by lia. lia.
Qed.

Lemma atLeast_weaken (v : Js.number) : atLeast 1 v -> atLeast 0 v.
Proof.
  intros [->|(n & -> & Hn)]; [left; reflexivity|right].
  exists n. split; [reflexivity|lia].
Qed.

Lemma atLeast_not_NaN (lo : Z) (v : Js.number) :
  atLeast lo v -> Js.isNaN v = false.
Proof. intros [->|(n & -> & _)]; reflexivity. Qed.

(** The product of a non-negative number and a finite multiplier from 1
    on, and the sum of two non-negative numbers, are non-negative,
    possibly [Infinity], never [NaN]. *)
Lemma mul_nonNegative (a : Js.number) (m : Z) :
  atLeast 0 a -> (1 <= m)%Z -> atLeast 0 (Js.mul a (Js.Finite m)).
Proof.
  intros [->|(x & -> & Hx)] Hm; simpl.
  - destruct (Z.eqb_spec m 0) as [E|_]; [lia|].
    left. f_equal. apply Z.ltb_ge. lia.
  - apply roundToDouble_lower; [lia|nia].
Qed.

Lemma add_nonNegative (a b : Js.number) :
  atLeast 0 a -> atLeast 0 b -> atLeast 0 (Js.add a b).
Proof.
  intros [->|(x & -> & Hx)] [->|(y & -> & Hy)]; simpl;
    try (left; reflexivity).
  apply roundToDouble_lower; lia.
Qed.

(** The multiplier is never zero, negative or [NaN]. *)
Lemma multiplierAt_positive (i : nat) : atLeast 1 (multiplierAt i).
Proof.
  induction i as [|j IH]; simpl.
  - right. exists 1%Z. split; [reflexivity|lia].
  - destruct IH as [->|(m & -> & Hm)]; simpl.
    + left. reflexivity.
    + apply roundToDouble_lower; lia.
Qed.

(** Once the multiplier is infinite it stays so: if it is finite at a
    position, it is finite at every earlier one. *)
Lemma multiplierAt_finite_before (i j : nat) (m : Z) :
  j <= i -> multiplierAt i = Js.Finite m ->
  exists m', multiplierAt j = Js.Finite m'.
Proof.
  intros Hle. induction Hle as [|i Hle IH] in m |- *; [eauto|].
  simpl. destruct (multiplierAt i) as [x|negative|] eqn:E.
  - intros _. eapply IH. reflexivity.
  - simpl. discriminate.
  - discriminate.
Qed.

(** Through the 174th part (positions 0 to 173) the multiplier is
    finite; at the 175th it is [Infinity]. *)
Lemma multiplierAt_finite (i : nat) :
  i < 174 -> exists m, multiplierAt i = Js.Finite m /\ (1 <= m)%Z.
Proof.
  intros Hi.
  assert (exists m, multiplierAt 173 = Js.Finite m) as [m173 H173]
      by (vm_compute; eexists; reflexivity).
  destruct (multiplierAt_finite_before 173 i m173 ltac:(lia) H173) as [m Hm].
  exists m. split; [exact Hm|].
  destruct (multiplierAt_positive i) as [E|(n & E & Hn)]; congruence.
Qed.

Lemma multiplierAt_overflow : multiplierAt 174 = Js.Infinity false.
Proof. vm_compute. reflexivity. Qed.

(** While [60^i] has at most 53 bits the multiplier is [60^i]. *)
Lemma multiplierAt_exact (i : nat) :
  (60 ^ Z.of_nat i <= 2 ^ 53)%Z -> multiplierAt i = Js.Finite (60 ^ Z.of_nat i).
Proof.
  induction i as [|j IH]; [reflexivity|].
  rewrite Nat2Z.inj_succ, Z.pow_succ_r by lia. intros H.
  assert (0 < 60 ^ Z.of_nat j)%Z by (apply Z.pow_pos_nonneg; lia).
  simpl. rewrite IH by lia. simpl.
  rewrite roundToDouble_exact by lia. f_equal. lia.
Qed.

(** *** The loop *)

(** On digit strings the loop never takes the [NaN] exit. *)
Lemma sumParts_total (parts : list string) (seconds multiplier : Js.number) :
  Forall (fun part => digitString part = true) parts ->
  exists result, sumParts parts seconds multiplier = Some result.
Proof.
  intros H. revert seconds multiplier.
  induction H as [|part l Hp _ IH]; intros seconds multiplier; simpl; [eauto|].
  rewrite (parseInt_digitString _ Hp), roundToDouble_not_NaN. apply IH.
Qed.

(** With every multiplier finite the result is a non-negative integer
    or [Infinity]. *)
Lemma sumParts_nonNegative (parts : list string) (i : nat)
  (seconds : Js.number) :
  Forall (fun part => digitString part = true) parts ->
  i + length parts <= 174 ->
  atLeast 0 seconds ->
  exists result, sumParts parts seconds (multiplierAt i) = Some result
                 /\ atLeast 0 result.
Proof.
  intros H. revert i seconds.
  induction H as [|part l Hp _ IH]; intros i seconds Hlen Hs; simpl; [eauto|].
  simpl in Hlen.
  rewrite (parseInt_digitString _ Hp), roundToDouble_not_NaN.
  destruct (multiplierAt_finite i ltac:(lia)) as (m & Hm & Hm1).
  change (Js.mul (multiplierAt i) (Js.Finite 60)) with (multiplierAt (S i)).
  apply IH; [lia|]. rewrite Hm.
  apply add_nonNegative; [exact Hs|].
  apply mul_nonNegative; [|exact Hm1].
  apply roundToDouble_lower; [lia|apply segmentValue_nonneg, Hp].
Qed.

(** While the sum has at most 53 bits and every multiplier is finite,
    the loop computes the exact positional sum. *)
Lemma sumParts_exact (parts : list string) (i : nat) (seconds : Z) :
  Forall (fun part => digitString part = true) parts ->
  i + length parts <= 174 ->
  (0 <= seconds)%Z ->
  (seconds + 60 ^ Z.of_nat i * positional (List.map segmentValue parts)
   <= 2 ^ 53)%Z ->
  sumParts parts (Js.Finite seconds) (multiplierAt i)
  = Some (Js.Finite
            (seconds
             + 60 ^ Z.of_nat i * positional (List.map segmentValue parts))%Z).
Proof.
  intros H. revert i seconds.
  induction H as [|part l Hp Hl IH]; intros i seconds Hlen Hs Hsum; simpl.
  - do 2 f_equal. lia.
  - simpl in Hlen, Hsum.
    pose proof (segmentValue_nonneg _ Hp) as Hv.
    pose proof (positional_nonneg _ Hl) as Hrest.
    set (v := segmentValue part) in *.
    set (rest := positional (List.map segmentValue l)) in *.
    assert (0 < 60 ^ Z.of_nat i)%Z as Hpow by (apply Z.pow_pos_nonneg; lia).
    set (x := (60 ^ Z.of_nat i)%Z) in *.
    assert (v * x <= 2 ^ 53 - seconds)%Z as Hvx by nia.
    assert (v <= v * x)%Z as Hvle by nia.
    rewrite (parseInt_digitString _ Hp). fold v.
    rewrite (roundToDouble_exact v) by lia. simpl Js.isNaN. cbv iota.
    change (Js.mul (multiplierAt i) (Js.Finite 60)) with (multiplierAt (S i)).
    assert (Js.mul (Js.Finite v) (multiplierAt i) = Js.Finite (v * x)) as Hmul.
    { destruct (Z.eq_dec v 0%Z) as [E|Hv0].
      - destruct (multiplierAt_finite i ltac:(lia)) as (m & Hm & _).
        rewrite Hm, E. reflexivity.
      - rewrite (multiplierAt_exact i) by (fold x; nia). fold x. simpl.
        apply roundToDouble_exact. lia. }
    rewrite Hmul. simpl Js.add.
    rewrite roundToDouble_exact by lia.
    rewrite IH.
    + do 2 f_equal. rewrite Nat2Z.inj_succ, Z.pow_succ_r by lia. fold x. lia.
    + lia.
    + nia.
    + rewrite Nat2Z.inj_succ, Z.pow_succ_r by lia. fold x. lia.
Qed.

Lemma digit_gives_part (s : string) :
  Js.testChar Js.isDigit s = true ->
  Js.filterBoolean (Js.split isColon s) <> [].
Proof.
  induction s as [|c r IH]; simpl; [discriminate|].
  intros H. destruct (isColon c) eqn:Hcol.
  - rewrite (colon_not_digit _ Hcol) in H. simpl in H. simpl. exact (IH H).
  - destruct (Js.split isColon r); simpl; discriminate.
Qed.

(** Cleaning the text does not change its parts. *)
Lemma durationParts_clean (text : string) :
  durationParts (cleanDuration text) = durationParts text.
Proof. unfold durationParts. rewrite keepChars_digitOrColon_clean. reflexivity. Qed.

Lemma durationToSeconds_no_digit (text : string) :
  Js.testChar Js.isDigit text = false -> durationToSeconds text = None.
Proof.
  intros Hd. unfold durationToSeconds.
  destruct text as [|c r]; [reflexivity|].
  set (text := String c r) in *. simpl Js.isEmpty. cbv iota.
  rewrite testChar_digit_clean, Hd. reflexivity.
Qed.

(** For a text with a digit there is a part, and the result is that of
    the loop run on the parts. *)
Lemma durationToSeconds_loop (text : string) :
  Js.testChar Js.isDigit text = true ->
  durationParts text <> []
  /\ durationToSeconds text
     = sumParts (List.rev (durationParts text)) (Js.Finite 0) (Js.Finite 1).
Proof.
  intros Hd.
  assert (durationParts text <> []) as Hne.
  { unfold durationParts. apply digit_gives_part.
    rewrite testChar_keepChars. exact Hd. }
  split; [exact Hne|].
  unfold durationToSeconds.
  destruct text as [|c r]; [discriminate|].
  set (text := String c r) in *. simpl Js.isEmpty. cbv iota.
  rewrite testChar_digit_clean, Hd. simpl negb. cbv iota zeta.
  rewrite durationParts_clean.
  destruct (durationParts text); [congruence|reflexivity].
Qed.

(** The contract with the empty segments dropped is null exactly on
    the texts without a digit, and its sum runs over the parts. *)
Lemma parseDuration_nonEmptySegments_parts (text : string) :
  parseDuration_nonEmptySegments text
  = if Js.testChar Js.isDigit text
    then Some (positional
                 (List.rev (List.map segmentValue (durationParts text))))
    else None.
Proof.
  unfold parseDuration_nonEmptySegments, durationParts.
  destruct (Js.testChar Js.isDigit text); reflexivity.
Qed.

Lemma durationToSeconds_exact (text : string) :
  Js.testChar Js.isDigit text = true ->
  length (durationParts text) <= 174 ->
  (positional (List.rev (List.map segmentValue (durationParts text)))
   <= 2 ^ 53)%Z ->
  durationToSeconds text
  = Some (Js.Finite
            (positional
               (List.rev (List.map segmentValue (durationParts text))))).
Proof.
  intros Hd Hlen Hsum.
  destruct (durationToSeconds_loop text Hd) as [_ ->].
  rewrite <- map_rev in *.
  change (Js.Finite 1) with (multiplierAt 0).
  rewrite sumParts_exact.
  - do 2 f_equal. change (60 ^ Z.of_nat 0)%Z with 1%Z. lia.
  - apply Forall_rev, durationParts_digitStrings.
  - rewrite length_rev. exact Hlen.
  - lia.
  - change (60 ^ Z.of_nat 0)%Z with 1%Z. lia.
Qed.

(** C2, as stated, fails.  With every segment of the split given a
    position, the text ["5:"] would denote five minutes (300), and
    ["1::30"] an hour and thirty seconds; [durationToSeconds] drops the
    empty segments first and returns 5 and 90.  And the segments are
    not summed without bound: the sum is computed in doubles, so
    ["9007199254740993"] (2^53 + 1) gives 2^53, and 175 segments [0]
    give [NaN] (the multiplier has become [Infinity]). *)
Lemma durationToSeconds_contract_fails :
  durationToSeconds "5:" = Some (Js.Finite 5)
  /\ parseDuration_allSegments "5:" = Some 300%Z
  /\ durationToSeconds "1::30" = Some (Js.Finite 90)
  /\ parseDuration_allSegments "1::30" = Some 3630%Z
  /\ durationToSeconds "9007199254740993" = Some (Js.Finite 9007199254740992)
  /\ parseDuration_nonEmptySegments "9007199254740993"
     = Some 9007199254740993%Z
  /\ durationToSeconds (zeroSegments 175) = Some Js.NaN
  /\ parseDuration_nonEmptySegments (zeroSegments 175) = Some 0%Z
  /\ ~ (forall text,
          durationToSeconds text
          = option_map Js.Finite (parseDuration_allSegments text))
  /\ ~ (forall text,
          durationToSeconds text
          = option_map Js.Finite (parseDuration_nonEmptySegments text)).
Proof.
  do 8 (split; [vm_compute; reflexivity|]). split.
  - intros H. specialize (H "5:"). vm_compute in H. discriminate H.
  - intros H. specialize (H "9007199254740993"). vm_compute in H.
    discriminate H.
Qed.

(** C2, amended: [durationToSeconds] returns null exactly when the text
    has no digit; otherwise it strips every character except digits and
    colons, splits on colon, drops the empty segments and sums the
    remaining ones right to left with multipliers 1, 60, 3600, ..., in
    doubles: the result is the exact sum whenever the text has at most
    174 segments and the sum is at most 2^53.  ["1:02:03"] gives 3723,
    ["2:30"] 150, ["abc"] and [""] null. *)
Theorem durationToSeconds_nonEmptySegments :
  (forall text,
     durationToSeconds text = None
     <-> parseDuration_nonEmptySegments text = None)
  /\ (forall text total,
        parseDuration_nonEmptySegments text = Some total ->
        length (durationParts (cleanDuration text)) <= 174 ->
        (total <= 2 ^ 53)%Z ->
        durationToSeconds text = Some (Js.Finite total))
  /\ durationToSeconds "1:02:03" = Some (Js.Finite 3723)
  /\ durationToSeconds "2:30" = Some (Js.Finite 150)
  /\ durationToSeconds "abc" = None
  /\ durationToSeconds "" = None.
Proof.
  split; [|split; [|repeat split; vm_compute; reflexivity]].
  - intros text. rewrite parseDuration_nonEmptySegments_parts.
    destruct (Js.testChar Js.isDigit text) eqn:Hd.
    + destruct (durationToSeconds_loop text Hd) as [_ ->].
      destruct (sumParts_total (List.rev (durationParts text))
                  (Js.Finite 0) (Js.Finite 1)) as [result ->].
      * apply Forall_rev, durationParts_digitStrings.
      * split; discriminate.
    + rewrite (durationToSeconds_no_digit _ Hd). split; reflexivity.
  - intros text total. rewrite parseDuration_nonEmptySegments_parts.
    rewrite durationParts_clean.
    destruct (Js.testChar Js.isDigit text) eqn:Hd; [|discriminate].
    intros [= <-] Hlen Hsum. apply durationToSeconds_exact; assumption.
Qed.

(** C9, as stated, fails: the result is not always a non-negative
    integer.  The text of 175 segments [0] has a digit and gives
    [NaN]: the multiplier is [Infinity] when the loop reaches the 175th
    part, and [0 * Infinity] is [NaN].  A text of 400 digits [9] gives
    [Infinity]. *)
Lemma durationToSeconds_not_an_integer :
  Js.testChar Js.isDigit (zeroSegments 175) = true
  /\ length (durationParts (cleanDuration (zeroSegments 175))) = 175
  /\ durationToSeconds (zeroSegments 175) = Some Js.NaN
  /\ Js.testChar Js.isDigit (repeatChar "9" 400) = true
  /\ durationToSeconds (repeatChar "9" 400) = Some (Js.Infinity false)
  /\ ~ (forall text,
          Js.testChar Js.isDigit text = true ->
          exists n, durationToSeconds text = Some (Js.Finite n)).
Proof.
  do 5 (split; [vm_compute; reflexivity|]).
  intros H. destruct (H (zeroSegments 175) eq_refl) as [n Hn].
  vm_compute in Hn. discriminate Hn.
Qed.

(** C9, amended: for a text with at least one digit [durationToSeconds]
    returns a number, never null: every part handed to [parseInt] is a
    non-empty digit string, on which [parseInt] is not [NaN], so the
    [NaN] exit of the loop is never taken.  With at most 174 parts the
    number is a non-negative integer or [Infinity], and it is the
    non-negative integer the parts denote when that is at most 2^53. *)
Theorem durationToSeconds_digit_total (text : string) :
  Js.testChar Js.isDigit text = true ->
  let parts := durationParts (cleanDuration text) in
  let total := positional (List.rev (List.map segmentValue parts)) in
  parts <> []
  /\ Forall (fun part => digitString part = true
                         /\ Js.isNaN (Js.parseInt part) = false) parts
  /\ (exists seconds, durationToSeconds text = Some seconds)
  /\ (length parts <= 174 ->
      exists seconds, durationToSeconds text = Some seconds
                      /\ atLeast 0 seconds)
  /\ (length parts <= 174 -> (total <= 2 ^ 53)%Z ->
      durationToSeconds text = Some (Js.Finite total) /\ (0 <= total)%Z).
Proof.
  intros Hd parts total. subst parts total. rewrite durationParts_clean.
  destruct (durationToSeconds_loop text Hd) as [Hne Hloop].
  pose proof (durationParts_digitStrings text) as Hparts.
  split; [exact Hne|]. split; [|split; [|split]].
  - eapply List.Forall_impl; [|exact Hparts].
    intros part Hp. split; [exact Hp|].
    rewrite (parseInt_digitString _ Hp). apply roundToDouble_not_NaN.
  - rewrite Hloop. apply sumParts_total, Forall_rev, Hparts.
  - intros Hlen. rewrite Hloop. change (Js.Finite 1) with (multiplierAt 0).
    apply sumParts_nonNegative.
    + apply Forall_rev, Hparts.
    + rewrite length_rev. exact Hlen.
    + right. exists 0%Z. split; [reflexivity|lia].
  - intros Hlen Hsum. split; [apply durationToSeconds_exact; assumption|].
    rewrite <- map_rev. apply positional_nonneg, Forall_rev, Hparts.
Qed.

(** The text ["12:34 min"] has a digit and two parts. *)
Lemma durationToSeconds_digit_total_witness :
  Js.testChar Js.isDigit "12:34 min" = true
  /\ durationParts (cleanDuration "12:34 min") = ["12"; "34"]
  /\ durationToSeconds "12:34 min" = Some (Js.Finite 754).
Proof.
  split; [reflexivity|]. split; [reflexivity|].
  destruct (durationToSeconds_digit_total "12:34 min" eq_refl)
    as (_ & _ & _ & _ & H).
  apply H.
  - vm_compute. lia.
  - apply Z.leb_le. vm_compute. reflexivity.
Defined.

(** ** The classifier *)


(** C5: for an item of unknown duration both duration predicates are
    false; so when the cascade reaches the moderate rule for it (its
    text holds a moderate token and the two rules before found neither
    a strong nor a negative one), it is a match with reason [moderate];
    and neither the duration veto nor rule 4 ([duration+channel]) can
    decide it. *)
Theorem unknown_duration_rules (settings : Settings) (matchers : Matchers)
  (data : VideoData) :
  durationSeconds data = None ->
  durationInMusicRange (durationSeconds data) = false
  /\ durationStronglyContradicts (durationSeconds data) = false
  /\ (containsAny (combinedText data) (strong matchers) = false ->
      containsAny (combinedText data) (non matchers) = false ->
      containsAny (combinedText data) (moderate matchers) = true ->
      classifyVideo settings matchers data
      = {| Result.isMusic := true; Result.reason := "moderate" |})
  /\ Result.reason (classifyVideo settings matchers data) <> "duration+channel"
  /\ Result.reason (classifyVideo settings matchers data) <> "moderate+duration".
Proof.
  intros Hnull. unfold classifyVideo. rewrite Hnull. simpl.
  repeat split.
  - intros -> -> ->. reflexivity.
  - repeat (destruct (containsAny _ _); try discriminate).
  - repeat (destruct (containsAny _ _); try discriminate).
Qed.

(** A tile titled ["Chill Music Mix"] whose duration text, ["soon"],
    does not parse: the moderate rule decides it. *)
Lemma unknown_duration_rules_witness :
  let s := settingsWith [] ["music"] ["live"] ["records"] "show" in
  let d := extractVideoData
             (fieldsOf "Chill Music Mix" "Some Records" "soon" None) in
  durationSeconds d = None
  /\ classifyVideo s (buildMatchers s) d
     = {| Result.isMusic := true; Result.reason := "moderate" |}.
Proof.
  split; [reflexivity|].
  apply (unknown_duration_rules
           (settingsWith [] ["music"] ["live"] ["records"] "show")
           (buildMatchers (settingsWith [] ["music"] ["live"] ["records"] "show"))
           (extractVideoData
              (fieldsOf "Chill Music Mix" "Some Records" "soon" None))
           eq_refl); reflexivity.
Defined.

(** ** The Map behind the cache *)

Lemma mapGet_mapSet_eq (key : string) (value : Entry.t) (m : CacheMap) :
  mapGet key (mapSet key value m) = Some value.
Proof.
  induction m as [|[k e] rest IH]; simpl.
  - rewrite String.eqb_refl. reflexivity.
  - destruct (String.eqb k key) eqn:Hk; simpl; rewrite Hk; [reflexivity|exact IH].
Qed.

Lemma mapGet_mapSet_ne (key key' : string) (value : Entry.t) (m : CacheMap) :
  key <> key' -> mapGet key' (mapSet key value m) = mapGet key' m.
Proof.
  intros Hne. induction m as [|[k e] rest IH]; simpl.
  - apply String.eqb_neq in Hne. rewrite Hne. reflexivity.
  - destruct (String.eqb k key) eqn:Hk; simpl.
    + apply String.eqb_eq in Hk. subst k.
      apply String.eqb_neq in Hne. rewrite Hne. reflexivity.
    + rewrite IH. reflexivity.
Qed.

Lemma mapGet_mapDelete_eq (key : string) (m : CacheMap) :
  mapGet key (mapDelete key m) = None.
Proof.
  induction m as [|[k e] rest IH]; simpl; [reflexivity|].
  destruct (String.eqb k key) eqn:Hk; simpl; [exact IH|].
  rewrite Hk. exact IH.
Qed.

Lemma mapGet_mapDelete_ne (key key' : string) (m : CacheMap) :
  key <> key' -> mapGet key' (mapDelete key m) = mapGet key' m.
Proof.
  intros Hne. induction m as [|[k e] rest IH]; simpl; [reflexivity|].
  destruct (String.eqb k key) eqn:Hk; simpl.
  - apply String.eqb_eq in Hk. subst k.
    apply String.eqb_neq in Hne. rewrite Hne. exact IH.
  - rewrite IH. reflexivity.
Qed.

Lemma mapSet_absent (key : string) (value : Entry.t) (m : CacheMap) :
  mapGet key m = None -> mapSet key value m = m ++ [(key, value)].
Proof.
  induction m as [|[k e] rest IH]; simpl; [reflexivity|].
  destruct (String.eqb k key); [discriminate|].
  intros H. rewrite (IH H). reflexivity.
Qed.

Lemma mapSet_present_length (key : string) (value e : Entry.t) (m : CacheMap) :
  mapGet key m = Some e -> length (mapSet key value m) = length m.
Proof.
  induction m as [|[k e'] rest IH]; simpl; [discriminate|].
  destruct (String.eqb k key); simpl; [reflexivity|].
  intros H. rewrite (IH H). reflexivity.
Qed.

Lemma mapSet_length_le (key : string) (value : Entry.t) (m : CacheMap) :
  length (mapSet key value m) <= S (length m).
Proof.
  induction m as [|[k e] rest IH]; simpl; [lia|].
  destruct (String.eqb k key); simpl; lia.
Qed.

Lemma mapDelete_length_le (key : string) (m : CacheMap) :
  length (mapDelete key m) <= length m.
Proof.
  induction m as [|[k e] rest IH]; simpl; [lia|].
  destruct (String.eqb k key); simpl; lia.
Qed.

Lemma mapDelete_present_length (key : string) (e : Entry.t) (m : CacheMap) :
  mapGet key m = Some e -> S (length (mapDelete key m)) <= length m.
Proof.
  induction m as [|[k e'] rest IH]; simpl; [discriminate|].
  destruct (String.eqb k key); simpl.
  - intros _. pose proof (mapDelete_length_le key rest). lia.
  - intros H. specialize (IH H). lia.
Qed.

Lemma mapDelete_absent (key : string) (m : CacheMap) :
  mapGet key m = None -> mapDelete key m = m.
Proof.
  induction m as [|[k e] rest IH]; simpl; [reflexivity|].
  destruct (String.eqb k key); simpl; [discriminate|].
  intros H. rewrite (IH H). reflexivity.
Qed.

Lemma mapGet_In (key : string) (m : CacheMap) :
  mapGet key m = None <-> ~ In key (mapKeys m).
Proof.
  induction m as [|[k e] rest IH]; simpl; [tauto|].
  destruct (String.eqb k key) eqn:Hk.
  - apply String.eqb_eq in Hk. split; [discriminate|]. intros H. elim H. auto.
  - apply String.eqb_neq in Hk. rewrite IH. tauto.
Qed.

Lemma mapKeys_mapSet_absent (key : string) (value : Entry.t) (m : CacheMap) :
  mapGet key m = None -> mapKeys (mapSet key value m) = mapKeys m ++ [key].
Proof.
  intros H. rewrite (mapSet_absent _ _ _ H). unfold mapKeys.
  rewrite List.map_app. reflexivity.
Qed.

Lemma mapKeys_mapSet_present (key : string) (value e : Entry.t) (m : CacheMap) :
  mapGet key m = Some e -> mapKeys (mapSet key value m) = mapKeys m.
Proof.
  induction m as [|[k e'] rest IH]; simpl; [discriminate|].
  destruct (String.eqb k key); simpl; [reflexivity|].
  intros H. rewrite (IH H). reflexivity.
Qed.

Lemma mapKeys_mapDelete (key : string) (m : CacheMap) :
  mapKeys (mapDelete key m)
  = List.filter (fun k => negb (String.eqb k key)) (mapKeys m).
Proof.
  induction m as [|[k e] rest IH]; simpl; [reflexivity|].
  destruct (String.eqb k key); simpl; rewrite IH; reflexivity.
Qed.

Lemma NoDup_filter_keys (p : string -> bool) (l : list string) :
  List.NoDup l -> List.NoDup (List.filter p l).
Proof.
  induction 1 as [|x l Hx Hl IH]; simpl; [constructor|].
  destruct (p x); [|exact IH].
  constructor; [|exact IH]. rewrite filter_In. tauto.
Qed.

(** With distinct keys, deleting the first key of the Map removes the
    first entry and nothing else. *)
Lemma mapDelete_head (k : string) (e : Entry.t) (rest : CacheMap) :
  List.NoDup (mapKeys ((k, e) :: rest)) -> mapDelete k ((k, e) :: rest) = rest.
Proof.
  intros H. inversion H as [|? ? Hk Hrest]; subst.
  unfold mapDelete. simpl. rewrite String.eqb_refl. simpl.
  fold (mapDelete k rest). apply mapDelete_absent, mapGet_In, Hk.
Qed.

(** ** The decision cache *)

Lemma decisionCache_scheduleCacheSave (st : State) :
  decisionCache (scheduleCacheSave st) = decisionCache st.
Proof. unfold scheduleCacheSave. destruct (cacheSaveTimer st); reflexivity. Qed.

(** What [cacheSet] leaves in the Map for a truthy key. *)
Lemma decisionCache_cacheSet (key : string) (isMusic : bool) (st : State) :
  Js.isEmpty key = false ->
  decisionCache (cacheSet key isMusic st)
  = let m1 := mapSet key {| Entry.isMusic := isMusic; Entry.ts := now st |}
                (decisionCache st) in
    if Nat.ltb MAX_CACHE_ENTRIES (length m1)
    then match mapKeys m1 with
         | oldestKey :: _ => mapDelete oldestKey m1
         | [] => m1
         end
    else m1.
Proof.
  intros H. unfold cacheSet. rewrite H.
  rewrite decisionCache_scheduleCacheSave. reflexivity.
Qed.

(** A hit of [cacheGet] answers with the stored payload and re-inserts
    the entry at the most recent end. *)
Lemma cacheGet_hit (key : string) (entry : Entry.t) (st : State) :
  Js.isEmpty key = false ->
  mapGet key (decisionCache st) = Some entry ->
  cacheGet key st
  = (Some (Entry.isMusic entry),
     set_decisionCache
       (mapDelete key (decisionCache st)
        ++ [(key, {| Entry.isMusic := Entry.isMusic entry;
                     Entry.ts := now st |})])
       st).
Proof.
  intros Hk Hget. unfold cacheGet. rewrite Hk, Hget.
  rewrite mapSet_absent by apply mapGet_mapDelete_eq. reflexivity.
Qed.

Lemma cacheGet_miss (key : string) (st : State) :
  Js.isEmpty key = true \/ mapGet key (decisionCache st) = None ->
  cacheGet key st = (None, st).
Proof.
  unfold cacheGet. intros [H|H].
  - rewrite H. reflexivity.
  - destruct (Js.isEmpty key); [reflexivity|]. rewrite H. reflexivity.
Qed.

Lemma cacheGet_null_iff (key : string) (st : State) :
  fst (cacheGet key st) = None
  <-> Js.isEmpty key = true \/ mapGet key (decisionCache st) = None.
Proof.
  split.
  - unfold cacheGet. destruct (Js.isEmpty key); [auto|].
    destruct (mapGet key (decisionCache st)); [discriminate|auto].
  - intros H. rewrite (cacheGet_miss _ _ H). reflexivity.
Qed.

Lemma cacheGet_length (key : string) (st : State) :
  length (decisionCache (snd (cacheGet key st))) <= length (decisionCache st).
Proof.
  unfold cacheGet. destruct (Js.isEmpty key); [simpl; lia|].
  destruct (mapGet key (decisionCache st)) as [entry|] eqn:Hget; [|simpl; lia].
  simpl. pose proof (mapDelete_present_length _ _ _ Hget).
  pose proof (mapSet_length_le key
                {| Entry.isMusic := Entry.isMusic entry; Entry.ts := now st |}
                (mapDelete key (decisionCache st))).
  lia.
Qed.

Lemma mapKeys_head_present (m : CacheMap) (k : string) (ks : list string) :
  mapKeys m = k :: ks -> exists e, mapGet k m = Some e.
Proof.
  destruct m as [|[k' e] rest]; simpl; [discriminate|].
  intros H. inversion H; subst. rewrite String.eqb_refl. eauto.
Qed.

(** [cacheSet] never leaves more than [MAX_CACHE_ENTRIES] entries in a
    cache that was within the bound. *)
Lemma cacheSet_length (key : string) (isMusic : bool) (st : State) :
  length (decisionCache st) <= MAX_CACHE_ENTRIES ->
  length (decisionCache (cacheSet key isMusic st)) <= MAX_CACHE_ENTRIES.
Proof.
  intros Hb. destruct (Js.isEmpty key) eqn:Hk.
  - unfold cacheSet. rewrite Hk. exact Hb.
  - rewrite decisionCache_cacheSet by exact Hk. cbv zeta.
    set (m1 := mapSet _ _ _).
    pose proof (mapSet_length_le key
                  {| Entry.isMusic := isMusic; Entry.ts := now st |}
                  (decisionCache st)) as Hle.
    fold m1 in Hle.
    destruct (Nat.ltb MAX_CACHE_ENTRIES (length m1)) eqn:Hlt.
    + destruct (mapKeys m1) as [|k0 ks] eqn:Hkeys.
      * destruct m1; [simpl in *; lia|discriminate].
      * destruct (mapKeys_head_present _ _ _ Hkeys) as [e He].
        pose proof (mapDelete_present_length _ _ _ He). lia.
    + apply Nat.ltb_ge in Hlt. exact Hlt.
Qed.

Lemma mapKeys_NoDup_cacheGet (key : string) (st : State) :
  List.NoDup (mapKeys (decisionCache st)) ->
  List.NoDup (mapKeys (decisionCache (snd (cacheGet key st)))).
Proof.
  intros Hnd. unfold cacheGet. destruct (Js.isEmpty key); [exact Hnd|].
  destruct (mapGet key (decisionCache st)) as [entry|] eqn:Hget; [|exact Hnd].
  simpl. rewrite mapKeys_mapSet_absent by apply mapGet_mapDelete_eq.
  rewrite mapKeys_mapDelete. apply List.NoDup_app.
  - apply NoDup_filter_keys, Hnd.
  - constructor; [intros []|constructor].
  - intros x Hx [Hy|[]]. subst x. apply filter_In in Hx as [_ Hx].
    rewrite String.eqb_refl in Hx. discriminate.
Qed.

Lemma mapKeys_NoDup_mapSet (key : string) (value : Entry.t) (m : CacheMap) :
  List.NoDup (mapKeys m) -> List.NoDup (mapKeys (mapSet key value m)).
Proof.
  intros Hnd. destruct (mapGet key m) as [e|] eqn:Hget.
  - rewrite (mapKeys_mapSet_present _ _ _ _ Hget). exact Hnd.
  - rewrite (mapKeys_mapSet_absent _ _ _ Hget). apply List.NoDup_app.
    + exact Hnd.
    + constructor; [intros []|constructor].
    + intros x Hx [Hy|[]]. subst x. apply mapGet_In in Hget. tauto.
Qed.

Lemma mapKeys_NoDup_cacheSet (key : string) (isMusic : bool) (st : State) :
  List.NoDup (mapKeys (decisionCache st)) ->
  List.NoDup (mapKeys (decisionCache (cacheSet key isMusic st))).
Proof.
  intros Hnd. destruct (Js.isEmpty key) eqn:Hk.
  - unfold cacheSet. rewrite Hk. exact Hnd.
  - rewrite decisionCache_cacheSet by exact Hk. cbv zeta.
    set (m1 := mapSet _ _ _).
    assert (List.NoDup (mapKeys m1)) as H1 by apply mapKeys_NoDup_mapSet, Hnd.
    destruct (Nat.ltb MAX_CACHE_ENTRIES (length m1)); [|exact H1].
    destruct (mapKeys m1) as [|k0 ks] eqn:Hkeys.
    + rewrite Hkeys. constructor.
    + rewrite mapKeys_mapDelete, Hkeys. apply NoDup_filter_keys. exact H1.
Qed.

(** Every get and every put leaves a cache that was within the bound
    within the bound, with distinct keys: so does every sequence of
    gets and puts from the empty cache. *)
Lemma get_put_keep_bound (ops : list CacheOp) (st : State) :
  List.NoDup (mapKeys (decisionCache st)) ->
  length (decisionCache st) <= MAX_CACHE_ENTRIES ->
  List.NoDup (mapKeys (decisionCache (fold_left applyOp ops st)))
  /\ length (decisionCache (fold_left applyOp ops st)) <= MAX_CACHE_ENTRIES.
Proof.
  revert st. induction ops as [|op ops IH]; intros st Hnd Hb; [split; assumption|].
  simpl. apply IH; destruct op as [key|key isMusic]; simpl.
  - apply mapKeys_NoDup_cacheGet, Hnd.
  - apply mapKeys_NoDup_cacheSet, Hnd.
  - pose proof (cacheGet_length key st). lia.
  - apply cacheSet_length, Hb.
Qed.

(** A put of a new key into a cache that holds exactly
    [MAX_CACHE_ENTRIES] entries evicts one entry, the first of the Map,
    and appends the new one. *)
Lemma cacheSet_evicts_oldest (key : string) (isMusic : bool) (st : State) :
  Js.isEmpty key = false ->
  List.NoDup (mapKeys (decisionCache st)) ->
  mapGet key (decisionCache st) = None ->
  length (decisionCache st) = MAX_CACHE_ENTRIES ->
  decisionCache (cacheSet key isMusic st)
  = tl (decisionCache st)
    ++ [(key, {| Entry.isMusic := isMusic; Entry.ts := now st |})].
Proof.
  intros Hk Hnd Habs Hlen. rewrite decisionCache_cacheSet by exact Hk.
  cbv zeta. rewrite (mapSet_absent _ _ _ Habs).
  rewrite length_app, Hlen. simpl length.
  replace (Nat.ltb MAX_CACHE_ENTRIES (MAX_CACHE_ENTRIES + 1)) with true
    by (symmetry; apply Nat.ltb_lt; lia).
  destruct (decisionCache st) as [|[k0 e0] rest] eqn:Hc.
  - discriminate Hlen.
  - cbn [mapKeys List.map fst app tl].
    change ((k0, e0) :: rest ++ [(key, {| Entry.isMusic := isMusic; Entry.ts := now st |})])
      with ((k0, e0) :: (rest ++ [(key, {| Entry.isMusic := isMusic; Entry.ts := now st |})])).
    apply mapDelete_head.
    change (List.NoDup (mapKeys (((k0, e0) :: rest)
              ++ [(key, {| Entry.isMusic := isMusic; Entry.ts := now st |})]))).
    rewrite <- (mapSet_absent _ _ _ Habs). apply mapKeys_NoDup_mapSet, Hnd.
Qed.

(** A put that finds room, or overwrites, evicts nothing. *)
Lemma cacheSet_no_eviction (key : string) (isMusic : bool) (st : State) :
  Js.isEmpty key = false ->
  length (mapSet key {| Entry.isMusic := isMusic; Entry.ts := now st |}
            (decisionCache st)) <= MAX_CACHE_ENTRIES ->
  decisionCache (cacheSet key isMusic st)
  = mapSet key {| Entry.isMusic := isMusic; Entry.ts := now st |}
      (decisionCache st).
Proof.
  intros Hk Hlen. rewrite decisionCache_cacheSet by exact Hk. cbv zeta.
  apply Nat.ltb_ge in Hlen. rewrite Hlen. reflexivity.
Qed.

Lemma MAX_CACHE_ENTRIES_positive : 0 < MAX_CACHE_ENTRIES.
Proof. unfold MAX_CACHE_ENTRIES. lia. Qed.







Lemma tl_skipn (A : Type) (j : nat) (l : list A) :
  tl (skipn j l) = skipn (S j) l.
Proof.
  revert l. induction j as [|j IH]; intros [|x l]; try reflexivity.
  exact (IH l).
Qed.

Lemma NoDup_skipn (j : nat) (l : list string) :
  List.NoDup l -> List.NoDup (skipn j l).
Proof.
  revert l. induction j as [|j IH]; intros l H; [exact H|].
  destruct l as [|x l]; [exact H|]. inversion H; subst. apply IH. assumption.
Qed.

Lemma In_skipn (x : string) (j : nat) (l : list string) :
  In x (skipn j l) -> In x l.
Proof.
  revert l. induction j as [|j IH]; intros l H; [exact H|].
  destruct l as [|y l]; [exact H|]. right. apply IH, H.
Qed.

Lemma putAll_app (ks : list string) (k : string) (isMusic : bool) (st : State) :
  putAll (ks ++ [k]) isMusic st = cacheSet k isMusic (putAll ks isMusic st).
Proof. unfold putAll. rewrite fold_left_app. reflexivity. Qed.

(** Puts of distinct, non-empty keys into an empty cache keep the last
    [MAX_CACHE_ENTRIES] keys, in the order they were put. *)
Lemma putAll_keeps_latest (ks : list string) (isMusic : bool) (st : State) :
  decisionCache st = [] ->
  List.NoDup ks ->
  Forall (fun k => Js.isEmpty k = false) ks ->
  mapKeys (decisionCache (putAll ks isMusic st))
  = skipn (length ks - MAX_CACHE_ENTRIES) ks.
Proof.
  intros Hempty. induction ks as [|k ks IH] using rev_ind; intros Hnd Hks.
  - simpl. rewrite Hempty. reflexivity.
  - apply List.NoDup_remove in Hnd as [Hnd Hk]. rewrite app_nil_r in Hnd, Hk.
    apply Forall_app in Hks as [Hks Hkk]. inversion Hkk as [|? ? Hke _]; subst.
    specialize (IH Hnd Hks). rewrite putAll_app.
    set (c := putAll ks isMusic st) in *.
    assert (mapGet k (decisionCache c) = None) as Habs.
    { apply mapGet_In. rewrite IH. intros Hin. apply Hk, (In_skipn _ _ _ Hin). }
    assert (List.NoDup (mapKeys (decisionCache c))) as Hndc
        by (rewrite IH; apply NoDup_skipn, Hnd).
    assert (length (decisionCache c) = length ks - (length ks - MAX_CACHE_ENTRIES))
      as Hlen
        by (rewrite <- (length_map fst (decisionCache c)); fold (mapKeys (decisionCache c));
            rewrite IH; apply length_skipn).
    rewrite length_app. simpl length.
    pose proof MAX_CACHE_ENTRIES_positive as Hpos.
    destruct (Nat.lt_ge_cases (length ks) MAX_CACHE_ENTRIES) as [Hlt|Hge].
    + rewrite cacheSet_no_eviction.
      * rewrite (mapKeys_mapSet_absent _ _ _ Habs), IH.
        replace (length ks - MAX_CACHE_ENTRIES) with 0 by lia.
        replace (length ks + 1 - MAX_CACHE_ENTRIES) with 0 by lia.
        reflexivity.
      * exact Hke.
      * rewrite (mapSet_absent _ _ _ Habs), length_app. simpl length. lia.
    + rewrite cacheSet_evicts_oldest; [|exact Hke|exact Hndc|exact Habs|lia].
      unfold mapKeys. rewrite List.map_app. fold (mapKeys (tl (decisionCache c))).
      replace (mapKeys (tl (decisionCache c))) with (tl (mapKeys (decisionCache c)))
        by (destruct (decisionCache c); reflexivity).
      rewrite IH, tl_skipn, skipn_app.
      replace (length ks + 1 - MAX_CACHE_ENTRIES)
        with (S (length ks - MAX_CACHE_ENTRIES)) by lia.
      replace (S (length ks - MAX_CACHE_ENTRIES) - length ks) with 0 by lia.
      reflexivity.
Qed.

(** Inserting [MAX_CACHE_ENTRIES + 1] distinct non-empty keys into an
    empty cache leaves exactly [MAX_CACHE_ENTRIES] entries: all keys but
    the first one put. *)
Lemma putAll_overflow (ks : list string) (isMusic : bool) (st : State) :
  decisionCache st = [] ->
  List.NoDup ks ->
  Forall (fun k => Js.isEmpty k = false) ks ->
  length ks = S MAX_CACHE_ENTRIES ->
  mapKeys (decisionCache (putAll ks isMusic st)) = tl ks
  /\ length (decisionCache (putAll ks isMusic st)) = MAX_CACHE_ENTRIES.
Proof.
  intros Hempty Hnd Hks Hlen.
  pose proof (putAll_keeps_latest ks isMusic st Hempty Hnd Hks) as H.
  replace (length ks - MAX_CACHE_ENTRIES) with 1 in H by lia.
  split.
  - rewrite H. destruct ks; reflexivity.
  - rewrite <- (length_map fst). fold (mapKeys (decisionCache (putAll ks isMusic st))).
    rewrite H, length_skipn. lia.
Qed.

Lemma mapGet_app_absent (key : string) (m m' : CacheMap) :
  mapGet key m = None -> mapGet key (m ++ m') = mapGet key m'.
Proof.
  induction m as [|[k e] rest IH]; simpl; [reflexivity|].
  destruct (String.eqb k key); [discriminate|exact IH].
Qed.

(** [loadCache] appends every entry of a snapshot whose keys are
    distinct and not yet in the cache, whatever the size. *)
Lemma loadCache_snapshot (entries : CacheMap) (st : State) :
  List.NoDup (mapKeys entries) ->
  (forall k, In k (mapKeys entries) -> mapGet k (decisionCache st) = None) ->
  decisionCache (loadCache (snapshotOf entries) st)
  = decisionCache st ++ entries.
Proof.
  revert st. induction entries as [|[k e] rest IH]; intros st Hnd Hfresh.
  - simpl. rewrite app_nil_r. reflexivity.
  - inversion Hnd as [|? ? Hk Hrest]; subst.
    change (loadCache (snapshotOf ((k, e) :: rest)) st)
      with (loadCache (snapshotOf rest)
              (set_decisionCache (mapSet k e (decisionCache st)) st)).
    rewrite IH; [|exact Hrest|].
    + simpl. rewrite mapSet_absent by (apply Hfresh; left; reflexivity).
      rewrite <- app_assoc. reflexivity.
    + intros k' Hk'. simpl.
      rewrite mapSet_absent by (apply Hfresh; left; reflexivity).
      rewrite mapGet_app_absent by (apply Hfresh; right; exact Hk').
      simpl. destruct (String.eqb k k') eqn:E; [|reflexivity].
      apply String.eqb_eq in E. subst. contradiction.
Qed.

(** Above the bound a put of a new key evicts one entry for the one it
    adds: the cache never comes back under the bound. *)
Lemma cacheSet_over_bound (key : string) (isMusic : bool) (st : State) :
  Js.isEmpty key = false ->
  List.NoDup (mapKeys (decisionCache st)) ->
  mapGet key (decisionCache st) = None ->
  MAX_CACHE_ENTRIES <= length (decisionCache st) ->
  length (decisionCache (cacheSet key isMusic st)) = length (decisionCache st).
Proof.
  intros Hk Hnd Habs Hlen. rewrite decisionCache_cacheSet by exact Hk.
  cbv zeta.
  assert (List.NoDup (mapKeys (mapSet key
            {| Entry.isMusic := isMusic; Entry.ts := now st |}
            (decisionCache st)))) as Hnd1 by apply mapKeys_NoDup_mapSet, Hnd.
  rewrite (mapSet_absent _ _ _ Habs) in *. rewrite length_app. simpl length.
  replace (Nat.ltb MAX_CACHE_ENTRIES (length (decisionCache st) + 1)) with true
    by (symmetry; apply Nat.ltb_lt; lia).
  pose proof MAX_CACHE_ENTRIES_positive as Hpos.
  destruct (decisionCache st) as [|[k0 e0] rest]; [simpl in Hlen; lia|].
  cbn [mapKeys List.map fst app].
  change ((k0, e0) :: rest ++ [(key, {| Entry.isMusic := isMusic; Entry.ts := now st |})])
    with ((k0, e0) :: (rest ++ [(key, {| Entry.isMusic := isMusic; Entry.ts := now st |})])).
  rewrite mapDelete_head by exact Hnd1.
  rewrite length_app. simpl. lia.
Qed.

Lemma countFrom_length (from : N) (n : nat) : length (countFrom from n) = n.
Proof.
  revert from. induction n as [|n IH]; intros from; simpl; [reflexivity|].
  rewrite IH. reflexivity.
Qed.

Lemma countFrom_ge (from x : N) (n : nat) :
  In x (countFrom from n) -> (from <= x)%N.
Proof.
  revert from. induction n as [|n IH]; intros from; simpl; [tauto|].
  intros [->|H]; [lia|]. specialize (IH _ H). lia.
Qed.

Lemma countFrom_NoDup (from : N) (n : nat) : List.NoDup (countFrom from n).
Proof.
  revert from. induction n as [|n IH]; intros from; simpl; constructor.
  - intros H. apply countFrom_ge in H. lia.
  - apply IH.
Qed.

Lemma sampleKey_inj (a b : N) : sampleKey a = sampleKey b -> a = b.
Proof.
  unfold sampleKey. simpl. intros H. inversion H as [E].
  exact (pretty_N_inj a b E).
Qed.

Arguments fullCache : simpl never.

Lemma fullCache_keys : mapKeys fullCache
  = List.map sampleKey (countFrom 0 MAX_CACHE_ENTRIES).
Proof. unfold fullCache, mapKeys. rewrite List.map_map. reflexivity. Qed.

Lemma fullCache_length : length fullCache = MAX_CACHE_ENTRIES.
Proof. unfold fullCache. rewrite length_map. apply countFrom_length. Qed.

Lemma fullCache_NoDup : List.NoDup (mapKeys fullCache).
Proof.
  rewrite fullCache_keys.
  induction (countFrom_NoDup 0 MAX_CACHE_ENTRIES) as [|n l Hn Hl IH]; simpl;
    constructor; [|exact IH].
  intros H. apply in_map_iff in H as (m & E & Hm).
  apply sampleKey_inj in E. subst m. contradiction.
Qed.

(** No sample key is a title key. *)
Lemma fullCache_no_title (rest : string) :
  mapGet ("title:" +:+ rest) fullCache = None.
Proof.
  apply mapGet_In. rewrite fullCache_keys. intros H.
  apply in_map_iff in H as (n & E & _). discriminate E.
Qed.

(** C3, at the failing input.  A scan decided one item (a tile without
    video id, key [title:early song]) before the storage read of
    [loadCache] resolved; the persisted snapshot holds
    [MAX_CACHE_ENTRIES] other entries.  [loadCache] sets every
    well-formed entry without looking at the size: the cache then holds
    [MAX_CACHE_ENTRIES + 1] entries, and a later put of a new key, which
    evicts one entry per insert, leaves it above the bound. *)
Theorem loadCache_exceeds_bound :
  let early := cacheSet "title:early song" true initialState in
  let loaded := loadCache fullSnapshot early in
  length (decisionCache early) = 1
  /\ length fullSnapshot = MAX_CACHE_ENTRIES
  /\ length (decisionCache loaded) = S MAX_CACHE_ENTRIES
  /\ MAX_CACHE_ENTRIES < length (decisionCache loaded)
  /\ length (decisionCache (cacheSet "title:later song" false loaded))
     = S MAX_CACHE_ENTRIES.
Proof.
  intros early loaded.
  set (first := ("title:early song",
                 {| Entry.isMusic := true; Entry.ts := 0%Z |})).
  assert (decisionCache early = [first]) as Hearly by reflexivity.
  assert (mapGet "title:early song" fullCache = None) as Hfresh
      by apply (fullCache_no_title "early song").
  assert (decisionCache loaded = first :: fullCache) as Hloaded.
  { subst loaded. unfold fullSnapshot. rewrite loadCache_snapshot.
    - rewrite Hearly. reflexivity.
    - apply fullCache_NoDup.
    - intros k Hk. rewrite Hearly. cbn [mapGet first].
      destruct (String.eqb "title:early song" k) eqn:E; [|reflexivity].
      apply String.eqb_eq in E. subst k. apply mapGet_In in Hfresh.
      contradiction. }
  assert (length (decisionCache loaded) = S MAX_CACHE_ENTRIES) as Hlen
      by (rewrite Hloaded; cbn [length]; rewrite fullCache_length; reflexivity).
  split; [rewrite Hearly; reflexivity|].
  split; [unfold fullSnapshot, snapshotOf; rewrite length_map; apply fullCache_length|].
  split; [exact Hlen|]. split; [lia|].
  rewrite cacheSet_over_bound; [exact Hlen|reflexivity| | |lia].
  - rewrite Hloaded. change (mapKeys (first :: fullCache))
      with ("title:early song" :: mapKeys fullCache).
    constructor; [|apply fullCache_NoDup]. apply mapGet_In, Hfresh.
  - rewrite Hloaded. cbn [mapGet first].
    replace (String.eqb "title:early song" "title:later song") with false
      by reflexivity.
    apply (fullCache_no_title "later song").
Qed.



(** ** Steps that leave the scheduler alone *)

Lemma quiet_refl (st : State) : quiet st st.
Proof. repeat split. Qed.

Lemma quiet_trans (st1 st2 st3 : State) :
  quiet st1 st2 -> quiet st2 st3 -> quiet st1 st3.
Proof.
  intros (A1 & B1 & C1) (A2 & B2 & C2). repeat split; congruence.
Qed.

Lemma quiet_fold (A : Type) (f : State -> A -> State) (l : list A) (st : State) :
  (forall s x, quiet s (f s x)) -> quiet st (fold_left f l st).
Proof.
  intros Hf. revert st. induction l as [|x l IH]; intros st; simpl.
  - apply quiet_refl.
  - eapply quiet_trans; [apply Hf|apply IH].
Qed.

Lemma quiet_updateElement (el : nat) (f : Element -> Element) (st : State) :
  quiet st (updateElement el f st).
Proof. repeat split. Qed.

Lemma quiet_updateDataset (el : nat) (f : Dataset -> Dataset) (st : State) :
  quiet st (updateDataset el f st).
Proof. repeat split. Qed.

Lemma quiet_updateDebug (f : DebugState -> DebugState) (st : State) :
  quiet st (updateDebug f st).
Proof. repeat split. Qed.

Lemma quiet_whenDebug (f : State -> State) (st : State) :
  (forall s, quiet s (f s)) -> quiet st (whenDebug f st).
Proof.
  intros Hf. unfold whenDebug. destruct (debugMode (settings st));
    [apply Hf|apply quiet_refl].
Qed.

Lemma pendingScans_setTimeout (task : TimerTask) (delay : Z) (st : State) :
  pendingScans (snd (setTimeout task delay st))
  = pendingScans st + (if isScanTask {| timerId := nextTimerId st;
                                        timerDelay := delay;
                                        timerTask := task |}
                       then 1 else 0).
Proof.
  unfold pendingScans, setTimeout. simpl. rewrite List.filter_app, length_app.
  simpl. destruct (isScanTask _); reflexivity.
Qed.

Lemma quiet_setTimeout (task : TimerTask) (delay : Z) (st : State) :
  task <> ScanTask -> quiet st (snd (setTimeout task delay st)).
Proof.
  intros Htask. repeat split. rewrite pendingScans_setTimeout.
  unfold isScanTask. simpl. destruct task; [congruence|lia|lia].
Qed.

Lemma quiet_hideElement (el : nat) (st : State) : quiet st (hideElement el st).
Proof.
  unfold hideElement. destruct (showBlocked _).
  - apply quiet_updateElement.
  - eapply quiet_trans; [apply quiet_updateElement|].
    apply quiet_setTimeout. discriminate.
Qed.

Lemma quiet_unhideElement (el : nat) (st : State) :
  quiet st (unhideElement el st).
Proof. repeat split. Qed.

Lemma quiet_applyDecision (el : nat) (isMusic : bool) (st : State) :
  quiet st (applyDecision el isMusic st).
Proof.
  unfold applyDecision. destruct (negb isMusic);
    [apply quiet_hideElement|apply quiet_unhideElement].
Qed.

Lemma quiet_hideCallback (el : nat) (st : State) : quiet st (hideCallback el st).
Proof.
  unfold hideCallback. destruct (elements st !! el); [|apply quiet_refl].
  destruct (_ && _); [apply quiet_updateElement|apply quiet_refl].
Qed.

Lemma quiet_scheduleCacheSave (st : State) : quiet st (scheduleCacheSave st).
Proof.
  unfold scheduleCacheSave. destruct (cacheSaveTimer st); [apply quiet_refl|].
  pose proof (quiet_setTimeout CacheSaveTask 1000 st) as H.
  destruct (setTimeout CacheSaveTask 1000 st) as [id st1]. simpl in H.
  destruct H as (A & B & C); [discriminate|]. repeat split; assumption.
Qed.

Lemma quiet_cacheSaveCallback (st : State) : quiet st (cacheSaveCallback st).
Proof. repeat split. Qed.

Lemma quiet_cacheGet (key : string) (st : State) :
  quiet st (snd (cacheGet key st)).
Proof.
  unfold cacheGet. destruct (Js.isEmpty key); [apply quiet_refl|].
  destruct (mapGet key (decisionCache st)); repeat split.
Qed.

Lemma quiet_cacheSet (key : string) (isMusic : bool) (st : State) :
  quiet st (cacheSet key isMusic st).
Proof.
  unfold cacheSet. destruct (Js.isEmpty key); [apply quiet_refl|].
  eapply quiet_trans; [|apply quiet_scheduleCacheSave]. repeat split.
Qed.

Lemma quiet_loadCache (raw : list (string * StoredValue)) (st : State) :
  quiet st (loadCache raw st).
Proof.
  unfold loadCache. apply quiet_fold. intros s [k v]. simpl.
  destruct v; repeat split.
Qed.

Lemma quiet_classifyCandidate (el : nat) (data : VideoData) (st : State) :
  quiet st (classifyCandidate el data st).
Proof.
  unfold classifyCandidate.
  eapply quiet_trans; [|apply quiet_updateDataset].
  eapply quiet_trans; [|apply quiet_updateDebug].
  match goal with
  | |- quiet _ (if ?b then _ else _) =>
      assert (forall s, quiet s (if b then updateDebug (fun d => set_allowed (S (allowed d)) d) s
                                 else updateDebug (fun d => set_blocked (S (blocked d)) d) s))
        as Hcount by (intros s; destruct b; apply quiet_updateDebug)
  end.
  eapply quiet_trans; [|apply Hcount].
  eapply quiet_trans; [|apply quiet_updateDebug].
  eapply quiet_trans;
    [|apply quiet_whenDebug; intros; apply quiet_updateDataset].
  eapply quiet_trans; [apply quiet_applyDecision|].
  destruct (truthyOpt (cacheKey data)); [apply quiet_cacheSet|apply quiet_refl].
Qed.

Lemma quiet_decideCandidate (el : nat) (data : VideoData) (st : State) :
  quiet st (decideCandidate el data st).
Proof.
  unfold decideCandidate.
  assert (quiet st (snd (if truthyOpt (cacheKey data)
                         then cacheGet (default "" (cacheKey data)) st
                         else (None, st)))) as H
      by (destruct (truthyOpt _); [apply quiet_cacheGet|apply quiet_refl]).
  destruct (if truthyOpt (cacheKey data) then _ else _) as [cached st1].
  simpl in H. destruct cached as [isMusic|].
  - eapply quiet_trans; [exact H|].
    eapply quiet_trans; [|apply quiet_updateDataset].
    eapply quiet_trans; [apply quiet_applyDecision|].
    apply quiet_whenDebug. intros s. repeat split.
  - eapply quiet_trans; [exact H|apply quiet_classifyCandidate].
Qed.

Lemma quiet_rememberKey (page : Page) (el : nat) (data : VideoData) (st : State) :
  quiet st (rememberKey page el data st).
Proof.
  unfold rememberKey.
  destruct (Js.truthy _), (truthyOpt _); repeat split.
Qed.

Lemma quiet_forgetOnWatchChange (page : Page) (el : nat) (element : Element)
  (st : State) :
  quiet st (forgetOnWatchChange page el element st).
Proof. unfold forgetOnWatchChange. destruct (watchChanged _ _); repeat split. Qed.

Lemma quiet_processCandidate (page : Page) (context : string) (el : nat)
  (st : State) :
  quiet st (processCandidate page context el st).
Proof.
  unfold processCandidate.
  destruct (elements st !! el) as [element|]; [|apply quiet_refl].
  destruct (bool_decide _); [apply quiet_refl|].
  destruct (negb (hasData _)).
  - eapply quiet_trans; [apply quiet_updateDataset|].
    apply quiet_whenDebug. intros s. apply quiet_updateDebug.
  - destruct (skipsProcessed _ _ _ _).
    + eapply quiet_trans; [apply quiet_updateDataset|].
      eapply quiet_trans; [apply quiet_forgetOnWatchChange|].
      apply quiet_whenDebug. intros s. apply quiet_updateDebug.
    + eapply quiet_trans; [apply quiet_updateDataset|].
      eapply quiet_trans; [apply quiet_forgetOnWatchChange|].
      eapply quiet_trans; [apply quiet_rememberKey|].
      apply quiet_decideCandidate.
Qed.

Lemma quiet_scanTarget (page : Page) (st : State) (target : Target) :
  quiet st (scanTarget page st target).
Proof.
  unfold scanTarget.
  eapply quiet_trans;
    [apply quiet_whenDebug; intros s; apply quiet_updateDebug|].
  apply quiet_fold. intros s el. apply quiet_processCandidate.
Qed.

Lemma quiet_clearTargets (page : Page) (st : State) :
  quiet st (clearTargets page st).
Proof.
  unfold clearTargets. apply quiet_fold. intros s target.
  apply quiet_fold. intros s' el. repeat split.
Qed.

Lemma quiet_applyShowBlocked (show : bool) (st : State) :
  quiet st (applyShowBlocked show st).
Proof.
  unfold applyShowBlocked. destruct show.
  - eapply quiet_trans; [|apply quiet_fold; intros; apply quiet_updateElement].
    repeat split.
  - eapply quiet_trans; [|apply quiet_fold].
    + repeat split.
    + intros s el. destruct (elements s !! el) as [e|]; [|apply quiet_refl].
      destruct (negb (mvHidden e)); [apply quiet_hideElement|apply quiet_refl].
Qed.

(** [scanNow] moves the epoch by exactly one and leaves the scan timer
    and the pending scans as they were. *)
Lemma scanNow_scheduler (page : Page) (st : State) :
  scanTimer (scanNow page st) = scanTimer st
  /\ scanEpoch (scanNow page st) = S (scanEpoch st)
  /\ pendingScans (scanNow page st) = pendingScans st.
Proof.
  unfold scanNow.
  match goal with
  | |- context [fold_left (scanTarget page) ?l ?s] =>
      assert (quiet s (fold_left (scanTarget page) l s)) as (A & B & C)
          by (apply quiet_fold; intros; apply quiet_scanTarget)
  end.
  rewrite A, B, C. unfold whenDebug, resetDebug.
  destruct (debugMode (settings st)); simpl;
    destruct (debugMode (settings st)); repeat split.
Qed.

(** ** The scan scheduler *)

Lemma scheduleScan_pending (st : State) :
  scanTimer st <> None -> scheduleScan st = st.
Proof.
  unfold scheduleScan. destruct (scanTimer st); [reflexivity|congruence].
Qed.

Lemma scheduleScan_idle (st : State) :
  scanTimer st = None ->
  scanTimer (scheduleScan st) = Some (nextTimerId st)
  /\ pendingScans (scheduleScan st) = S (pendingScans st)
  /\ scanEpoch (scheduleScan st) = scanEpoch st.
Proof.
  intros H. unfold scheduleScan. rewrite H. unfold setTimeout. simpl.
  split; [reflexivity|split; [|reflexivity]].
  unfold pendingScans. simpl. rewrite List.filter_app, length_app. simpl. lia.
Qed.

Lemma scheduleScan_epoch (st : State) :
  scanEpoch (scheduleScan st) = scanEpoch st.
Proof.
  destruct (scanTimer st) eqn:H.
  - rewrite scheduleScan_pending; [reflexivity|congruence].
  - apply scheduleScan_idle, H.
Qed.

Lemma singleFlight_scheduleScan (st : State) :
  singleFlight st -> singleFlight (scheduleScan st).
Proof.
  unfold singleFlight. intros H. destruct (scanTimer st) eqn:Ht.
  - rewrite scheduleScan_pending by congruence. rewrite Ht. exact H.
  - destruct (scheduleScan_idle st Ht) as (A & B & _). rewrite A, B, H.
    reflexivity.
Qed.

Lemma singleFlight_quiet (st st' : State) :
  quiet st st' -> singleFlight st -> singleFlight st'.
Proof. unfold singleFlight. intros (A & _ & C) H. rewrite A, C. exact H. Qed.

Lemma takeTimer_pending (id : nat) (pending rest : list Timer) (t : Timer) :
  takeTimer id pending = Some (t, rest) ->
  length (List.filter isScanTask pending)
  = (if isScanTask t then 1 else 0) + length (List.filter isScanTask rest).
Proof.
  revert rest. induction pending as [|t0 l IH]; intros rest; simpl; [discriminate|].
  destruct (Nat.eqb (timerId t0) id).
  - intros H. inversion H; subst. destruct (isScanTask t); reflexivity.
  - destruct (takeTimer id l) as [[found rest']|]; [|discriminate].
    intros H. inversion H; subst. simpl. specialize (IH _ eq_refl).
    destruct (isScanTask t0); simpl; lia.
Qed.

Lemma rescanAll_scheduler (page : Page) (st : State) :
  scanTimer (rescanAll page st) = scanTimer st
  /\ scanEpoch (rescanAll page st) = S (scanEpoch st)
  /\ pendingScans (rescanAll page st) = pendingScans st.
Proof.
  unfold rescanAll.
  destruct (scanNow_scheduler page (clearTargets page st)) as (A & B & C).
  destruct (quiet_clearTargets page st) as (A' & B' & C').
  rewrite A, B, C, A', B', C'. repeat split.
Qed.

Lemma singleFlight_step (st : State) (ev : Event) :
  singleFlight st -> singleFlight (step st ev).
Proof.
  intros H. destruct ev as [|id page|page|show|newValue page|raw|doc|t]; simpl.
  - apply singleFlight_scheduleScan, H.
  - destruct (takeTimer id (timers st)) as [[t rest]|] eqn:Htake; [|exact H].
    pose proof (takeTimer_pending _ _ _ _ Htake) as Hcount.
    unfold singleFlight in H. unfold pendingScans in H.
    assert (isScanTask t = match timerTask t with ScanTask => true | _ => false end)
      as Hkind by reflexivity.
    destruct (timerTask t) eqn:Htask; rewrite Hkind in Hcount.
    + unfold scanCallback.
      destruct (scanNow_scheduler page (set_scanTimer None (set_timers rest st)))
        as (A & _ & C).
      unfold singleFlight. rewrite A, C. unfold pendingScans. simpl.
      destruct (scanTimer st); lia.
    + eapply singleFlight_quiet; [apply quiet_hideCallback|].
      unfold singleFlight, pendingScans. simpl. lia.
    + eapply singleFlight_quiet; [apply quiet_cacheSaveCallback|].
      unfold singleFlight, pendingScans. simpl. lia.
  - unfold singleFlight in *.
    destruct (rescanAll_scheduler page st) as (A & _ & C). rewrite A, C. exact H.
  - eapply singleFlight_quiet; [apply quiet_applyShowBlocked|exact H].
  - unfold singleFlight in *.
    match goal with
    | |- context [rescanAll page ?s] =>
        destruct (rescanAll_scheduler page s) as (A & _ & C)
    end.
    rewrite A, C.
    match goal with
    | |- context [applyShowBlocked ?b ?s] =>
        destruct (quiet_applyShowBlocked b s) as (A' & _ & C')
    end.
    rewrite A', C'. exact H.
  - eapply singleFlight_quiet; [apply quiet_loadCache|exact H].
  - exact H.
  - exact H.
Qed.

Lemma singleFlight_run (st : State) (evs : list Event) :
  singleFlight st -> singleFlight (run st evs).
Proof.
  revert st. induction evs as [|ev later IH]; intros st H; [exact H|].
  apply IH, singleFlight_step, H.
Qed.

Lemma singleFlight_init (loaded : Settings) :
  singleFlight (init loaded initialState).
Proof.
  unfold init. apply singleFlight_scheduleScan.
  eapply singleFlight_quiet; [apply quiet_applyShowBlocked|]. reflexivity.
Qed.

Lemma step_epoch (st : State) (ev : Event) :
  scanEpoch (step st ev)
  = scanEpoch st + (if executesScan st ev then 1 else 0).
Proof.
  destruct ev as [|id page|page|show|newValue page|raw|doc|t]; simpl.
  - rewrite scheduleScan_epoch. lia.
  - destruct (takeTimer id (timers st)) as [[t rest]|]; [|lia].
    unfold isScanTask. destruct (timerTask t).
    + unfold scanCallback.
      destruct (scanNow_scheduler page (set_scanTimer None (set_timers rest st)))
        as (_ & B & _).
      rewrite B. simpl. lia.
    + destruct (quiet_hideCallback element (set_timers rest st)) as (_ & B & _).
      rewrite B. simpl. lia.
    + simpl. lia.
  - destruct (rescanAll_scheduler page st) as (_ & B & _). rewrite B. lia.
  - destruct (quiet_applyShowBlocked show st) as (_ & B & _). rewrite B. lia.
  - match goal with
    | |- context [rescanAll page ?s] =>
        destruct (rescanAll_scheduler page s) as (_ & B & _)
    end.
    rewrite B.
    match goal with
    | |- context [applyShowBlocked ?b ?s] =>
        destruct (quiet_applyShowBlocked b s) as (_ & B' & _)
    end.
    rewrite B'. simpl. lia.
  - destruct (quiet_loadCache raw st) as (_ & B & _). rewrite B. lia.
  - simpl. lia.
  - simpl. lia.
Qed.

Lemma run_epoch (st : State) (evs : list Event) :
  scanEpoch (run st evs) = scanEpoch st + scansExecuted st evs.
Proof.
  revert st. induction evs as [|ev later IH]; intros st; [simpl; lia|].
  change (run st (ev :: later)) with (run (step st ev) later).
  rewrite IH, step_epoch. simpl. lia.
Qed.

Lemma burst_while_pending (st : State) (n : nat) :
  scanTimer st <> None -> run st (repeat ChangeSignal n) = st.
Proof.
  intros H. induction n as [|n IH]; [reflexivity|].
  simpl. rewrite scheduleScan_pending by exact H. exact IH.
Qed.

(** C8: the scan scheduler is single-flight.  A schedule request while
    the timer is pending changes nothing; in every state the content
    script reaches at most one scan is pending; a burst of change
    signals, however long, leaves exactly one scan pending; each
    executed scan moves the epoch by exactly one, a schedule request
    never moves it, and over any run the epoch has grown by the number
    of scans executed. *)
Theorem scheduler_single_flight :
  (forall st, scanTimer st <> None -> scheduleScan st = st)
  /\ (forall loaded evs,
        let st := run (init loaded initialState) evs in
        pendingScans st <= 1
        /\ (pendingScans st = 1 <-> scanTimer st <> None))
  /\ (forall loaded evs n,
        let st := run (init loaded initialState) evs in
        pendingScans (run st (repeat ChangeSignal (S n))) = 1
        /\ (scanTimer st <> None -> run st (repeat ChangeSignal (S n)) = st)
        /\ scanEpoch (run st (repeat ChangeSignal (S n))) = scanEpoch st)
  /\ (forall page st, scanEpoch (scanNow page st) = S (scanEpoch st))
  /\ (forall page st, scanEpoch (rescanAll page st) = S (scanEpoch st))
  /\ (forall st, scanEpoch (scheduleScan st) = scanEpoch st)
  /\ (forall st evs, scanEpoch (run st evs) = scanEpoch st + scansExecuted st evs).
Proof.
  split; [exact scheduleScan_pending|].
  split.
  { intros loaded evs st.
    pose proof (singleFlight_run _ evs (singleFlight_init loaded)) as H.
    fold st in H. unfold singleFlight in H. rewrite H.
    destruct (scanTimer st); split; try lia; split; congruence. }
  split.
  { intros loaded evs n st.
    pose proof (singleFlight_run _ evs (singleFlight_init loaded)) as H.
    fold st in H.
    assert (singleFlight (scheduleScan st)) as H1
        by apply singleFlight_scheduleScan, H.
    assert (scanTimer (scheduleScan st) <> None) as Hset.
    { destruct (scanTimer st) eqn:Ht.
      - rewrite scheduleScan_pending; congruence.
      - destruct (scheduleScan_idle st Ht) as (A & _). congruence. }
    change (run st (repeat ChangeSignal (S n)))
      with (run (scheduleScan st) (repeat ChangeSignal n)).
    rewrite (burst_while_pending _ n Hset).
    split; [|split].
    - unfold singleFlight in H1. rewrite H1.
      destruct (scanTimer (scheduleScan st)); congruence.
    - intros Ht. apply scheduleScan_pending, Ht.
    - apply scheduleScan_epoch. }
  split; [intros page st; apply scanNow_scheduler|].
  split; [intros page st; apply rescanAll_scheduler|].
  split; [exact scheduleScan_epoch|exact run_epoch].
Qed.

(** ** The key kept on a node *)

Lemma slice0_length (n : nat) (s : string) : String.length (Js.slice0 n s) <= n.
Proof.
  revert s. induction n as [|n IH]; intros [|c r]; simpl; try lia.
  specialize (IH r). lia.
Qed.

Lemma keepsShort_refl (st : State) : keepsShort st st.
Proof. intros H. exact H. Qed.

Lemma keepsShort_trans (st1 st2 st3 : State) :
  keepsShort st1 st2 -> keepsShort st2 st3 -> keepsShort st1 st3.
Proof. unfold keepsShort. auto. Qed.

Lemma keepsShort_fold (A : Type) (f : State -> A -> State) (l : list A)
  (st : State) :
  (forall s x, keepsShort s (f s x)) -> keepsShort st (fold_left f l st).
Proof.
  intros Hf. revert st. induction l as [|x l IH]; intros st; simpl.
  - apply keepsShort_refl.
  - eapply keepsShort_trans; [apply Hf|apply IH].
Qed.

Lemma keepsShort_elements (st st' : State) :
  elements st' = elements st -> keepsShort st st'.
Proof. intros E H el e. rewrite E. apply H. Qed.

Lemma keepsShort_updateElement (el : nat) (f : Element -> Element) (st : State) :
  (forall e, shortKey e -> shortKey (f e)) ->
  keepsShort st (updateElement el f st).
Proof.
  intros Hf H el' e'. unfold updateElement. simpl. rewrite lookup_alter.
  case_decide.
  - subst el'. destruct (elements st !! el) as [e|] eqn:He; simpl; [|discriminate].
    intros E. inversion E; subst. apply Hf, (H el e He).
  - apply H.
Qed.

Lemma keepsShort_updateDataset (el : nat) (f : Dataset -> Dataset) (st : State) :
  (forall d, String.length (mvKey d) <= 200 -> String.length (mvKey (f d)) <= 200) ->
  keepsShort st (updateDataset el f st).
Proof.
  intros Hf. apply keepsShort_updateElement. intros e He. apply Hf, He.
Qed.

Lemma keepsShort_whenDebug (f : State -> State) (st : State) :
  (forall s, keepsShort s (f s)) -> keepsShort st (whenDebug f st).
Proof.
  intros Hf. unfold whenDebug. destruct (debugMode (settings st));
    [apply Hf|apply keepsShort_refl].
Qed.

Lemma keepsShort_updateDebug (f : DebugState -> DebugState) (st : State) :
  keepsShort st (updateDebug f st).
Proof. apply keepsShort_elements. reflexivity. Qed.

Lemma keepsShort_setTimeout (task : TimerTask) (delay : Z) (st : State) :
  keepsShort st (snd (setTimeout task delay st)).
Proof. apply keepsShort_elements. reflexivity. Qed.

Ltac same_elements := apply keepsShort_elements; reflexivity.
Ltac same_key :=
  first [ apply keepsShort_updateDataset;
          let d := fresh "d" in
          let Hd := fresh "Hd" in
          intros d Hd;
          first [exact Hd | exact (slice0_length _ _) | simpl; lia]
        | apply keepsShort_updateElement;
          let e := fresh "e" in
          let He := fresh "He" in
          intros e He; exact He ].

Lemma keepsShort_hideElement (el : nat) (st : State) :
  keepsShort st (hideElement el st).
Proof.
  unfold hideElement. destruct (showBlocked _); [same_key|].
  eapply keepsShort_trans; [|apply keepsShort_setTimeout]. same_key.
Qed.

Lemma keepsShort_unhideElement (el : nat) (st : State) :
  keepsShort st (unhideElement el st).
Proof.
  unfold unhideElement. eapply keepsShort_trans; [|same_key]. same_key.
Qed.

Lemma keepsShort_applyDecision (el : nat) (isMusic : bool) (st : State) :
  keepsShort st (applyDecision el isMusic st).
Proof.
  unfold applyDecision. destruct (negb isMusic);
    [apply keepsShort_hideElement|apply keepsShort_unhideElement].
Qed.

Lemma keepsShort_hideCallback (el : nat) (st : State) :
  keepsShort st (hideCallback el st).
Proof.
  unfold hideCallback. destruct (elements st !! el); [|apply keepsShort_refl].
  destruct (_ && _); [same_key|apply keepsShort_refl].
Qed.

Lemma elements_scheduleCacheSave (st : State) :
  elements (scheduleCacheSave st) = elements st.
Proof. unfold scheduleCacheSave. destruct (cacheSaveTimer st); reflexivity. Qed.

Lemma elements_cacheGet (key : string) (st : State) :
  elements (snd (cacheGet key st)) = elements st.
Proof.
  unfold cacheGet. destruct (Js.isEmpty key); [reflexivity|].
  destruct (mapGet key (decisionCache st)); reflexivity.
Qed.

Lemma elements_cacheSet (key : string) (isMusic : bool) (st : State) :
  elements (cacheSet key isMusic st) = elements st.
Proof.
  unfold cacheSet. destruct (Js.isEmpty key); [reflexivity|].
  rewrite elements_scheduleCacheSave. reflexivity.
Qed.

Lemma keepsShort_classifyCandidate (el : nat) (data : VideoData) (st : State) :
  keepsShort st (classifyCandidate el data st).
Proof.
  unfold classifyCandidate.
  eapply keepsShort_trans; [|same_key].
  eapply keepsShort_trans; [|apply keepsShort_updateDebug].
  match goal with
  | |- keepsShort _ (if ?b then _ else _) =>
      assert (forall s, keepsShort s
                (if b then updateDebug (fun d => set_allowed (S (allowed d)) d) s
                 else updateDebug (fun d => set_blocked (S (blocked d)) d) s))
        as Hcount by (intros s; destruct b; apply keepsShort_updateDebug)
  end.
  eapply keepsShort_trans; [|apply Hcount].
  eapply keepsShort_trans; [|apply keepsShort_updateDebug].
  eapply keepsShort_trans; [|apply keepsShort_whenDebug; intros; same_key].
  eapply keepsShort_trans; [apply keepsShort_applyDecision|].
  destruct (truthyOpt (cacheKey data)); [|apply keepsShort_refl].
  apply keepsShort_elements, elements_cacheSet.
Qed.

Lemma keepsShort_decideCandidate (el : nat) (data : VideoData) (st : State) :
  keepsShort st (decideCandidate el data st).
Proof.
  unfold decideCandidate.
  assert (keepsShort st (snd (if truthyOpt (cacheKey data)
                              then cacheGet (default "" (cacheKey data)) st
                              else (None, st)))) as H
      by (destruct (truthyOpt _);
          [apply keepsShort_elements, elements_cacheGet|apply keepsShort_refl]).
  destruct (if truthyOpt (cacheKey data) then _ else _) as [cached st1].
  simpl in H. destruct cached as [isMusic|].
  - eapply keepsShort_trans; [exact H|].
    eapply keepsShort_trans; [|same_key].
    eapply keepsShort_trans; [apply keepsShort_applyDecision|].
    apply keepsShort_whenDebug. intros s.
    eapply keepsShort_trans; [|same_key]. apply keepsShort_updateDebug.
  - eapply keepsShort_trans; [exact H|apply keepsShort_classifyCandidate].
Qed.

Lemma keepsShort_rememberKey (page : Page) (el : nat) (data : VideoData)
  (st : State) :
  keepsShort st (rememberKey page el data st).
Proof.
  unfold rememberKey.
  assert (forall s, keepsShort s
            (if Js.truthy (elementKeyOf data)
             then updateDataset el (set_mvKey (Js.slice0 200 (elementKeyOf data))) s
             else s)) as Hkey
      by (intros s; destruct (Js.truthy _); [same_key|apply keepsShort_refl]).
  destruct (truthyOpt _); [|apply Hkey].
  eapply keepsShort_trans; [apply Hkey|same_key].
Qed.

Lemma keepsShort_forgetOnWatchChange (page : Page) (el : nat) (element : Element)
  (st : State) :
  keepsShort st (forgetOnWatchChange page el element st).
Proof.
  unfold forgetOnWatchChange.
  destruct (watchChanged _ _); [same_key|apply keepsShort_refl].
Qed.

Lemma keepsShort_processCandidate (page : Page) (context : string) (el : nat)
  (st : State) :
  keepsShort st (processCandidate page context el st).
Proof.
  unfold processCandidate.
  destruct (elements st !! el) as [element|]; [|apply keepsShort_refl].
  destruct (bool_decide _); [apply keepsShort_refl|].
  assert (keepsShort st (markEpoch el st)) as Hmark by (unfold markEpoch; same_key).
  destruct (negb (hasData _)).
  - eapply keepsShort_trans; [exact Hmark|].
    apply keepsShort_whenDebug. intros s. apply keepsShort_updateDebug.
  - destruct (skipsProcessed _ _ _ _).
    + eapply keepsShort_trans; [exact Hmark|].
      eapply keepsShort_trans; [apply keepsShort_forgetOnWatchChange|].
      apply keepsShort_whenDebug. intros s. apply keepsShort_updateDebug.
    + eapply keepsShort_trans; [exact Hmark|].
      eapply keepsShort_trans; [apply keepsShort_forgetOnWatchChange|].
      eapply keepsShort_trans; [apply keepsShort_rememberKey|].
      apply keepsShort_decideCandidate.
Qed.

Lemma keepsShort_scanNow (page : Page) (st : State) :
  keepsShort st (scanNow page st).
Proof.
  unfold scanNow.
  eapply keepsShort_trans; [|apply keepsShort_fold].
  - eapply keepsShort_trans;
      [|apply keepsShort_whenDebug; intros; apply keepsShort_updateDebug].
    eapply keepsShort_trans with (st2 := whenDebug (resetDebug page) st).
    + apply keepsShort_whenDebug. intros s. apply keepsShort_updateDebug.
    + same_elements.
  - intros s target. unfold scanTarget.
    eapply keepsShort_trans;
      [apply keepsShort_whenDebug; intros; apply keepsShort_updateDebug|].
    apply keepsShort_fold. intros s' el. apply keepsShort_processCandidate.
Qed.

Lemma keepsShort_clearTargets (page : Page) (st : State) :
  keepsShort st (clearTargets page st).
Proof.
  unfold clearTargets. apply keepsShort_fold. intros s target.
  apply keepsShort_fold. intros s' el. unfold clearMarks.
  eapply keepsShort_trans; [|apply keepsShort_unhideElement]. same_key.
Qed.

Lemma keepsShort_applyShowBlocked (show : bool) (st : State) :
  keepsShort st (applyShowBlocked show st).
Proof.
  unfold applyShowBlocked.
  set (st2 := set_rootShowBlocked show
                (set_settings (set_showBlocked show (settings st)) st)).
  assert (keepsShort st st2) as H2 by same_elements.
  destruct show.
  - eapply keepsShort_trans; [exact H2|].
    apply keepsShort_fold. intros s el. same_key.
  - eapply keepsShort_trans; [exact H2|].
    apply keepsShort_fold. intros s el.
    destruct (elements s !! el) as [e|]; [|apply keepsShort_refl].
    destruct (negb (mvHidden e));
      [apply keepsShort_hideElement|apply keepsShort_refl].
Qed.

Lemma keepsShort_render (doc : gmap nat RawFields) (st : State) :
  keepsShort st (render doc st).
Proof.
  intros H el e. unfold render. simpl. rewrite map_lookup_imap.
  destruct (doc !! el) as [fields|]; simpl; [|discriminate].
  destruct (elements st !! el) as [e0|] eqn:He0; intros E; inversion E; subst.
  - exact (H el e0 He0).
  - unfold shortKey. simpl. lia.
Qed.

Lemma keepsShort_scheduleScan (st : State) : keepsShort st (scheduleScan st).
Proof.
  unfold scheduleScan. destruct (scanTimer st); [apply keepsShort_refl|].
  same_elements.
Qed.

Lemma keepsShort_rescanAll (page : Page) (st : State) :
  keepsShort st (rescanAll page st).
Proof.
  unfold rescanAll.
  eapply keepsShort_trans; [apply keepsShort_clearTargets|apply keepsShort_scanNow].
Qed.

Lemma keepsShort_step (st : State) (ev : Event) : keepsShort st (step st ev).
Proof.
  destruct ev as [|id page|page|show|newValue page|raw|doc|t]; simpl.
  - apply keepsShort_scheduleScan.
  - destruct (takeTimer id (timers st)) as [[t rest]|]; [|apply keepsShort_refl].
    assert (keepsShort st (set_timers rest st)) as Hrest by same_elements.
    destruct (timerTask t).
    + unfold scanCallback.
      eapply keepsShort_trans; [|apply keepsShort_scanNow].
      same_elements.
    + eapply keepsShort_trans; [exact Hrest|apply keepsShort_hideCallback].
    + same_elements.
  - apply keepsShort_rescanAll.
  - apply keepsShort_applyShowBlocked.
  - eapply keepsShort_trans; [|apply keepsShort_rescanAll].
    eapply keepsShort_trans; [|apply keepsShort_applyShowBlocked].
    same_elements.
  - unfold loadCache. apply keepsShort_fold. intros s [k v]. simpl.
    destruct v; [same_elements|apply keepsShort_refl].
  - apply keepsShort_render.
  - same_elements.
Qed.

(** In every state the content script reaches, the key kept on a node
    has at most 200 characters. *)
Lemma shortKeys_reachable (loaded : Settings) (evs : list Event) :
  shortKeys (run (init loaded initialState) evs).
Proof.
  assert (shortKeys (init loaded initialState)) as H0.
  { unfold init.
    assert (keepsShort initialState
              (scheduleScan
                 (applyShowBlocked (showBlocked loaded)
                    (set_matchers (buildMatchers loaded)
                       (set_settings loaded initialState))))) as K.
    { eapply keepsShort_trans; [|apply keepsShort_scheduleScan].
      eapply keepsShort_trans; [|apply keepsShort_applyShowBlocked].
      same_elements. }
    apply K. intros el e. simpl. rewrite lookup_empty. discriminate. }
  revert H0. generalize (init loaded initialState).
  induction evs as [|ev later IH]; intros st H; [exact H|].
  apply IH, keepsShort_step, H.
Qed.

(** ** Processing one candidate *)

Lemma normalizeText_empty : normalizeText "" = "".
Proof. reflexivity. Qed.

(** An item with an element key has a title or a video id. *)
Lemma hasData_of_key (fields : RawFields) :
  elementKeyOf (extractVideoData fields) <> "" ->
  hasData (extractVideoData fields) = true.
Proof.
  unfold hasData, elementKeyOf, extractVideoData. simpl.
  destruct (truthyOpt (rawVideoId fields)) eqn:Hid.
  - intros _. rewrite andb_false_r. reflexivity.
  - destruct (rawTitle fields) as [|c r]; [|reflexivity].
    rewrite normalizeText_empty. simpl. intros H. elim H. reflexivity.
Qed.

Lemma eqb_length_differs (a b : string) :
  String.length a < String.length b -> String.eqb a b = false.
Proof.
  intros H. apply String.eqb_neq. intros E. subst. lia.
Qed.

(** The first half of C6.  In a context other than the watch sidebar, a
    node whose processed flag is set and whose stored key equals the
    freshly computed key, on a page whose watch id has not changed for
    it, is skipped: nothing but the epoch mark (and, in debug mode, a
    counter) changes, so there is no classification, no cache access and
    no visibility change. *)
Lemma processed_same_key_skipped (page : Page) (context : string) (el : nat)
  (element : Element) (st : State) :
  elements st !! el = Some element ->
  mvEpoch (dataset element) <> Some (scanEpoch st) ->
  hasData (extractVideoData (raw element)) = true ->
  context <> "watch-sidebar" ->
  watchChanged page element = false ->
  mvProcessed (dataset element) = "1" ->
  mvKey (dataset element) = elementKeyOf (extractVideoData (raw element)) ->
  processCandidate page context el st
  = whenDebug
      (updateDebug (fun d => set_skippedProcessed (S (skippedProcessed d)) d))
      (markEpoch el st)
  /\ decisionCache (processCandidate page context el st) = decisionCache st
  /\ timers (processCandidate page context el st) = timers st
  /\ scanned (debugState (processCandidate page context el st))
     = scanned (debugState st)
  /\ elements (processCandidate page context el st) !! el
     = Some (set_dataset (set_mvEpoch (Some (scanEpoch st)) (dataset element))
               element).
Proof.
  intros Hel Hepoch Hdata Hctx Hwatch Hproc Hkey.
  assert (processCandidate page context el st
          = whenDebug
              (updateDebug
                 (fun d => set_skippedProcessed (S (skippedProcessed d)) d))
              (markEpoch el st)) as E.
  { unfold processCandidate. rewrite Hel.
    rewrite bool_decide_eq_false_2 by exact Hepoch.
    rewrite Hdata. simpl negb. cbv iota.
    unfold skipsProcessed, forgetOnWatchChange, allowSkip.
    rewrite Hwatch, Hproc, Hkey, !String.eqb_refl.
    apply String.eqb_neq in Hctx. rewrite Hctx. reflexivity. }
  rewrite E. unfold whenDebug, markEpoch, updateDataset, updateElement.
  destruct (debugMode _); simpl; rewrite lookup_alter_eq, Hel; repeat split.
Qed.

(** C6, at the failing input.  A home tile shows a title of 201
    characters that has no cache key (its element key is the raw title).
    The first scan classifies it, marks it processed and keeps the first
    200 characters of the key; the second scan, with the page, the tile
    and the settings unchanged and no rescan in between, compares the
    kept key with the whole key, does not skip, and classifies the tile
    again. *)
Theorem long_title_reclassified :
  let page := homePage [0] in
  let data := extractVideoData (fieldsOf longTitle "" "" None) in
  let st1 := scanNow page longTitleState in
  let st2 := scanNow page st1 in
  cacheKey data = None
  /\ String.length (elementKeyOf data) = 201
  /\ scanned (debugState longTitleState) = 0
  /\ scanned (debugState st1) = 1
  /\ option_map (fun e => (mvProcessed (dataset e),
                           String.length (mvKey (dataset e))))
       (elements st1 !! 0) = Some ("1", 200)
  /\ scanned (debugState st2) = 2.
Proof. vm_compute. repeat split. Qed.

(** ** The forced rescan and the cache *)

Lemma cacheKeeps_refl (c : CacheMap) : cacheKeeps c c.
Proof. intros k e H. eauto. Qed.

Lemma cacheKeeps_trans (c1 c2 c3 : CacheMap) :
  cacheKeeps c1 c2 -> cacheKeeps c2 c3 -> cacheKeeps c1 c3.
Proof.
  intros H12 H23 k e H. destruct (H12 k e H) as (e2 & H2 & E2).
  destruct (H23 k e2 H2) as (e3 & H3 & E3). exists e3. split; congruence.
Qed.

Lemma grows_same (st st' : State) :
  decisionCache st' = decisionCache st -> grows 0 st st'.
Proof.
  intros E. unfold grows. rewrite E. split; [lia|].
  intros _. apply cacheKeeps_refl.
Qed.

Lemma grows_trans (n m : nat) (st1 st2 st3 : State) :
  grows n st1 st2 -> grows m st2 st3 -> grows (n + m) st1 st3.
Proof.
  intros [L1 K1] [L2 K2]. split; [lia|].
  intros Hroom. eapply cacheKeeps_trans; [apply K1|apply K2]; lia.
Qed.

Lemma grows_fold (A : Type) (f : State -> A -> State) (l : list A) (st : State) :
  (forall s x, grows 1 s (f s x)) -> grows (length l) st (fold_left f l st).
Proof.
  intros Hf. revert st. induction l as [|x l IH]; intros st; simpl.
  - apply grows_same. reflexivity.
  - change (S (length l)) with (1 + length l).
    eapply grows_trans; [apply Hf|apply IH].
Qed.

Lemma grows_weaken (st st' : State) : grows 0 st st' -> grows 1 st st'.
Proof. intros [L K]. split; [lia|]. intros H. apply K. lia. Qed.

Ltac same_cache :=
  apply grows_same;
  unfold classifyCandidate, rememberKey, forgetOnWatchChange, markEpoch,
    applyDecision, hideElement, unhideElement, whenDebug, resetDebug,
    updateDataset, updateElement, updateDebug, setTimeout;
  repeat match goal with
         | |- context [if ?b then _ else _] => destruct b
         end;
  reflexivity.

Lemma grows_cacheGet (key : string) (st : State) :
  grows 0 st (snd (cacheGet key st)).
Proof.
  split; [pose proof (cacheGet_length key st); lia|]. intros _.
  unfold cacheGet. destruct (Js.isEmpty key); [apply cacheKeeps_refl|].
  destruct (mapGet key (decisionCache st)) as [entry|] eqn:Hget;
    [|apply cacheKeeps_refl].
  simpl. intros k e Hk. destruct (String.eqb key k) eqn:E.
  - apply String.eqb_eq in E. subst k. rewrite mapGet_mapSet_eq.
    eexists. split; [reflexivity|]. simpl. congruence.
  - apply String.eqb_neq in E.
    rewrite mapGet_mapSet_ne, mapGet_mapDelete_ne by exact E. eauto.
Qed.

(** A put of a key that is not in the cache. *)
Lemma grows_cacheSet (key : string) (isMusic : bool) (st : State) :
  mapGet key (decisionCache st) = None ->
  grows 1 st (cacheSet key isMusic st).
Proof.
  intros Habs. destruct (Js.isEmpty key) eqn:Hk.
  - unfold cacheSet. rewrite Hk. split; [lia|]. intros _. apply cacheKeeps_refl.
  - split.
    + rewrite decisionCache_cacheSet by exact Hk. cbv zeta.
      set (m1 := mapSet _ _ _).
      assert (length m1 <= S (length (decisionCache st))) as Hle
          by apply mapSet_length_le.
      destruct (Nat.ltb MAX_CACHE_ENTRIES (length m1)); [|lia].
      destruct (mapKeys m1); [lia|].
      pose proof (mapDelete_length_le s m1). lia.
    + intros Hroom. rewrite cacheSet_no_eviction; [|exact Hk|].
      * intros k e Hget. destruct (String.eqb key k) eqn:E.
        -- apply String.eqb_eq in E. congruence.
        -- apply String.eqb_neq in E. rewrite mapGet_mapSet_ne by exact E. eauto.
      * rewrite (mapSet_absent _ _ _ Habs), length_app. simpl. lia.
Qed.

Lemma grows_classifyCandidate (el : nat) (data : VideoData) (st : State) :
  (truthyOpt (cacheKey data) = true ->
   mapGet (default "" (cacheKey data)) (decisionCache st) = None) ->
  grows 1 st (classifyCandidate el data st).
Proof.
  intros Habs.
  set (result := classifyVideo (settings st) (matchers st) data).
  set (st1 := applyDecision el (Result.isMusic result) st).
  set (st2 := if truthyOpt (cacheKey data)
              then cacheSet (default "" (cacheKey data)) (Result.isMusic result) st1
              else st1).
  assert (grows 0 st st1) as H1 by (subst st1; same_cache).
  assert (grows 1 st1 st2) as H2.
  { subst st2. destruct (truthyOpt (cacheKey data)) eqn:Hk.
    - apply grows_cacheSet. destruct H1 as [_ _].
      assert (decisionCache st1 = decisionCache st) as E
          by (subst st1; unfold applyDecision, hideElement, unhideElement,
                updateElement, setTimeout;
              repeat match goal with
                     | |- context [if ?b then _ else _] => destruct b
                     end; reflexivity).
      rewrite E. apply Habs. reflexivity.
    - split; [lia|]. intros _. apply cacheKeeps_refl. }
  assert (grows 0 st2 (classifyCandidate el data st)) as H3.
  { unfold classifyCandidate. fold result. fold st1. fold st2.
    apply grows_same. unfold whenDebug, updateDataset, updateElement, updateDebug.
    destruct (debugMode (settings st2)), (Result.isMusic result); reflexivity. }
  change 1 with (0 + 1 + 0).
  eapply grows_trans; [eapply grows_trans; [exact H1|exact H2]|exact H3].
Qed.

Lemma grows_decideCandidate (el : nat) (data : VideoData) (st : State) :
  grows 1 st (decideCandidate el data st).
Proof.
  unfold decideCandidate.
  destruct (truthyOpt (cacheKey data)) eqn:Hk.
  - pose proof (grows_cacheGet (default "" (cacheKey data)) st) as Hget.
    pose proof (cacheGet_null_iff (default "" (cacheKey data)) st) as Hnull.
    destruct (cacheGet (default "" (cacheKey data)) st) as [cached st1] eqn:Hc.
    simpl in Hget, Hnull. destruct cached as [isMusic|].
    + change 1 with (0 + 1). eapply grows_trans; [exact Hget|].
      apply grows_weaken. same_cache.
    + assert (st1 = st) as ->.
      { rewrite cacheGet_miss in Hc; [congruence|]. apply Hnull. reflexivity. }
      apply grows_classifyCandidate. intros _.
      destruct Hnull as [Hnull _]. destruct (Hnull eq_refl) as [He|Hn]; [|exact Hn].
      destruct (cacheKey data) as [k|]; [|discriminate].
      simpl in *. unfold Js.truthy in Hk. rewrite He in Hk. discriminate.
  - apply grows_classifyCandidate. intros H. congruence.
Qed.

Lemma grows_processCandidate (page : Page) (context : string) (el : nat)
  (st : State) :
  grows 1 st (processCandidate page context el st).
Proof.
  unfold processCandidate.
  destruct (elements st !! el) as [element|];
    [|apply grows_weaken, grows_same; reflexivity].
  destruct (bool_decide _); [apply grows_weaken, grows_same; reflexivity|].
  destruct (negb (hasData _)); [apply grows_weaken; same_cache|].
  destruct (skipsProcessed _ _ _ _); [apply grows_weaken; same_cache|].
  change 1 with (0 + 1).
  eapply grows_trans; [|apply grows_decideCandidate]. same_cache.
Qed.




Lemma decisionCache_clearTargets (page : Page) (st : State) :
  decisionCache (clearTargets page st) = decisionCache st.
Proof.
  unfold clearTargets. generalize (getScanTargets page).
  intros targets. revert st. induction targets as [|t l IH]; intros st; simpl;
    [reflexivity|].
  rewrite IH. generalize (collectCandidates t). intros els. revert st.
  induction els as [|el els IHe]; intros st; simpl; [reflexivity|].
  rewrite IHe. reflexivity.
Qed.

Lemma clearMarks_lookup (el x : nat) (st : State) :
  (elements st !! x = None -> elements (clearMarks el st) !! x = None)
  /\ (forall e, elements st !! x = Some e ->
        exists e', elements (clearMarks el st) !! x = Some e'
                   /\ raw e' = raw e
                   /\ (cleared e -> cleared e')
                   /\ (el = x -> cleared e')).
Proof.
  unfold clearMarks, unhideElement, updateDataset, updateElement. simpl.
  destruct (decide (el = x)) as [->|Hne].
  - rewrite !lookup_alter_eq. split.
    + intros ->. reflexivity.
    + intros e ->. simpl. eexists. split; [reflexivity|].
      repeat split; reflexivity.
  - rewrite !lookup_alter_ne by exact Hne.
    split; [auto|]. intros e He. exists e.
    split; [exact He|]. split; [reflexivity|]. split; [tauto|].
    intros E. contradiction.
Qed.

Lemma clearAll_lookup (els : list nat) (x : nat) (st : State) (e : Element) :
  elements st !! x = Some e ->
  exists e', elements (fold_left (fun acc el => clearMarks el acc) els st) !! x
             = Some e'
             /\ raw e' = raw e
             /\ (cleared e -> cleared e')
             /\ (In x els -> cleared e').
Proof.
  revert st e. induction els as [|el els IH]; intros st e He; simpl.
  - exists e. split; [exact He|]. split; [reflexivity|]. split; tauto.
  - destruct (clearMarks_lookup el x st) as [_ Hsome].
    destruct (Hsome e He) as (e1 & H1 & R1 & K1 & C1).
    destruct (IH _ _ H1) as (e2 & H2 & R2 & K2 & C2).
    exists e2. split; [exact H2|]. split; [congruence|]. split; [tauto|].
    intros [->|Hin]; [apply K2, C1; reflexivity|apply C2, Hin].
Qed.

Lemma clearTargets_lookup (page : Page) (x : nat) (st : State) (e : Element) :
  elements st !! x = Some e ->
  exists e', elements (clearTargets page st) !! x = Some e'
             /\ raw e' = raw e
             /\ ((exists target, In target (getScanTargets page)
                                 /\ In x (collectCandidates target)) ->
                 cleared e').
Proof.
  unfold clearTargets. generalize (getScanTargets page). intros targets.
  assert (forall st e,
            elements st !! x = Some e ->
            exists e',
              elements
                (fold_left
                   (fun acc target =>
                      fold_left (fun acc' el => clearMarks el acc')
                        (collectCandidates target) acc) targets st) !! x
              = Some e'
              /\ raw e' = raw e
              /\ (cleared e -> cleared e')
              /\ ((exists target, In target targets
                                  /\ In x (collectCandidates target)) ->
                  cleared e')) as H.
  { induction targets as [|t l IH]; intros s a Ha; simpl.
    - exists a. split; [exact Ha|]. split; [reflexivity|]. split; [tauto|].
      intros (t & [] & _).
    - destruct (clearAll_lookup (collectCandidates t) x s a Ha)
        as (e1 & H1 & R1 & K1 & C1).
      destruct (IH _ _ H1) as (e2 & H2 & R2 & K2 & C2).
      exists e2. split; [exact H2|]. split; [congruence|]. split; [tauto|].
      intros (t' & [->|Hin] & Hx); [apply K2, C1, Hx|].
      apply C2. exists t'. tauto. }
  intros He. destruct (H st e He) as (e' & H1 & R & _ & C).
  exists e'. tauto.
Qed.



(* ===================================================================== *)
(** * Further properties of the code                                      *)
(* ===================================================================== *)

(** ** Normalized text and whole-word matching *)

Lemma alnum_not_space (c : ascii) : Js.isAlnum c = true -> Js.isSpace c = false.
Proof. each_char c. Qed.

Lemma alnum_lower (c : ascii) : Js.isAlnum c = true -> Js.lowerChar c = c.
Proof. each_char c. Qed.

Lemma blank_is_space (c : ascii) : isBlank c = true -> c = " "%char.
Proof. each_char c. Qed.

Lemma blank_not_alnum (c : ascii) : isBlank c = true -> Js.isAlnum c = false.
Proof. each_char c. Qed.

Lemma replaceRuns_loose (b : bool) (s : string) :
  looseFrom b (Js.replaceRunsFrom (fun c => negb (Js.isAlnum c)) b s) = true.
Proof.
  revert b. induction s as [|c r IH]; intros b; simpl; [reflexivity|].
  destruct (Js.isAlnum c) eqn:Hc; simpl.
  - rewrite Hc. apply IH.
  - destruct b; [apply IH|]. simpl. apply IH.
Qed.

Lemma loose_replaceSpaces (b : bool) (s : string) :
  looseFrom b s = true -> Js.replaceRunsFrom Js.isSpace b s = s.
Proof.
  revert b. induction s as [|c r IH]; intros b; simpl; [reflexivity|].
  destruct (Js.isAlnum c) eqn:Hc.
  - intros H. rewrite (alnum_not_space _ Hc), (IH _ H). reflexivity.
  - intros H. apply andb_prop in H as [H Hr]. apply andb_prop in H as [Hb Hn].
    apply blank_is_space in Hb. subst c. destruct b; [discriminate|].
    simpl. rewrite (IH _ Hr). reflexivity.
Qed.

Lemma loose_weaken (b : bool) (s : string) :
  looseFrom b s = true -> looseFrom false s = true.
Proof.
  destruct s as [|c r]; simpl; [reflexivity|].
  destruct (Js.isAlnum c); [trivial|].
  intros H. apply andb_prop in H as [H Hr]. apply andb_prop in H as [Hb _].
  rewrite Hb, Hr. reflexivity.
Qed.

Lemma loose_trimStart (s : string) :
  looseFrom false s = true ->
  looseFrom true (Js.trimStart s) = true.
Proof.
  destruct s as [|c r]; [reflexivity|].
  cbn [looseFrom Js.trimStart].
  destruct (Js.isAlnum c) eqn:Hc.
  - intros H. rewrite (alnum_not_space _ Hc). simpl. rewrite Hc. exact H.
  - intros H. apply andb_prop in H as [H Hr]. apply andb_prop in H as [Hb _].
    apply blank_is_space in Hb. subst c. simpl.
    destruct r as [|c' r']; [reflexivity|].
    cbn [looseFrom] in Hr. cbn [Js.trimStart].
    destruct (Js.isAlnum c') eqn:Hc'.
    + rewrite (alnum_not_space _ Hc'). simpl. rewrite Hc'. exact Hr.
    + rewrite andb_false_r in Hr. discriminate.
Qed.

Lemma loose_trimEnd (b : bool) (s : string) :
  looseFrom b s = true ->
  Js.trimEnd s = "" \/ tidyFrom b (Js.trimEnd s) = true.
Proof.
  revert b. induction s as [|c r IH]; intros b; [left; reflexivity|].
  cbn [looseFrom Js.trimEnd].
  destruct (Js.isAlnum c) eqn:Hc.
  - intros H. right. destruct (IH _ H) as [E|E].
    + rewrite E. rewrite (alnum_not_space _ Hc). simpl. rewrite Hc. reflexivity.
    + destruct (Js.trimEnd r) as [|c' r'] eqn:Hr.
      * rewrite (alnum_not_space _ Hc). simpl. rewrite Hc. reflexivity.
      * cbn [tidyFrom]. rewrite Hc. exact E.
  - intros H. apply andb_prop in H as [H Hr]. apply andb_prop in H as [Hb Hn].
    pose proof (blank_is_space _ Hb). subst c.
    destruct (IH _ Hr) as [E|E].
    + left. rewrite E. reflexivity.
    + right. destruct (Js.trimEnd r) as [|c' r'] eqn:Hr'; [discriminate|].
      cbn [tidyFrom]. rewrite Hc, Hn. exact E.
Qed.

Lemma normalizeText_normalForm (text : string) :
  normalForm (normalizeText text) = true.
Proof.
  unfold normalizeText. destruct (Js.isEmpty text); [reflexivity|].
  unfold Js.replaceRuns, Js.trim.
  pose proof (replaceRuns_loose false (Js.toLowerCase text)) as H.
  rewrite (loose_replaceSpaces _ _ H).
  apply loose_trimStart in H. apply loose_trimEnd in H as [E|E].
  - rewrite E. reflexivity.
  - unfold normalForm. rewrite E. apply orb_true_r.
Qed.

Lemma tidy_loose (b : bool) (s : string) :
  tidyFrom b s = true -> looseFrom b s = true.
Proof.
  revert b. induction s as [|c r IH]; intros b; simpl; [reflexivity|].
  destruct (Js.isAlnum c); [apply IH|].
  intros H. apply andb_prop in H as [H Hr]. rewrite H. apply IH, Hr.
Qed.

Lemma tidy_toLowerCase (b : bool) (s : string) :
  tidyFrom b s = true -> Js.toLowerCase s = s.
Proof.
  revert b. induction s as [|c r IH]; intros b; simpl; [reflexivity|].
  destruct (Js.isAlnum c) eqn:Hc.
  - intros H. rewrite (alnum_lower _ Hc), (IH _ H). reflexivity.
  - intros H. apply andb_prop in H as [H Hr]. apply andb_prop in H as [Hb _].
    apply blank_is_space in Hb. subst c. rewrite (IH _ Hr). reflexivity.
Qed.

Lemma tidy_replaceRuns (b : bool) (s : string) :
  tidyFrom b s = true ->
  Js.replaceRunsFrom (fun c => negb (Js.isAlnum c)) b s = s.
Proof.
  revert b. induction s as [|c r IH]; intros b; simpl; [reflexivity|].
  destruct (Js.isAlnum c) eqn:Hc; simpl.
  - intros H. rewrite (IH _ H). reflexivity.
  - intros H. apply andb_prop in H as [H Hr]. apply andb_prop in H as [Hb Hn].
    apply blank_is_space in Hb. subst c. destruct b; [discriminate|].
    rewrite (IH _ Hr). reflexivity.
Qed.

Lemma tidy_trimEnd (b : bool) (s : string) :
  tidyFrom b s = true -> Js.trimEnd s = s.
Proof.
  revert b. induction s as [|c r IH]; intros b; [reflexivity|].
  cbn [tidyFrom Js.trimEnd].
  destruct (Js.isAlnum c) eqn:Hc.
  - intros H. rewrite (IH _ H). destruct r; [|reflexivity].
    rewrite (alnum_not_space _ Hc). reflexivity.
  - intros H. apply andb_prop in H as [H Hr]. rewrite (IH _ Hr).
    destruct r; [discriminate|reflexivity].
Qed.

Lemma tidy_trimStart (s : string) :
  tidyFrom true s = true -> Js.trimStart s = s.
Proof.
  destruct s as [|c r]; [reflexivity|]. cbn [tidyFrom Js.trimStart].
  destruct (Js.isAlnum c) eqn:Hc.
  - rewrite (alnum_not_space _ Hc). reflexivity.
  - rewrite andb_false_r. discriminate.
Qed.

Lemma normalForm_fixed (s : string) :
  normalForm s = true -> normalizeText s = s.
Proof.
  unfold normalForm, normalizeText. destruct s as [|c r]; [reflexivity|].
  simpl Js.isEmpty. cbv iota. change (false || ?x) with x.
  generalize (String c r). clear c r. intros s H.
  unfold Js.replaceRuns, Js.trim.
  rewrite (tidy_toLowerCase _ _ H).
  assert (tidyFrom false s = true) as H0.
  { destruct s as [|c r]; [reflexivity|]. cbn [tidyFrom] in *.
    destruct (Js.isAlnum c); [exact H|].
    rewrite andb_false_r in H. discriminate. }
  rewrite (tidy_replaceRuns _ _ H0).
  rewrite (loose_replaceSpaces _ _ (tidy_loose _ _ H0)).
  rewrite (tidy_trimStart _ H). apply (tidy_trimEnd _ _ H).
Qed.

Lemma tidy_allChars (b : bool) (s : string) :
  tidyFrom b s = true -> allChars isAlnumOrBlank s = true.
Proof.
  revert b. induction s as [|c r IH]; intros b; simpl; [reflexivity|].
  unfold isAlnumOrBlank at 1. destruct (Js.isAlnum c); simpl.
  - apply IH.
  - intros H. apply andb_prop in H as [H Hr]. apply andb_prop in H as [Hb _].
    rewrite Hb. apply (IH _ Hr).
Qed.

Lemma append_cons (c : ascii) (a b : string) :
  String c a +:+ b = String c (a +:+ b).
Proof. reflexivity. Qed.

Lemma append_nil_l (b : string) : "" +:+ b = b.
Proof. reflexivity. Qed.

Lemma append_nil_r (a : string) : a +:+ "" = a.
Proof. induction a as [|c r IH]; [reflexivity|]. rewrite append_cons, IH. reflexivity. Qed.

Lemma append_assoc (a b c : string) : (a +:+ b) +:+ c = a +:+ (b +:+ c).
Proof.
  induction a as [|x r IH]; [reflexivity|].
  rewrite !append_cons, IH. reflexivity.
Qed.

Lemma prefix_spec (needle hay : string) :
  String.prefix needle hay = true <-> exists post, hay = needle +:+ post.
Proof.
  revert hay. induction needle as [|c r IH]; intros hay.
  - destruct hay; simpl; split; eauto.
  - destruct hay as [|c' r']; simpl.
    + split; [discriminate|]. intros [post H]. discriminate H.
    + destruct (ascii_dec c c') as [->|Hne].
      * rewrite IH. split; intros [post H]; exists post.
        -- rewrite append_cons, H. reflexivity.
        -- rewrite append_cons in H. congruence.
      * split; [discriminate|]. intros [post H].
        rewrite append_cons in H. congruence.
Qed.

(** [hay.includes(needle)] holds exactly when [needle] occurs in [hay]. *)
Lemma includes_spec (hay needle : string) :
  Js.includes hay needle = true
  <-> exists pre post, hay = pre +:+ needle +:+ post.
Proof.
  induction hay as [|c r IH]; cbn [Js.includes].
  - destruct (String.prefix needle "") eqn:Hp.
    + split; [|reflexivity]. intros _. apply prefix_spec in Hp as [post H].
      exists "", post. exact H.
    + split; [discriminate|]. intros [pre [post H]].
      destruct pre; [|discriminate H].
      rewrite append_nil_l in H.
      assert (String.prefix needle "" = true) as Hp'
          by (apply prefix_spec; eauto).
      congruence.
  - destruct (String.prefix needle (String c r)) eqn:Hp.
    + split; [|reflexivity]. intros _. apply prefix_spec in Hp as [post H].
      exists "", post. exact H.
    + rewrite IH. split.
      * intros [pre [post H]]. exists (String c pre), post.
        rewrite append_cons, H. reflexivity.
      * intros [pre [post H]]. destruct pre as [|c' pre'].
        -- rewrite append_nil_l in H.
           assert (String.prefix needle (String c r) = true) as Hp'
               by (apply prefix_spec; eauto).
           congruence.
        -- rewrite append_cons in H. injection H as _ H. eauto.
Qed.

Lemma split_nonempty (sep : ascii -> bool) (s : string) :
  exists h t, Js.split sep s = h :: t.
Proof.
  destruct s as [|c r]; simpl; [eauto|].
  destruct (sep c); [eauto|]. destruct (Js.split sep r); eauto.
Qed.

Lemma split_app_sep (sep : ascii -> bool) (a b : string) (c : ascii) :
  sep c = true ->
  Js.split sep (a +:+ String c b) = Js.split sep a ++ Js.split sep b.
Proof.
  intros Hc. induction a as [|x r IH].
  - rewrite append_nil_l. simpl. rewrite Hc. reflexivity.
  - rewrite append_cons. cbn [Js.split]. rewrite IH.
    destruct (sep x); [reflexivity|].
    destruct (split_nonempty sep r) as [h [t E]]. rewrite E. reflexivity.
Qed.

Lemma spaced_app (l1 l2 : list string) :
  spaced (l1 ++ l2) = spaced l1 +:+ spaced l2.
Proof.
  induction l1 as [|w r IH]; [reflexivity|].
  cbn [spaced app]. rewrite IH, !append_cons, !append_nil_l, append_assoc.
  reflexivity.
Qed.

Lemma spaced_wordsOf (s : string) : spaced (wordsOf s) = " " +:+ s.
Proof.
  unfold wordsOf. induction s as [|c r IH]; [reflexivity|].
  cbn [Js.split]. destruct (isBlank c) eqn:Hc.
  - apply blank_is_space in Hc. subst c. cbn [spaced]. rewrite IH. reflexivity.
  - destruct (split_nonempty isBlank r) as [h [t E]]. rewrite E in *.
    cbn [spaced] in *. rewrite !append_cons, !append_nil_l in *.
    injection IH as IH. rewrite IH. reflexivity.
Qed.

Lemma spaced_tail (l : list string) :
  exists post, spaced l +:+ " " = " " +:+ post.
Proof.
  destruct l as [|w r]; [exists ""; reflexivity|].
  cbn [spaced]. rewrite !append_cons, append_nil_l. eauto.
Qed.

Lemma app_split_last {A} (l : list A) :
  l <> [] -> exists init x, l = init ++ [x].
Proof.
  intros H. destruct (exists_last H) as [init [x E]]. eauto.
Qed.

(** A token matches exactly when its words occur in the text as
    consecutive whole words. *)
Lemma containsToken_words (text token : string) :
  containsToken text token = true
  <-> text <> "" /\ token <> ""
      /\ exists before after,
           wordsOf text = before ++ wordsOf token ++ after.
Proof.
  unfold containsToken.
  destruct text as [|c r]; [simpl; split; [discriminate|tauto]|].
  destruct token as [|c' r'].
  { simpl. split; [discriminate|]. intros [_ [H _]]. congruence. }
  set (text := String c r). set (token := String c' r').
  simpl Js.isEmpty. simpl orb. cbv iota zeta.
  rewrite includes_spec. split.
  - intros [pre [post H]]. split; [discriminate|]. split; [discriminate|].
    apply (f_equal wordsOf) in H. unfold wordsOf in *.
    rewrite !append_cons, !append_nil_l in H.
    rewrite append_assoc in H.
    rewrite !append_cons, !append_nil_l in H.
    change (String " " (text +:+ " ")) with ("" +:+ String " " (text +:+ String " " "")) in H.
    rewrite !(split_app_sep isBlank _ _ " "%char eq_refl) in H.
    simpl (Js.split isBlank "") in H.
    destruct (split_nonempty isBlank pre) as [h [t Ep]]. rewrite Ep in H.
    destruct (split_nonempty isBlank post) as [h' [t' Eq]].
    assert (Js.split isBlank post <> []) as Hne by (rewrite Eq; discriminate).
    destruct (app_split_last _ Hne) as [init [x Ei]]. rewrite Ei in H.
    cbn [app] in H. injection H as _ H.
    rewrite !app_assoc in H. apply app_inj_tail in H as [H _].
    exists t, init. etransitivity; [exact H|].
    rewrite <- !app_assoc. reflexivity.
  - intros [_ [_ [before [after H]]]].
    pose proof (spaced_wordsOf text) as Ht. rewrite H, !spaced_app in Ht.
    rewrite (spaced_wordsOf token) in Ht.
    destruct (spaced_tail after) as [post Hp].
    exists (spaced before), post.
    transitivity ((" " +:+ text) +:+ " "); [symmetry; apply append_assoc|].
    rewrite <- Ht, !append_assoc, Hp. reflexivity.
Qed.

Lemma tidy_words (b : bool) (s : string) :
  tidyFrom b s = true ->
  exists w ws, wordsOf s = w :: ws
               /\ (b = true -> Js.truthy w = true)
               /\ allChars Js.isAlnum w = true
               /\ Forall (fun x => alnumWord x = true) ws.
Proof.
  unfold wordsOf. revert b. induction s as [|c r IH]; intros b; cbn [tidyFrom Js.split].
  - intros H. exists "", []. destruct b; [discriminate|].
    repeat split; [discriminate|constructor].
  - destruct (Js.isAlnum c) eqn:Hc.
    + intros H. destruct (IH _ H) as [w [ws [E [_ [Hw Hws]]]]].
      assert (isBlank c = false) as Hb.
      { destruct (isBlank c) eqn:Hb; [|reflexivity].
        rewrite (blank_not_alnum _ Hb) in Hc. discriminate. }
      rewrite Hb, E. exists (String c w), ws.
      repeat split; [|exact Hws]. simpl. rewrite Hc. exact Hw.
    + intros H. apply andb_prop in H as [H Hr]. apply andb_prop in H as [Hb Hn].
      destruct (IH _ Hr) as [w [ws [E [Ht [Hw Hws]]]]].
      rewrite Hb, E. exists "", (w :: ws). destruct b; [discriminate|].
      repeat split; [discriminate|]. constructor; [|exact Hws].
      unfold alnumWord. rewrite (Ht eq_refl), Hw. reflexivity.
Qed.

Lemma toLowerCase_idem (s : string) :
  Js.toLowerCase (Js.toLowerCase s) = Js.toLowerCase s.
Proof.
  induction s as [|c r IH]; simpl; [reflexivity|]. rewrite IH. f_equal.
  each_char c.
Qed.

Lemma toLowerCase_app (a b : string) :
  Js.toLowerCase (a +:+ b) = Js.toLowerCase a +:+ Js.toLowerCase b.
Proof.
  induction a as [|c r IH]; [reflexivity|].
  rewrite append_cons. simpl. rewrite IH. reflexivity.
Qed.

Lemma normalizeText_lower (a b : string) :
  Js.toLowerCase a = Js.toLowerCase b -> normalizeText a = normalizeText b.
Proof.
  unfold normalizeText. intros H. rewrite H.
  destruct a, b; try reflexivity; discriminate H.
Qed.

Lemma containsAny_exists (text : string) (tokens : list string) :
  containsAny text tokens = true
  <-> exists token, In token tokens /\ containsToken text token = true.
Proof.
  induction tokens as [|t rest IH]; simpl.
  - split; [discriminate|]. intros [? [[] _]].
  - destruct (containsToken text t) eqn:Ht.
    + split; [|reflexivity]. intros _. exists t. auto.
    + rewrite IH. split.
      * intros [x [Hin Hx]]. exists x. auto.
      * intros [x [[->|Hin] Hx]]; [congruence|]. exists x. auto.
Qed.

Lemma containsAny_incl (text : string) (l l' : list string) :
  incl l l' -> containsAny text l = true -> containsAny text l' = true.
Proof.
  intros Hi H. apply containsAny_exists in H as [t [Hin Ht]].
  apply containsAny_exists. exists t. split; [apply Hi, Hin|exact Ht].
Qed.

Lemma normalizeList_tokens (listValue : ListValue) :
  Forall (fun token => Js.truthy token = true /\ normalizeText token = token)
    (normalizeList listValue).
Proof.
  assert (forall items,
             Forall (fun token => Js.truthy token = true
                                  /\ normalizeText token = token)
               (Js.filterBoolean (List.map normalizeText items))) as H.
  { induction items as [|x rest IH]; simpl; [constructor|].
    destruct (Js.truthy (normalizeText x)) eqn:Ht; [|exact IH].
    constructor; [|exact IH]. split; [exact Ht|].
    apply normalForm_fixed, normalizeText_normalForm. }
  destruct listValue; simpl; [apply H|apply H|constructor].
Qed.

(** X1: the result of [normalizeText] is either the empty string or a
    sequence of non-empty words of [[a-z0-9]] separated by single
    spaces: it has no other character, no space at either end and no two
    spaces in a row, so trimming it changes nothing. *)
Theorem normalizeText_words (text : string) :
  (normalizeText text = ""
   \/ Forall (fun word => alnumWord word = true)
        (wordsOf (normalizeText text)))
  /\ allChars isAlnumOrBlank (normalizeText text) = true
  /\ Js.trim (normalizeText text) = normalizeText text.
Proof.
  pose proof (normalizeText_normalForm text) as H. unfold normalForm in H.
  destruct (normalizeText text) as [|c r] eqn:E;
    [repeat split; left; reflexivity|].
  change (tidyFrom true (String c r) = true) in H.
  generalize dependent (String c r). intros s _ H. split; [|split].
  - right. destruct (tidy_words _ _ H) as (w & ws & Ew & Ht & Hw & Hws).
    rewrite Ew. constructor; [|exact Hws].
    unfold alnumWord. rewrite (Ht eq_refl), Hw. reflexivity.
  - apply (tidy_allChars _ _ H).
  - unfold Js.trim. rewrite (tidy_trimStart _ H). apply (tidy_trimEnd _ _ H).
Qed.

(** X2: [normalizeText] is idempotent, and it does not see the case of
    letters: normalizing a normalized text, or the lower-cased text,
    gives the same result. *)
Theorem normalizeText_idempotent (text : string) :
  normalizeText (normalizeText text) = normalizeText text
  /\ normalizeText (Js.toLowerCase text) = normalizeText text.
Proof.
  split.
  - apply normalForm_fixed, normalizeText_normalForm.
  - apply normalizeText_lower, toLowerCase_idem.
Qed.

(** X3: [containsToken] matches whole words only.  For a non-empty text
    and token it answers true exactly when the words of the token occur
    in the text as consecutive whole words (words being the pieces
    between spaces); for an empty text or token it answers false. *)
Theorem containsToken_whole_words (text token : string) :
  (containsToken text token = true
   <-> text <> "" /\ token <> ""
       /\ exists before after,
            wordsOf text = before ++ wordsOf token ++ after)
  /\ containsToken "" token = false
  /\ containsToken text "" = false.
Proof.
  split; [apply containsToken_words|]. split; [reflexivity|].
  unfold containsToken. destruct (Js.isEmpty text); reflexivity.
Qed.

(** X4: for settings whose keyword lists are arrays of strings, single
    strings or values of another type, every token of the matchers
    that [buildMatchers] derives from them is non-empty and already
    normalized, whatever the strings hold; a keyword list that is
    neither an array nor a string gives no token.  (An array with an
    element that is not a string is not covered: on a truthy one
    [normalizeText] throws.) *)
Theorem buildMatchers_tokens (currentSettings : Settings) :
  let ok := fun token => Js.truthy token = true /\ normalizeText token = token in
  Forall ok (strong (buildMatchers currentSettings))
  /\ Forall ok (moderate (buildMatchers currentSettings))
  /\ Forall ok (non (buildMatchers currentSettings))
  /\ Forall ok (channel_ (buildMatchers currentSettings))
  /\ normalizeList LOther = [].
Proof.
  intros ok. unfold buildMatchers. simpl.
  repeat split; try apply normalizeList_tokens.
Qed.

(** X5: classification does not see the case of letters: two items
    whose titles and channel names agree up to case, with the same
    parsed duration, get the same decision and reason. *)
Theorem classifyVideo_ignores_case (settings : Settings) (matchers : Matchers)
  (data data' : VideoData) :
  Js.toLowerCase (title data') = Js.toLowerCase (title data) ->
  Js.toLowerCase (channel data') = Js.toLowerCase (channel data) ->
  durationSeconds data' = durationSeconds data ->
  classifyVideo settings matchers data' = classifyVideo settings matchers data.
Proof.
  intros Ht Hc Hd. unfold classifyVideo, combinedText.
  rewrite (normalizeText_lower (title data' +:+ " " +:+ channel data')
             (title data +:+ " " +:+ channel data)).
  - rewrite (normalizeText_lower _ _ Hc), Hd. reflexivity.
  - rewrite !toLowerCase_app, Ht, Hc. reflexivity.
Qed.

(** The tiles ["BACH Cello Suite"] and ["bach cello suite"]. *)
Lemma classifyVideo_ignores_case_witness :
  let s := settingsWith ["cello suite"] [] [] [] "hide" in
  classifyVideo s (buildMatchers s)
    (extractVideoData (fieldsOf "BACH Cello Suite" "Some Channel" "3:10" None))
  = classifyVideo s (buildMatchers s)
      (extractVideoData (fieldsOf "bach cello suite" "some channel" "3:10" None)).
Proof.
  apply (classifyVideo_ignores_case
           (settingsWith ["cello suite"] [] [] [] "hide")
           (buildMatchers (settingsWith ["cello suite"] [] [] [] "hide"))
           (extractVideoData
              (fieldsOf "bach cello suite" "some channel" "3:10" None))
           (extractVideoData
              (fieldsOf "BACH Cello Suite" "Some Channel" "3:10" None)));
    reflexivity.
Defined.

(** X6: the keyword lists are monotone.  Adding tokens to the strong
    list never turns a match into a non-match, and adding tokens to the
    negative list never turns a non-match into a match, the other lists
    and the item being the same. *)
Theorem classifyVideo_monotone (settings : Settings) (m m' : Matchers)
  (data : VideoData) :
  moderate m' = moderate m -> channel_ m' = channel_ m ->
  (incl (strong m) (strong m') -> non m' = non m ->
   Result.isMusic (classifyVideo settings m data) = true ->
   Result.isMusic (classifyVideo settings m' data) = true)
  /\ (incl (non m) (non m') -> strong m' = strong m ->
      Result.isMusic (classifyVideo settings m data) = false ->
      Result.isMusic (classifyVideo settings m' data) = false).
Proof.
  intros Hm Hc. unfold classifyVideo. rewrite Hm, Hc. split.
  - intros Hs -> H.
    destruct (containsAny (combinedText data) (strong m)) eqn:E.
    + rewrite (containsAny_incl _ _ _ Hs E). reflexivity.
    + destruct (containsAny (combinedText data) (strong m')); [reflexivity|].
      exact H.
  - intros Hn -> H.
    destruct (containsAny (combinedText data) (strong m)); [discriminate H|].
    destruct (containsAny (combinedText data) (non m)) eqn:E.
    + rewrite (containsAny_incl _ _ _ Hn E). reflexivity.
    + destruct (containsAny (combinedText data) (non m')); [reflexivity|].
      exact H.
Qed.

(** The lists of [settingsWith], with the strong list extended by
    ["remix"] and the negative list by ["podcast"]. *)
Lemma classifyVideo_monotone_witness :
  let m := buildMatchers (settingsWith ["official audio"] ["music"] ["live"] [] "hide") in
  let m1 := buildMatchers
              (settingsWith ["official audio"; "remix"] ["music"] ["live"] [] "hide") in
  let data := extractVideoData (fieldsOf "Song (Official Audio)" "" "3:10" None) in
  Result.isMusic
    (classifyVideo (settingsWith ["official audio"] ["music"] ["live"] [] "hide")
       m data) = true
  /\ Result.isMusic
       (classifyVideo (settingsWith ["official audio"] ["music"] ["live"] [] "hide")
          m1 data) = true.
Proof.
  split; [reflexivity|].
  refine (proj1 (classifyVideo_monotone
                   (settingsWith ["official audio"] ["music"] ["live"] [] "hide")
                   (buildMatchers
                      (settingsWith ["official audio"] ["music"] ["live"] [] "hide"))
                   (buildMatchers
                      (settingsWith ["official audio"; "remix"] ["music"] ["live"]
                         [] "hide"))
                   (extractVideoData
                      (fieldsOf "Song (Official Audio)" "" "3:10" None))
                   eq_refl eq_refl) _ eq_refl eq_refl).
  intros token Hin. simpl in *. tauto.
Defined.

(** ** Durations as clock texts *)

Lemma keepChars_all (p : ascii -> bool) (s : string) :
  allChars p s = true -> Js.keepChars p s = s.
Proof.
  induction s as [|c r IH]; simpl; [reflexivity|].
  intros H. apply andb_prop in H as [Hc Hr]. rewrite Hc, (IH Hr). reflexivity.
Qed.

Lemma allChars_app (p : ascii -> bool) (a b : string) :
  allChars p (a +:+ b) = allChars p a && allChars p b.
Proof.
  induction a as [|c r IH]; [reflexivity|].
  rewrite append_cons. simpl. rewrite IH, andb_assoc. reflexivity.
Qed.

Lemma allChars_impl (p q : ascii -> bool) (s : string) :
  (forall c, p c = true -> q c = true) ->
  allChars p s = true -> allChars q s = true.
Proof.
  intros Hpq. induction s as [|c r IH]; simpl; [reflexivity|].
  intros H. apply andb_prop in H as [Hc Hr]. rewrite (Hpq _ Hc), (IH Hr).
  reflexivity.
Qed.

Lemma digitString_all (s : string) :
  digitString s = true -> allChars Js.isDigit s = true.
Proof. unfold digitString. intros H. apply andb_prop in H as [_ H]. exact H. Qed.

Lemma joinWith_cons (sep : ascii) (x : string) (rest : list string) :
  rest <> [] ->
  joinWith sep (x :: rest) = x +:+ String sep (joinWith sep rest).
Proof. destruct rest; [congruence|reflexivity]. Qed.

Lemma split_whole (p : ascii -> bool) (s : string) :
  allChars (fun c => negb (p c)) s = true -> Js.split p s = [s].
Proof.
  induction s as [|c r IH]; simpl; [reflexivity|].
  intros H. apply andb_prop in H as [Hc Hr]. rewrite (IH Hr).
  apply negb_true_iff in Hc. rewrite Hc. reflexivity.
Qed.

(** Splitting undoes joining, when no part holds a separator. *)
Lemma split_joinWith (p : ascii -> bool) (sep : ascii) (parts : list string) :
  p sep = true ->
  parts <> [] ->
  Forall (fun part => allChars (fun c => negb (p c)) part = true) parts ->
  Js.split p (joinWith sep parts) = parts.
Proof.
  intros Hsep. induction parts as [|x rest IH]; [congruence|]. intros _ H.
  inversion H as [|? ? Hx Hrest]; subst.
  destruct rest as [|y rest'].
  - simpl. apply split_whole, Hx.
  - rewrite joinWith_cons by discriminate.
    rewrite (split_app_sep p _ _ sep Hsep), (split_whole _ _ Hx).
    rewrite IH by (discriminate || exact Hrest). reflexivity.
Qed.

Lemma digits_no_colon (s : string) :
  allChars Js.isDigit s = true ->
  allChars (fun c => negb (isColon c)) s = true.
Proof.
  apply allChars_impl. intros c Hc.
  destruct (isColon c) eqn:Hcol; [|reflexivity].
  rewrite (colon_not_digit _ Hcol) in Hc. discriminate.
Qed.

Lemma split_joinColon (parts : list string) :
  parts <> [] ->
  Forall (fun part => digitString part = true) parts ->
  Js.split isColon (joinColon parts) = parts.
Proof.
  intros Hne H. apply (split_joinWith isColon ":"%char); [reflexivity|exact Hne|].
  eapply List.Forall_impl; [|exact H].
  intros part Hp. apply digits_no_colon, digitString_all, Hp.
Qed.

Lemma joinColon_cons (x : string) (rest : list string) :
  rest <> [] -> joinColon (x :: rest) = x +:+ String ":" (joinColon rest).
Proof. apply joinWith_cons. Qed.

Lemma joinColon_chars (parts : list string) :
  Forall (fun part => digitString part = true) parts ->
  allChars Js.isDigitOrColon (joinColon parts) = true.
Proof.
  induction 1 as [|x rest Hx _ IH]; [reflexivity|].
  assert (allChars Js.isDigitOrColon x = true) as Hx'.
  { eapply allChars_impl; [apply digit_is_digitOrColon|].
    apply digitString_all, Hx. }
  destruct rest as [|y rest']; [exact Hx'|].
  rewrite joinColon_cons by discriminate.
  rewrite allChars_app, Hx'. simpl. exact IH.
Qed.

Lemma testChar_app_l (p : ascii -> bool) (a b : string) :
  Js.testChar p a = true -> Js.testChar p (a +:+ b) = true.
Proof.
  induction a as [|c r IH]; [discriminate|].
  rewrite append_cons. simpl. destruct (p c); [reflexivity|]. exact IH.
Qed.

Lemma digitString_testChar (s : string) :
  digitString s = true -> Js.testChar Js.isDigit s = true.
Proof.
  unfold digitString. destruct s as [|c r]; [discriminate|]. simpl.
  intros H. apply andb_prop in H as [Hc _]. rewrite Hc. reflexivity.
Qed.

Lemma joinColon_testChar (parts : list string) :
  parts <> [] ->
  Forall (fun part => digitString part = true) parts ->
  Js.testChar Js.isDigit (joinColon parts) = true.
Proof.
  destruct parts as [|x rest]; [congruence|]. intros _ H.
  inversion H as [|? ? Hx Hrest]; subst.
  destruct rest as [|y rest']; [apply digitString_testChar, Hx|].
  rewrite joinColon_cons by discriminate.
  apply testChar_app_l, digitString_testChar, Hx.
Qed.

Lemma filterBoolean_digitStrings (parts : list string) :
  Forall (fun part => digitString part = true) parts ->
  Js.filterBoolean parts = parts.
Proof.
  induction 1 as [|x rest Hx _ IH]; [reflexivity|]. simpl.
  unfold digitString in Hx. apply andb_prop in Hx as [Hx _].
  rewrite Hx. f_equal. exact IH.
Qed.

(** Only the digits and colons of a text matter: when they spell the
    digit strings [parts] joined by colons, these are the parts of the
    text, and the text has a digit. *)
Lemma durationParts_skeleton (text : string) (parts : list string) :
  parts <> [] ->
  Forall (fun part => digitString part = true) parts ->
  Js.keepChars Js.isDigitOrColon text = joinColon parts ->
  Js.testChar Js.isDigit text = true /\ durationParts text = parts.
Proof.
  intros Hne Hparts Hk. split.
  - rewrite <- testChar_keepChars, Hk. apply joinColon_testChar; assumption.
  - unfold durationParts.
    rewrite Hk, (split_joinColon _ Hne Hparts).
    apply filterBoolean_digitStrings, Hparts.
Qed.

Lemma durationToSeconds_skeleton (text : string) (parts : list string) :
  parts <> [] ->
  Forall (fun part => digitString part = true) parts ->
  Js.keepChars Js.isDigitOrColon text = joinColon parts ->
  length parts <= 174 ->
  (positional (List.rev (List.map segmentValue parts)) <= 2 ^ 53)%Z ->
  durationToSeconds text
  = Some (Js.Finite (positional (List.rev (List.map segmentValue parts)))).
Proof.
  intros Hne Hparts Hk Hlen Hsum.
  destruct (durationParts_skeleton text parts Hne Hparts Hk) as [Hd E].
  rewrite <- E in *. apply durationToSeconds_exact; assumption.
Qed.

Lemma digitsFrom_app (acc : Z) (a b : string) :
  Js.digitsFrom acc (a +:+ b) = Js.digitsFrom (Js.digitsFrom acc a) b.
Proof.
  revert acc. induction a as [|c r IH]; intros acc; [reflexivity|].
  rewrite append_cons. simpl. apply IH.
Qed.

Lemma pretty_N_char_digit (y : N) :
  (y < 10)%N ->
  Js.isDigit (pretty_N_char y) = true
  /\ Js.digitValue (pretty_N_char y) = Z.of_N y.
Proof.
  intros H.
  assert (y = 0 \/ y = 1 \/ y = 2 \/ y = 3 \/ y = 4 \/ y = 5 \/ y = 6
          \/ y = 7 \/ y = 8 \/ y = 9)%N as Hy by lia.
  repeat (destruct Hy as [->|Hy]; [split; reflexivity|]).
  subst y. split; reflexivity.
Qed.

Lemma pretty_N_go_digits (x : N) :
  exists d, (forall s, pretty_N_go x s = d +:+ s)
            /\ allChars Js.isDigit d = true
            /\ ((0 < x)%N -> Js.truthy d = true)
            /\ Js.digitsFrom 0 d = Z.of_N x.
Proof.
  induction (N.lt_wf_0 x) as [x _ IH].
  destruct (N.eq_dec x 0%N) as [->|Hx].
  - exists "". repeat split; [intros H; lia].
  - assert (0 < x)%N as Hpos by lia.
    destruct (IH (x `div` 10)%N) as [d [Hd [Hall [_ Hval]]]].
    { apply N.div_lt; lia. }
    destruct (pretty_N_char_digit (x `mod` 10)%N) as [Hc Hv].
    { apply N.mod_lt. lia. }
    exists (d +:+ String (pretty_N_char (x `mod` 10)) "").
    split; [|split; [|split]].
    + intros s. rewrite (pretty_N_go_step _ _ Hpos), Hd, append_assoc.
      reflexivity.
    + rewrite allChars_app, Hall. simpl. rewrite Hc. reflexivity.
    + intros _. destruct d; reflexivity.
    + rewrite digitsFrom_app, Hval. simpl. rewrite Hv.
      pose proof (N.div_mod x 10 ltac:(lia)). lia.
Qed.

(** The decimal numeral of [n] is a digit string that denotes [n]. *)
Lemma pretty_digitString (n : N) :
  digitString (pretty n) = true /\ segmentValue (pretty n) = Z.of_N n.
Proof.
  unfold pretty, pretty_N. destruct (decide (n = 0%N)) as [->|Hn].
  - split; reflexivity.
  - destruct (pretty_N_go_digits n) as [d [Hd [Hall [Ht Hval]]]].
    rewrite Hd, append_nil_r. unfold digitString, segmentValue.
    rewrite Hall, Ht by lia. split; [reflexivity|exact Hval].
Qed.

Lemma clockText_duration (ns : list N) :
  ns <> [] ->
  length ns <= 174 ->
  (positional (List.rev (List.map Z.of_N ns)) <= 2 ^ 53)%Z ->
  durationToSeconds (clockText ns)
  = Some (Js.Finite (positional (List.rev (List.map Z.of_N ns)))).
Proof.
  intros Hne Hlen Hsum. unfold clockText.
  assert (List.map segmentValue (List.map pretty ns) = List.map Z.of_N ns)
    as Hvalues.
  { rewrite List.map_map. apply List.map_ext.
    intros n. apply pretty_digitString. }
  assert (Forall (fun part => digitString part = true) (List.map pretty ns))
    as Hdigits.
  { apply List.Forall_map. apply List.Forall_forall. intros n _.
    apply pretty_digitString. }
  rewrite (durationToSeconds_skeleton _ (List.map pretty ns)).
  - rewrite Hvalues. reflexivity.
  - destruct ns; [congruence|discriminate].
  - exact Hdigits.
  - apply keepChars_all, joinColon_chars, Hdigits.
  - rewrite length_map. exact Hlen.
  - rewrite Hvalues. exact Hsum.
Qed.

(** X7: only the digits and the colons of a duration text matter.  When
    they spell at most 174 non-empty digit strings joined by single
    colons, and the positional sum of the numbers these strings denote,
    with weights 1, 60, 3600, ... from the right, is at most 2^53, the
    result is that sum; letters, spaces and any other characters around
    or between them change nothing. *)
Theorem durationToSeconds_digits_and_colons (text : string)
  (parts : list string) :
  parts <> [] ->
  Forall (fun part => digitString part = true) parts ->
  Js.keepChars Js.isDigitOrColon text = joinColon parts ->
  length parts <= 174 ->
  (positional (List.rev (List.map segmentValue parts)) <= 2 ^ 53)%Z ->
  durationToSeconds text
  = Some (Js.Finite (positional (List.rev (List.map segmentValue parts)))).
Proof. apply durationToSeconds_skeleton. Qed.

(** The badge text ["1:02:03 min"]. *)
Lemma durationToSeconds_digits_and_colons_witness :
  durationToSeconds "1:02:03 min" = Some (Js.Finite 3723).
Proof.
  apply (durationToSeconds_digits_and_colons "1:02:03 min" ["1"; "02"; "03"]).
  - discriminate.
  - repeat constructor.
  - reflexivity.
  - simpl. lia.
  - apply Z.leb_le. vm_compute. reflexivity.
Defined.

(** X8: a clock text is read as the number of seconds it denotes, as
    long as that number is at most 2^53: for natural numbers [n_k], ...,
    [n_0] (at least one, at most 174) the decimal numerals joined by
    colons parse to the sum of [n_i * 60^i]; so [m:s] gives [60 m + s]
    and [h:m:s] gives [3600 h + 60 m + s]. *)
Theorem durationToSeconds_clock (ns : list N) :
  ns <> [] ->
  length ns <= 174 ->
  (positional (List.rev (List.map Z.of_N ns)) <= 2 ^ 53)%Z ->
  durationToSeconds (clockText ns)
  = Some (Js.Finite (positional (List.rev (List.map Z.of_N ns))))
  /\ (forall m s : N,
        (60 * Z.of_N m + Z.of_N s <= 2 ^ 53)%Z ->
        durationToSeconds (clockText [m; s])
        = Some (Js.Finite (60 * Z.of_N m + Z.of_N s)))
  /\ (forall h m s : N,
        (3600 * Z.of_N h + 60 * Z.of_N m + Z.of_N s <= 2 ^ 53)%Z ->
        durationToSeconds (clockText [h; m; s])
        = Some (Js.Finite (3600 * Z.of_N h + 60 * Z.of_N m + Z.of_N s))).
Proof.
  intros Hne Hlen Hsum. split; [apply clockText_duration; assumption|]. split.
  - intros m s H. rewrite clockText_duration.
    + simpl. do 2 f_equal. lia.
    + discriminate.
    + simpl. lia.
    + simpl. lia.
  - intros h m s H. rewrite clockText_duration.
    + simpl. do 2 f_equal. lia.
    + discriminate.
    + simpl. lia.
    + simpl. lia.
Qed.

(** Seven minutes and five seconds. *)
Lemma durationToSeconds_clock_witness :
  durationToSeconds (clockText [7%N; 5%N]) = Some (Js.Finite 425).
Proof.
  refine (proj1 (durationToSeconds_clock [7%N; 5%N] _ _ _)).
  - discriminate.
  - simpl. lia.
  - apply Z.leb_le. vm_compute. reflexivity.
Defined.

(** ** The visit of one candidate *)

Lemma touches_refl (el : nat) (R : Element -> Element -> Prop) (st : State) :
  (forall e, R e e) -> touches el R st st.
Proof.
  intros HR. split; [reflexivity|].
  destruct (elements st !! el) as [e|]; [|reflexivity]. eauto.
Qed.

Lemma touches_same (el : nat) (R : Element -> Element -> Prop) (st st' : State) :
  (forall e, R e e) -> elements st' = elements st -> touches el R st st'.
Proof.
  intros HR E. unfold touches. rewrite E. apply touches_refl, HR.
Qed.

Lemma touches_trans (el : nat) (R1 R2 R : Element -> Element -> Prop)
  (st1 st2 st3 : State) :
  (forall a b c, R1 a b -> R2 b c -> R a c) ->
  touches el R1 st1 st2 -> touches el R2 st2 st3 -> touches el R st1 st3.
Proof.
  intros HR [F1 H1] [F2 H2]. split.
  - intros x Hx. rewrite F2, F1 by exact Hx. reflexivity.
  - destruct (elements st1 !! el) as [e|].
    + destruct H1 as [e1 [E1 R1e]]. rewrite E1 in H2.
      destruct H2 as [e2 [E2 R2e]]. eauto.
    + rewrite H1 in H2. exact H2.
Qed.

Lemma touches_seq (el : nat) (R1 R2 : Element -> Element -> Prop)
  (st1 st2 st3 : State) :
  touches el R1 st1 st2 -> touches el R2 st2 st3 ->
  touches el (fun a c => exists b, R1 a b /\ R2 b c) st1 st3.
Proof. apply touches_trans. eauto. Qed.

Lemma touches_weaken (el : nat) (R R' : Element -> Element -> Prop)
  (st st' : State) :
  (forall a b, R a b -> R' a b) -> touches el R st st' -> touches el R' st st'.
Proof.
  intros HR [F H]. split; [exact F|].
  destruct (elements st !! el) as [e|]; [|exact H].
  destruct H as [e' [E Re]]. eauto.
Qed.

Lemma touches_updateElement (el : nat) (R : Element -> Element -> Prop)
  (f : Element -> Element) (st : State) :
  (forall e, R e (f e)) -> touches el R st (updateElement el f st).
Proof.
  intros HR. unfold touches, updateElement. simpl. split.
  - intros x Hx. apply lookup_alter_ne. congruence.
  - rewrite lookup_alter_eq. destruct (elements st !! el) as [e|]; simpl; eauto.
Qed.

Lemma touches_updateDataset (el : nat) (R : Element -> Element -> Prop)
  (f : Dataset -> Dataset) (st : State) :
  (forall e, R e (set_dataset (f (dataset e)) e)) ->
  touches el R st (updateDataset el f st).
Proof. intros HR. apply touches_updateElement. exact HR. Qed.

Lemma touches_whenDebug (el : nat) (R : Element -> Element -> Prop)
  (f : State -> State) (st : State) :
  (forall e, R e e) -> (forall s, touches el R s (f s)) ->
  touches el R st (whenDebug f st).
Proof.
  intros HR H. unfold whenDebug. destruct (debugMode _); [apply H|].
  apply touches_refl, HR.
Qed.

Lemma touches_lookup (el : nat) (R : Element -> Element -> Prop)
  (st st' : State) (e : Element) :
  touches el R st st' -> elements st !! el = Some e ->
  exists e', elements st' !! el = Some e' /\ R e e'.
Proof. intros [_ H] E. rewrite E in H. exact H. Qed.

Lemma touches_frame (el x : nat) (R : Element -> Element -> Prop)
  (st st' : State) :
  touches el R st st' -> x <> el -> elements st' !! x = elements st !! x.
Proof. intros [F _] Hx. apply F, Hx. Qed.

Lemma marked_hideElement (el : nat) (st : State) :
  touches el (marked false) st (hideElement el st).
Proof.
  unfold hideElement.
  assert (touches el (marked false) st (updateElement el (set_mvBlocked true) st))
    as H by (apply touches_updateElement; intros e; repeat split).
  destruct (showBlocked _); [exact H|].
  eapply touches_trans; [|exact H|apply (touches_same el eq); [reflexivity|reflexivity]].
  intros a b c Hab <-. exact Hab.
Qed.

Lemma marked_unhideElement (el : nat) (st : State) :
  touches el (marked true) st (unhideElement el st).
Proof.
  unfold unhideElement.
  eapply touches_trans;
    [|apply (touches_updateElement el (fun e e' => e' = set_mvHidden false e));
      reflexivity
     |apply (touches_updateElement el (fun e e' => e' = set_mvBlocked false e));
      reflexivity].
  intros a b c -> ->. repeat split.
Qed.

Lemma marked_applyDecision (el : nat) (isMusic : bool) (st : State) :
  touches el (marked isMusic) st (applyDecision el isMusic st).
Proof.
  unfold applyDecision. destruct isMusic; simpl;
    [apply marked_unhideElement|apply marked_hideElement].
Qed.

Lemma sameIdentity_refl (e : Element) : sameIdentity e e.
Proof. repeat split. Qed.

Lemma sameIdentity_trans (a b c : Element) :
  sameIdentity a b -> sameIdentity b c -> sameIdentity a c.
Proof.
  unfold sameIdentity. intros (A1 & A2 & A3 & A4 & A5 & A6) (B1 & B2 & B3 & B4 & B5 & B6).
  repeat split; congruence.
Qed.

Lemma marked_then_processed (isMusic : bool) (a b c d : Element) :
  marked isMusic a b -> sameIdentity b c ->
  d = set_dataset (set_mvProcessed "1" (dataset c)) c ->
  decidedAs isMusic a d.
Proof.
  unfold marked, sameIdentity, decidedAs.
  intros (A1 & A2 & A3 & A4) (B1 & B2 & B3 & B4 & B5 & B6) ->. simpl.
  repeat split; congruence.
Qed.

Lemma touches_from (el : nat) (R : Element -> Element -> Prop)
  (st0 st st' : State) :
  elements st0 = elements st -> touches el R st st' -> touches el R st0 st'.
Proof. intros E H. unfold touches in *. rewrite E. exact H. Qed.

Lemma touches_to (el : nat) (R : Element -> Element -> Prop)
  (st st' st'' : State) :
  elements st'' = elements st' -> touches el R st st' -> touches el R st st''.
Proof. intros E H. unfold touches in *. rewrite E. exact H. Qed.

Lemma sameIdentity_chain (el : nat) (st1 st2 st3 : State) :
  touches el sameIdentity st1 st2 -> touches el sameIdentity st2 st3 ->
  touches el sameIdentity st1 st3.
Proof. apply touches_trans. exact sameIdentity_trans. Qed.

Lemma decide_chain (el : nat) (isMusic : bool) (st1 st2 st3 : State) :
  touches el (marked isMusic) st1 st2 ->
  touches el sameIdentity st2 st3 ->
  touches el (decidedAs isMusic) st1
    (updateDataset el (set_mvProcessed "1") st3).
Proof.
  intros H12 H23.
  eapply touches_trans with
    (R1 := fun a c => exists b, marked isMusic a b /\ sameIdentity b c)
    (R2 := fun c d => d = set_dataset (set_mvProcessed "1" (dataset c)) c).
  - intros a c d [b [Hab Hbc]] Hd. eapply marked_then_processed; eauto.
  - eapply touches_trans; [|exact H12|exact H23]. eauto.
  - apply touches_updateDataset. reflexivity.
Qed.

Lemma truthyOpt_key (o : option string) :
  truthyOpt o = true -> Js.isEmpty (default "" o) = false.
Proof.
  destruct o as [s|]; [|discriminate]. simpl. unfold Js.truthy.
  destruct (Js.isEmpty s); [discriminate|reflexivity].
Qed.

Lemma sameIdentity_debugAttrs (el : nat) (f : Dataset -> Dataset) (st : State) :
  (forall d, mvEpoch (f d) = mvEpoch d /\ mvKey (f d) = mvKey d
             /\ mvWatchId (f d) = mvWatchId d) ->
  touches el sameIdentity st (updateDataset el f st).
Proof.
  intros Hf. apply touches_updateDataset. intros e.
  destruct (Hf (dataset e)) as (A & B & C). repeat split; assumption.
Qed.

Lemma elements_counters (b : bool) (f1 f2 f3 g : DebugState -> DebugState)
  (s : State) :
  elements (updateDebug g (if b then updateDebug f1 (updateDebug f3 s)
                           else updateDebug f2 (updateDebug f3 s)))
  = elements s.
Proof. destruct b; reflexivity. Qed.

Lemma decidedAs_classifyCandidate (el : nat) (data : VideoData) (st : State) :
  touches el
    (decidedAs (Result.isMusic (classifyVideo (settings st) (matchers st) data)))
    st (classifyCandidate el data st).
Proof.
  unfold classifyCandidate. cbv zeta.
  set (result := classifyVideo (settings st) (matchers st) data).
  eapply decide_chain; [apply marked_applyDecision|].
  eapply touches_to; [apply elements_counters|].
  eapply sameIdentity_chain.
  - apply (touches_same el sameIdentity _
             (if truthyOpt (cacheKey data)
              then cacheSet (default "" (cacheKey data)) (Result.isMusic result)
                     (applyDecision el (Result.isMusic result) st)
              else applyDecision el (Result.isMusic result) st)).
    + exact sameIdentity_refl.
    + destruct (truthyOpt _); [apply elements_cacheSet|reflexivity].
  - apply touches_whenDebug; [exact sameIdentity_refl|]. intros s.
    apply sameIdentity_debugAttrs. intros d. repeat split.
Qed.

Lemma cacheGet_found (key : string) (entry : Entry.t) (st : State) :
  Js.isEmpty key = false ->
  mapGet key (decisionCache st) = Some entry ->
  cacheGet key st
  = (Some (Entry.isMusic entry),
     set_decisionCache
       (mapSet key {| Entry.isMusic := Entry.isMusic entry; Entry.ts := now st |}
          (mapDelete key (decisionCache st))) st).
Proof. intros Hk Hm. unfold cacheGet. rewrite Hk, Hm. reflexivity. Qed.

Lemma cacheGet_absent (key : string) (st : State) :
  mapGet key (decisionCache st) = None -> cacheGet key st = (None, st).
Proof.
  intros Hm. unfold cacheGet. rewrite Hm. destruct (Js.isEmpty key); reflexivity.
Qed.

Lemma decidedAs_decideCandidate (el : nat) (data : VideoData) (st : State) :
  touches el (decidedAs (decisionFor data st)) st (decideCandidate el data st).
Proof.
  unfold decideCandidate, decisionFor.
  destruct (truthyOpt (cacheKey data)) eqn:Hk;
    [|apply decidedAs_classifyCandidate].
  destruct (mapGet (default "" (cacheKey data)) (decisionCache st))
    as [entry|] eqn:Hm.
  - rewrite (cacheGet_found _ _ _ (truthyOpt_key _ Hk) Hm).
    match goal with
    | |- context [applyDecision el _ ?s1] =>
        apply (touches_from el _ st s1); [reflexivity|]
    end.
    eapply decide_chain; [apply marked_applyDecision|].
    apply touches_whenDebug; [exact sameIdentity_refl|]. intros s.
    apply (touches_from el _ s
             (updateDebug (fun d => set_cacheHits (S (cacheHits d)) d) s));
      [reflexivity|].
    apply sameIdentity_debugAttrs. intros d. repeat split.
  - rewrite (cacheGet_absent _ _ Hm). apply decidedAs_classifyCandidate.
Qed.

Lemma keepsMarks_refl (e : Element) : keepsMarks e e.
Proof. repeat split. Qed.

Lemma keepsMarks_forgetOnWatchChange (page : Page) (el : nat)
  (element : Element) (st : State) :
  touches el keepsMarks st (forgetOnWatchChange page el element st).
Proof.
  unfold forgetOnWatchChange. destruct (watchChanged _ _).
  - apply touches_updateDataset. intros e. repeat split.
  - apply touches_refl, keepsMarks_refl.
Qed.

Lemma keyed_rememberKey (page : Page) (el : nat) (data : VideoData)
  (st : State) :
  Js.truthy (elementKeyOf data) = true ->
  touches el
    (fun e e' => keepsMarks e e'
                 /\ mvKey (dataset e') = Js.slice0 200 (elementKeyOf data))
    st (rememberKey page el data st).
Proof.
  intros Hk. unfold rememberKey. rewrite Hk.
  assert (touches el
            (fun e e' => keepsMarks e e'
                         /\ mvKey (dataset e')
                            = Js.slice0 200 (elementKeyOf data))
            st (updateDataset el (set_mvKey (Js.slice0 200 (elementKeyOf data))) st))
    as H by (apply touches_updateDataset; intros e; repeat split).
  destruct (truthyOpt _); [|exact H].
  eapply touches_trans;
    [|exact H
     |apply (touches_updateDataset el
               (fun e e' =>
                  e' = set_dataset
                         (set_mvWatchId (getCurrentWatchVideoId page) (dataset e))
                         e));
      reflexivity].
  intros a b c [(A1 & A2 & A3 & A4) A5] ->. simpl. repeat split; assumption.
Qed.

Lemma elementKey_of_hasData (fields : RawFields) :
  hasData (extractVideoData fields) = true ->
  Js.truthy (elementKeyOf (extractVideoData fields)) = true.
Proof.
  unfold hasData, elementKeyOf, extractVideoData, orString. simpl.
  destruct (rawVideoId fields) as [id|]; simpl.
  - destruct (Js.truthy id) eqn:Hid; simpl.
    + intros _. reflexivity.
    + rewrite andb_true_r.
      destruct (Js.truthy (normalizeText (rawTitle fields))) eqn:Hn; simpl.
      * intros _. reflexivity.
      * unfold Js.truthy. trivial.
  - rewrite andb_true_r.
    destruct (Js.truthy (normalizeText (rawTitle fields))) eqn:Hn; simpl.
    + intros _. reflexivity.
    + unfold Js.truthy. trivial.
Qed.

Lemma decisionFor_ext (data : VideoData) (st st' : State) :
  decisionCache st' = decisionCache st -> settings st' = settings st ->
  matchers st' = matchers st -> decisionFor data st' = decisionFor data st.
Proof. unfold decisionFor. intros -> -> ->. reflexivity. Qed.

Lemma skipsProcessed_watch (page : Page) (context : string) (e : Element)
  (data : VideoData) :
  skipsProcessed page context e data = true -> watchChanged page e = false.
Proof.
  unfold skipsProcessed. destruct (watchChanged page e); [|reflexivity].
  rewrite andb_false_r. discriminate.
Qed.

Lemma rememberKey_fields (page : Page) (el : nat) (data : VideoData) (st : State) :
  decisionCache (rememberKey page el data st) = decisionCache st
  /\ settings (rememberKey page el data st) = settings st
  /\ matchers (rememberKey page el data st) = matchers st.
Proof.
  unfold rememberKey. destruct (Js.truthy _), (truthyOpt _); repeat split.
Qed.

Lemma forgetOnWatchChange_fields (page : Page) (el : nat) (element : Element)
  (st : State) :
  decisionCache (forgetOnWatchChange page el element st) = decisionCache st
  /\ settings (forgetOnWatchChange page el element st) = settings st
  /\ matchers (forgetOnWatchChange page el element st) = matchers st.
Proof.
  unfold forgetOnWatchChange. destruct (watchChanged _ _); repeat split.
Qed.

(** What a visit does to the node it is given. *)
Lemma processCandidate_visit (page : Page) (context : string) (el : nat)
  (st : State) (e : Element) :
  elements st !! el = Some e ->
  mvEpoch (dataset e) <> Some (scanEpoch st) ->
  touches el
    (fun a e' =>
       if visitSkips page context e
       then e' = stampedWith (scanEpoch st) a
       else decidedNode (scanEpoch st)
              (elementKeyOf (extractVideoData (raw e)))
              (decisionFor (extractVideoData (raw e)) st) a e')
    st (processCandidate page context el st).
Proof.
  intros Hel Hepoch. unfold processCandidate, visitSkips.
  rewrite Hel, bool_decide_eq_false_2 by exact Hepoch. cbv zeta.
  set (data := extractVideoData (raw e)).
  assert (touches el (fun a b => b = stampedWith (scanEpoch st) a) st
            (markEpoch el st)) as Hmark
      by (apply touches_updateDataset; reflexivity).
  destruct (hasData data) eqn:Hdata; simpl negb; cbv iota; simpl orb.
  - destruct (skipsProcessed page context e data) eqn:Hskip.
    + unfold forgetOnWatchChange.
      rewrite (skipsProcessed_watch _ _ _ _ Hskip).
      eapply touches_to; [|exact Hmark].
      unfold whenDebug. destruct (debugMode _); reflexivity.
    + pose proof (elementKey_of_hasData (raw e) Hdata) as Hkey. fold data in Hkey.
      set (st1 := markEpoch el st).
      set (st2 := forgetOnWatchChange page el e st1).
      set (st3 := rememberKey page el data st2).
      assert (decisionFor data st3 = decisionFor data st) as Hdec.
      { destruct (rememberKey_fields page el data st2) as (A & B & C).
        destruct (forgetOnWatchChange_fields page el e st1) as (A' & B' & C').
        apply decisionFor_ext; subst st3 st2 st1.
        - rewrite A, A'. reflexivity.
        - rewrite B, B'. reflexivity.
        - rewrite C, C'. reflexivity. }
      rewrite <- Hdec.
      pose proof (touches_seq el _ _ _ _ _
                    (touches_seq el _ _ _ _ _
                       (touches_seq el _ _ _ _ _ Hmark
                          (keepsMarks_forgetOnWatchChange page el e st1))
                       (keyed_rememberKey page el data st2 Hkey))
                    (decidedAs_decideCandidate el data st3)) as H.
      eapply touches_weaken; [|exact H]. cbv beta.
      intros a e' [d [[c [[b [Hb Hbc]] Hcd]] Hde]]. subst b.
      destruct Hbc as (B1 & B2 & B3 & B4).
      destruct Hcd as [(C1 & C2 & C3 & C4) C5].
      destruct Hde as (D1 & D2 & D3 & D4 & D5 & D6 & D7).
      unfold decidedNode. simpl in *.
      repeat split; try congruence.
  - eapply touches_to; [|exact Hmark].
    unfold whenDebug. destruct (debugMode _); reflexivity.
Qed.

Lemma processCandidate_scanEpoch (page : Page) (context : string) (el : nat)
  (st : State) :
  scanEpoch (processCandidate page context el st) = scanEpoch st.
Proof. apply (quiet_processCandidate page context el st). Qed.

Lemma processCandidate_stamped (page : Page) (context : string) (el : nat)
  (st : State) (e : Element) :
  elements st !! el = Some e ->
  mvEpoch (dataset e) = Some (scanEpoch st) ->
  processCandidate page context el st = st.
Proof.
  intros Hel Hst. unfold processCandidate.
  rewrite Hel, bool_decide_eq_true_2 by exact Hst. reflexivity.
Qed.

Lemma processCandidate_absent (page : Page) (context : string) (el : nat)
  (st : State) :
  elements st !! el = None -> processCandidate page context el st = st.
Proof. intros Hel. unfold processCandidate. rewrite Hel. reflexivity. Qed.

Lemma processCandidate_frame (page : Page) (context : string) (el x : nat)
  (st : State) :
  x <> el ->
  elements (processCandidate page context el st) !! x = elements st !! x.
Proof.
  intros Hx. destruct (elements st !! el) as [e|] eqn:Hel.
  - destruct (decide (mvEpoch (dataset e) = Some (scanEpoch st))) as [Hs|Hs].
    + rewrite (processCandidate_stamped _ _ _ _ _ Hel Hs). reflexivity.
    + apply (touches_frame _ _ _ _ _
               (processCandidate_visit page context el st e Hel Hs) Hx).
  - rewrite (processCandidate_absent _ _ _ _ Hel). reflexivity.
Qed.

Lemma decidedNode_epoch (epoch : nat) (key : string) (isMusic : bool)
  (e e' : Element) :
  decidedNode epoch key isMusic e e' -> mvEpoch (dataset e') = Some epoch.
Proof. intros (_ & H & _). exact H. Qed.

Lemma processCandidate_stamps (page : Page) (context : string) (el : nat)
  (st : State) (e : Element) :
  elements st !! el = Some e ->
  exists e', elements (processCandidate page context el st) !! el = Some e'
             /\ mvEpoch (dataset e') = Some (scanEpoch st).
Proof.
  intros Hel.
  destruct (decide (mvEpoch (dataset e) = Some (scanEpoch st))) as [Hs|Hs].
  - rewrite (processCandidate_stamped _ _ _ _ _ Hel Hs). eauto.
  - destruct (touches_lookup _ _ _ _ _
                (processCandidate_visit page context el st e Hel Hs) Hel)
      as [e' [E H]].
    exists e'. split; [exact E|].
    destruct (visitSkips page context e).
    + subst e'. reflexivity.
    + apply (decidedNode_epoch _ _ _ _ _ H).
Qed.

Lemma processCandidate_idempotent (page : Page) (context : string) (el : nat)
  (st : State) :
  processCandidate page context el (processCandidate page context el st)
  = processCandidate page context el st.
Proof.
  destruct (elements st !! el) as [e|] eqn:Hel.
  - destruct (processCandidate_stamps page context el st e Hel) as [e' [E H]].
    apply (processCandidate_stamped _ _ _ _ e' E).
    rewrite processCandidate_scanEpoch. exact H.
  - rewrite (processCandidate_absent _ _ _ _ Hel).
    apply processCandidate_absent, Hel.
Qed.

Lemma visited_epoch (page : Page) (context : string) (epoch : nat)
  (e e' : Element) :
  visited page context epoch e e' -> mvEpoch (dataset e') = Some epoch.
Proof.
  unfold visited. destruct (visitSkips _ _ _).
  - intros ->. reflexivity.
  - intros [b H]. apply (decidedNode_epoch _ _ _ _ _ H).
Qed.

Lemma processCandidate_visited (page : Page) (context : string) (el : nat)
  (st : State) (e : Element) :
  elements st !! el = Some e ->
  mvEpoch (dataset e) <> Some (scanEpoch st) ->
  exists e', elements (processCandidate page context el st) !! el = Some e'
             /\ visited page context (scanEpoch st) e e'.
Proof.
  intros Hel Hs.
  destruct (touches_lookup _ _ _ _ _
              (processCandidate_visit page context el st e Hel Hs) Hel)
    as [e' [E H]].
  exists e'. split; [exact E|]. unfold visited.
  destruct (visitSkips page context e); [exact H|eauto].
Qed.

Lemma visited_kept (page : Page) (context : string) (el y : nat)
  (st : State) (e' : Element) :
  elements st !! el = Some e' ->
  mvEpoch (dataset e') = Some (scanEpoch st) ->
  elements (processCandidate page context y st) !! el = Some e'.
Proof.
  intros Hel Hs. destruct (decide (y = el)) as [->|Hne].
  - rewrite (processCandidate_stamped _ _ _ _ _ Hel Hs). exact Hel.
  - rewrite processCandidate_frame by congruence. exact Hel.
Qed.

Lemma visited_kept_fold (page : Page) (context : string) (el : nat)
  (l : list nat) (st : State) (e' : Element) :
  elements st !! el = Some e' ->
  mvEpoch (dataset e') = Some (scanEpoch st) ->
  elements (fold_left (fun acc y => processCandidate page context y acc) l st)
    !! el = Some e'.
Proof.
  revert st. induction l as [|y l IH]; intros st Hel Hs; [exact Hel|].
  simpl. apply IH.
  - apply visited_kept; assumption.
  - rewrite processCandidate_scanEpoch. exact Hs.
Qed.

Lemma fold_processCandidate_scanEpoch (page : Page) (context : string)
  (l : list nat) (st : State) :
  scanEpoch (fold_left (fun acc y => processCandidate page context y acc) l st)
  = scanEpoch st.
Proof.
  revert st. induction l as [|y l IH]; intros st; [reflexivity|].
  simpl. rewrite IH. apply processCandidate_scanEpoch.
Qed.

Lemma fold_processCandidate_frame (page : Page) (context : string) (x : nat)
  (l : list nat) (st : State) :
  ~ In x l ->
  elements (fold_left (fun acc y => processCandidate page context y acc) l st)
    !! x = elements st !! x.
Proof.
  revert st. induction l as [|y l IH]; intros st Hx; [reflexivity|].
  simpl. rewrite IH by (intros H; apply Hx; right; exact H).
  apply processCandidate_frame. intros ->. apply Hx. left. reflexivity.
Qed.

Lemma fold_processCandidate_visited (page : Page) (context : string) (el : nat)
  (l : list nat) (st : State) (e : Element) :
  In el l ->
  elements st !! el = Some e ->
  mvEpoch (dataset e) <> Some (scanEpoch st) ->
  exists e',
    elements (fold_left (fun acc y => processCandidate page context y acc) l st)
      !! el = Some e'
    /\ visited page context (scanEpoch st) e e'.
Proof.
  revert st. induction l as [|y l IH]; intros st Hin Hel Hs; [destruct Hin|].
  simpl. destruct (decide (y = el)) as [->|Hne].
  - destruct (processCandidate_visited page context el st e Hel Hs)
      as [e' [E V]].
    exists e'. split; [|exact V]. apply visited_kept_fold; [exact E|].
    rewrite processCandidate_scanEpoch. apply (visited_epoch _ _ _ _ _ V).
  - destruct Hin as [->|Hin]; [congruence|].
    rewrite <- (processCandidate_scanEpoch page context y st).
    apply IH; [exact Hin| |].
    + rewrite processCandidate_frame by congruence. exact Hel.
    + rewrite processCandidate_scanEpoch. exact Hs.
Qed.

Lemma getScanTargets_cases (page : Page) :
  getScanTargets page = []
  \/ (exists found,
        pathname page = "/" /\ homeRoot page = Some found
        /\ getScanTargets page
           = [{| context := "home"; selectorMatches := found;
                 fallbackContainers := [] |}])
  \/ (exists found viaLinks,
        pathname page = "/watch" /\ watchRoot page = Some (found, viaLinks)
        /\ getScanTargets page
           = [{| context := "watch-sidebar"; selectorMatches := found;
                 fallbackContainers := viaLinks |}]).
Proof.
  unfold getScanTargets.
  destruct (String.eqb (pathname page) "/") eqn:Hh.
  - apply String.eqb_eq in Hh. rewrite Hh. simpl.
    destruct (homeRoot page) as [found|]; [|left; reflexivity].
    right. left. exists found. repeat split.
  - destruct (String.eqb (pathname page) "/watch") eqn:Hw; [|left; reflexivity].
    apply String.eqb_eq in Hw.
    destruct (watchRoot page) as [[found viaLinks]|]; [|left; reflexivity].
    right. right. exists found, viaLinks. repeat split. exact Hw.
Qed.

Lemma debugOnly_whenDebug (f : DebugState -> DebugState) (st : State) :
  debugOnly st (whenDebug (updateDebug f) st).
Proof. unfold whenDebug. destruct (debugMode _); repeat split. Qed.

Lemma debugOnly_resetDebug (page : Page) (st : State) :
  debugOnly st (whenDebug (resetDebug page) st).
Proof. unfold whenDebug. destruct (debugMode _); repeat split. Qed.

Lemma scanNow_single (page : Page) (st : State) (target : Target) :
  getScanTargets page = [target] ->
  exists st0,
    elements st0 = elements st /\ scanEpoch st0 = S (scanEpoch st)
    /\ decisionCache st0 = decisionCache st
    /\ settings st0 = settings st /\ matchers st0 = matchers st
    /\ timers st0 = timers st /\ cacheSaveTimer st0 = cacheSaveTimer st
    /\ scanNow page st
       = fold_left (fun acc y => processCandidate page (context target) y acc)
           (collectCandidates target) st0.
Proof.
  intros Ht. unfold scanNow. cbv zeta. rewrite Ht. cbn [fold_left List.map].
  unfold scanTarget. cbv zeta.
  destruct (debugOnly_resetDebug page st) as (A1 & A2 & A3 & A4 & A5 & A6 & A7).
  set (st1 := whenDebug (resetDebug page) st) in *.
  set (st2 := set_scanEpoch (S (scanEpoch st1)) st1).
  match goal with
  | |- context [whenDebug (updateDebug ?f) st2] =>
      destruct (debugOnly_whenDebug f st2) as (B1 & B2 & B3 & B4 & B5 & B6 & B7);
      set (st3 := whenDebug (updateDebug f) st2) in *
  end.
  match goal with
  | |- context [whenDebug (updateDebug ?f) st3] =>
      destruct (debugOnly_whenDebug f st3) as (C1 & C2 & C3 & C4 & C5 & C6 & C7);
      set (st4 := whenDebug (updateDebug f) st3) in *
  end.
  exists st4. repeat split; try congruence.
  - rewrite C1, B1. exact A1.
  - rewrite C2, B2. simpl. rewrite A2. reflexivity.
  - rewrite C3, B3. exact A3.
  - rewrite C4, B4. exact A4.
  - rewrite C5, B5. exact A5.
  - rewrite C6, B6. exact A6.
  - rewrite C7, B7. exact A7.
Qed.

Lemma slice0_all (n : nat) (s : string) :
  String.length s <= n -> Js.slice0 n s = s.
Proof.
  revert n. induction s as [|c r IH]; intros n H; [destruct n; reflexivity|].
  destruct n as [|m]; simpl in *; [lia|]. rewrite IH by lia. reflexivity.
Qed.

Lemma watchChanged_off_watch (page : Page) (e : Element) :
  getCurrentWatchVideoId page = None -> watchChanged page e = false.
Proof. intros H. unfold watchChanged. rewrite H. reflexivity. Qed.

Lemma skipsProcessed_true (page : Page) (context : string) (e : Element)
  (data : VideoData) :
  skipsProcessed page context e data = true ->
  mvProcessed (dataset e) = "1" /\ mvKey (dataset e) = elementKeyOf data.
Proof.
  intros H. pose proof (skipsProcessed_watch _ _ _ _ H) as Hw.
  unfold skipsProcessed in H. rewrite Hw in H.
  apply andb_prop in H as [H Hk]. apply andb_prop in H as [_ Hp].
  split; apply String.eqb_eq; assumption.
Qed.

(** After a visit, a node whose item has data and a key of at most 200
    characters carries the processed flag and the whole key. *)
Lemma visit_leaves_key (page : Page) (context : string) (el : nat)
  (st : State) (e : Element) :
  elements st !! el = Some e ->
  mvEpoch (dataset e) <> Some (scanEpoch st) ->
  hasData (extractVideoData (raw e)) = true ->
  String.length (elementKeyOf (extractVideoData (raw e))) <= 200 ->
  exists e1,
    elements (processCandidate page context el st) !! el = Some e1
    /\ raw e1 = raw e
    /\ mvEpoch (dataset e1) = Some (scanEpoch st)
    /\ mvProcessed (dataset e1) = "1"
    /\ mvKey (dataset e1) = elementKeyOf (extractVideoData (raw e)).
Proof.
  intros Hel Hs Hdata Hlen.
  destruct (processCandidate_visited page context el st e Hel Hs) as [e1 [E V]].
  exists e1. split; [exact E|]. unfold visited, visitSkips in V.
  rewrite Hdata in V. simpl in V.
  destruct (skipsProcessed page context e (extractVideoData (raw e))) eqn:Hskip.
  - subst e1. destruct (skipsProcessed_true _ _ _ _ Hskip) as [Hp Hk].
    repeat split; assumption.
  - destruct V as [b (V1 & V2 & V3 & V4 & _)].
    rewrite slice0_all in V4 by exact Hlen. repeat split; assumption.
Qed.

(** X9: what a visit of [processCandidate] does.  For a node that
    carries no stamp of the current epoch: no other node changes and the
    epoch stays; if the item has no title and no video id yet, or the
    node is skipped as processed, the node only gets the epoch stamp;
    otherwise it ends with the stamp, the processed flag, the first 200
    characters of the computed key, and [mv-blocked] exactly when the
    decision is "not music", where the decision is the cached one if
    the item's cache key is in the cache and the classifier's otherwise;
    a match also loses [mv-hidden]. *)
Theorem processCandidate_outcome (page : Page) (context : string) (el : nat)
  (st : State) (e : Element) :
  elements st !! el = Some e ->
  mvEpoch (dataset e) <> Some (scanEpoch st) ->
  (exists e',
     elements (processCandidate page context el st) !! el = Some e'
     /\ if visitSkips page context e
        then e' = stampedWith (scanEpoch st) e
        else decidedNode (scanEpoch st)
               (elementKeyOf (extractVideoData (raw e)))
               (decisionFor (extractVideoData (raw e)) st) e e')
  /\ (forall x, x <> el ->
                elements (processCandidate page context el st) !! x
                = elements st !! x)
  /\ scanEpoch (processCandidate page context el st) = scanEpoch st.
Proof.
  intros Hel Hs.
  pose proof (processCandidate_visit page context el st e Hel Hs) as H.
  split; [apply (touches_lookup _ _ _ _ _ H Hel)|]. split.
  - intros x Hx. apply (touches_frame _ _ _ _ _ H Hx).
  - apply processCandidate_scanEpoch.
Qed.

(** A fresh home tile with a video id, under the default settings: the
    default policy shows it. *)
Lemma processCandidate_outcome_witness :
  let fields := fieldsOf "Some Song" "" "3:10" (Some "abc") in
  exists e',
    elements (processCandidate (homePage [0]) "home" 0 (tileState fields)) !! 0
    = Some e'
    /\ mvProcessed (dataset e') = "1"
    /\ mvKey (dataset e') = "id:abc"
    /\ mvBlocked e' = false.
Proof.
  destruct (processCandidate_outcome (homePage [0]) "home" 0
              (tileState (fieldsOf "Some Song" "" "3:10" (Some "abc")))
              (freshElement (fieldsOf "Some Song" "" "3:10" (Some "abc")))
              ltac:(reflexivity) ltac:(discriminate))
    as [[e' [E H]] _].
  exists e'. split; [exact E|].
  destruct H as (_ & _ & Hp & Hk & Hb & _). repeat split; assumption.
Defined.

(** X10: a node is processed at most once per pass.  Visiting a node
    again in the same epoch changes nothing: [processCandidate] applied
    twice is [processCandidate] applied once. *)
Theorem processCandidate_once_per_pass (page : Page) (context : string)
  (el : nat) (st : State) :
  processCandidate page context el (processCandidate page context el st)
  = processCandidate page context el st.
Proof. apply processCandidate_idempotent. Qed.

(** X11: the skip of processed nodes works for keys of at most 200
    characters.  Outside the watch page, in a context other than the
    watch sidebar, once a node whose item has data and such a key has
    been visited, its next visit in a later epoch, with the node as the
    first visit left it, is skipped: the cache, the timers and the
    classification counter stay as they are and the node only gets the
    new stamp. *)
Theorem short_key_skipped_next_pass (page : Page) (context : string)
  (el : nat) (st : State) (e : Element) :
  elements st !! el = Some e ->
  mvEpoch (dataset e) <> Some (scanEpoch st) ->
  hasData (extractVideoData (raw e)) = true ->
  String.length (elementKeyOf (extractVideoData (raw e))) <= 200 ->
  context <> "watch-sidebar" ->
  getCurrentWatchVideoId page = None ->
  exists e1,
    elements (processCandidate page context el st) !! el = Some e1
    /\ forall st2,
         elements st2 !! el = Some e1 ->
         scanEpoch st2 <> scanEpoch st ->
         decisionCache (processCandidate page context el st2)
         = decisionCache st2
         /\ timers (processCandidate page context el st2) = timers st2
         /\ scanned (debugState (processCandidate page context el st2))
            = scanned (debugState st2)
         /\ elements (processCandidate page context el st2) !! el
            = Some (stampedWith (scanEpoch st2) e1).
Proof.
  intros Hel Hs Hd Hlen Hctx Hw.
  destruct (visit_leaves_key page context el st e Hel Hs Hd Hlen)
    as (e1 & E1 & R1 & S1 & P1 & K1).
  exists e1. split; [exact E1|]. intros st2 E2 Hep.
  destruct (processed_same_key_skipped page context el e1 st2)
    as (_ & A & B & C & D); try assumption.
  - rewrite S1. congruence.
  - rewrite R1. exact Hd.
  - apply watchChanged_off_watch, Hw.
  - rewrite R1. exact K1.
  - repeat split; assumption.
Qed.

(** A home tile with a video id: visited in epoch 0, then again in
    epoch 1. *)
Lemma short_key_skipped_next_pass_witness :
  let fields := fieldsOf "Some Song" "" "3:10" (Some "abc") in
  exists e1,
    elements (processCandidate (homePage [0]) "home" 0 (tileState fields)) !! 0
    = Some e1
    /\ forall st2,
         elements st2 !! 0 = Some e1 ->
         scanEpoch st2 <> 0 ->
         decisionCache (processCandidate (homePage [0]) "home" 0 st2)
         = decisionCache st2
         /\ timers (processCandidate (homePage [0]) "home" 0 st2) = timers st2
         /\ scanned (debugState (processCandidate (homePage [0]) "home" 0 st2))
            = scanned (debugState st2)
         /\ elements (processCandidate (homePage [0]) "home" 0 st2) !! 0
            = Some (stampedWith (scanEpoch st2) e1).
Proof.
  apply (short_key_skipped_next_pass (homePage [0]) "home" 0
           (tileState (fieldsOf "Some Song" "" "3:10" (Some "abc")))
           (freshElement (fieldsOf "Some Song" "" "3:10" (Some "abc")))).
  - reflexivity.
  - discriminate.
  - reflexivity.
  - vm_compute. lia.
  - discriminate.
  - reflexivity.
Defined.

(** ** Timers and marker classes *)

(** Invariants of the scan: what every step of [processCandidate]
    keeps is kept by [scanNow] and [rescanAll]. *)
Section ScanSteps.
Variable Inv : State -> Prop.
Hypothesis Inv_dataset :
  forall el f st, (forall d, mvEpoch (f d) = mvEpoch d) ->
                  Inv st -> Inv (updateDataset el f st).
Hypothesis Inv_mark : forall el st, Inv st -> Inv (markEpoch el st).
Hypothesis Inv_debug : forall f st, Inv st -> Inv (updateDebug f st).
Hypothesis Inv_hide : forall el st, Inv st -> Inv (hideElement el st).
Hypothesis Inv_unhide : forall el st, Inv st -> Inv (unhideElement el st).
Hypothesis Inv_cacheGet : forall key st, Inv st -> Inv (snd (cacheGet key st)).
Hypothesis Inv_cacheSet :
  forall key isMusic st, Inv st -> Inv (cacheSet key isMusic st).
Hypothesis Inv_epoch :
  forall st, Inv st -> Inv (set_scanEpoch (S (scanEpoch st)) st).

Ltac keeps_stamp := let d := fresh "d" in intros d; reflexivity.

Lemma Inv_whenDebug (f : State -> State) (st : State) :
  (forall s, Inv s -> Inv (f s)) -> Inv st -> Inv (whenDebug f st).
Proof. intros Hf H. unfold whenDebug. destruct (debugMode _); auto. Qed.

Lemma Inv_fold (A : Type) (f : State -> A -> State) (l : list A) (st : State) :
  (forall s x, Inv s -> Inv (f s x)) -> Inv st -> Inv (fold_left f l st).
Proof.
  intros Hf. revert st. induction l as [|x l IH]; intros st H; [exact H|].
  simpl. apply IH, Hf, H.
Qed.

Lemma Inv_applyDecision (el : nat) (isMusic : bool) (st : State) :
  Inv st -> Inv (applyDecision el isMusic st).
Proof. unfold applyDecision. destruct (negb isMusic); auto. Qed.

Lemma Inv_classifyCandidate (el : nat) (data : VideoData) (st : State) :
  Inv st -> Inv (classifyCandidate el data st).
Proof.
  intros H. unfold classifyCandidate. cbv zeta.
  apply Inv_dataset; [keeps_stamp|]. apply Inv_debug.
  match goal with
  | |- Inv (if ?b then _ else _) => destruct b
  end; apply Inv_debug, Inv_debug, Inv_whenDebug;
    try (intros s Hs; apply Inv_dataset; [keeps_stamp|exact Hs]);
    (destruct (truthyOpt _); [apply Inv_cacheSet|]; apply Inv_applyDecision, H).
Qed.

Lemma Inv_decideCandidate (el : nat) (data : VideoData) (st : State) :
  Inv st -> Inv (decideCandidate el data st).
Proof.
  intros H. unfold decideCandidate.
  assert (Inv (snd (if truthyOpt (cacheKey data)
                    then cacheGet (default "" (cacheKey data)) st
                    else (None, st)))) as H1
      by (destruct (truthyOpt _); [apply Inv_cacheGet, H|exact H]).
  destruct (if truthyOpt (cacheKey data) then _ else _) as [cached st1].
  simpl in H1. destruct cached as [isMusic|].
  - apply Inv_dataset; [keeps_stamp|].
    apply Inv_whenDebug; [|apply Inv_applyDecision, H1].
    intros s Hs. apply Inv_dataset; [keeps_stamp|]. apply Inv_debug, Hs.
  - apply Inv_classifyCandidate, H1.
Qed.

Lemma Inv_rememberKey (page : Page) (el : nat) (data : VideoData) (st : State) :
  Inv st -> Inv (rememberKey page el data st).
Proof.
  intros H. unfold rememberKey.
  destruct (truthyOpt _), (Js.truthy _);
    repeat (apply Inv_dataset; [keeps_stamp|]); exact H.
Qed.

Lemma Inv_forgetOnWatchChange (page : Page) (el : nat) (element : Element)
  (st : State) :
  Inv st -> Inv (forgetOnWatchChange page el element st).
Proof.
  intros H. unfold forgetOnWatchChange. destruct (watchChanged _ _); [|exact H].
  apply Inv_dataset; [keeps_stamp|exact H].
Qed.

Lemma Inv_processCandidate (page : Page) (context : string) (el : nat)
  (st : State) :
  Inv st -> Inv (processCandidate page context el st).
Proof.
  intros H. unfold processCandidate.
  destruct (elements st !! el) as [element|]; [|exact H].
  destruct (bool_decide _); [exact H|]. cbv zeta.
  assert (Inv (markEpoch el st)) as Hmark by apply Inv_mark, H.
  destruct (negb (hasData _)).
  - apply Inv_whenDebug; [|exact Hmark]. intros s Hs. apply Inv_debug, Hs.
  - destruct (skipsProcessed _ _ _ _).
    + apply Inv_whenDebug; [|apply Inv_forgetOnWatchChange, Hmark].
      intros s Hs. apply Inv_debug, Hs.
    + apply Inv_decideCandidate, Inv_rememberKey, Inv_forgetOnWatchChange, Hmark.
Qed.

Lemma Inv_scanNow (page : Page) (st : State) :
  Inv st -> Inv (scanNow page st).
Proof.
  intros H. unfold scanNow. cbv zeta. apply Inv_fold.
  - intros s target Hs. unfold scanTarget. cbv zeta. apply Inv_fold.
    + intros s' el Hs'. apply Inv_processCandidate, Hs'.
    + apply Inv_whenDebug; [|exact Hs]. intros s' Hs'. apply Inv_debug, Hs'.
  - apply Inv_whenDebug; [intros s Hs; apply Inv_debug, Hs|].
    apply Inv_epoch, Inv_whenDebug; [|exact H].
    intros s Hs. unfold resetDebug. apply Inv_debug, Hs.
Qed.

Lemma Inv_clearTargets (page : Page) (st : State) :
  Inv st -> Inv (clearTargets page st).
Proof.
  intros H. unfold clearTargets. apply Inv_fold; [|exact H].
  intros s target Hs. apply Inv_fold; [|exact Hs].
  intros s' el Hs'. unfold clearMarks.
  apply Inv_unhide, Inv_dataset; [keeps_stamp|exact Hs'].
Qed.

Lemma Inv_rescanAll (page : Page) (st : State) :
  Inv st -> Inv (rescanAll page st).
Proof. intros H. unfold rescanAll. apply Inv_scanNow, Inv_clearTargets, H. Qed.
End ScanSteps.

(** *** The cache-save timer *)

Lemma saveFlight_same (st st' : State) :
  timers st' = timers st -> cacheSaveTimer st' = cacheSaveTimer st ->
  saveFlight st -> saveFlight st'.
Proof. unfold saveFlight, pendingSaves. intros -> ->. trivial. Qed.

Lemma pendingSaves_setTimeout (task : TimerTask) (delay : Z) (st : State) :
  pendingSaves (snd (setTimeout task delay st))
  = pendingSaves st + match task with CacheSaveTask => 1 | _ => 0 end.
Proof.
  unfold pendingSaves, setTimeout. simpl.
  rewrite List.filter_app, length_app. unfold isSaveTask at 2. simpl.
  destruct task; reflexivity.
Qed.

Lemma saveFlight_setTimeout (task : TimerTask) (delay : Z) (st : State) :
  task <> CacheSaveTask ->
  saveFlight st -> saveFlight (snd (setTimeout task delay st)).
Proof.
  unfold saveFlight. intros Ht H. rewrite pendingSaves_setTimeout.
  destruct task; try congruence; simpl; rewrite H; lia.
Qed.

Lemma saveFlight_updateElement (el : nat) (f : Element -> Element) (st : State) :
  saveFlight st -> saveFlight (updateElement el f st).
Proof. apply saveFlight_same; reflexivity. Qed.

Lemma saveFlight_hideElement (el : nat) (st : State) :
  saveFlight st -> saveFlight (hideElement el st).
Proof.
  intros H. unfold hideElement. destruct (showBlocked _).
  - apply saveFlight_updateElement, H.
  - apply saveFlight_setTimeout; [discriminate|].
    apply saveFlight_updateElement, H.
Qed.

Lemma saveFlight_unhideElement (el : nat) (st : State) :
  saveFlight st -> saveFlight (unhideElement el st).
Proof. apply saveFlight_same; reflexivity. Qed.

Lemma saveFlight_scheduleCacheSave (st : State) :
  saveFlight st -> saveFlight (scheduleCacheSave st).
Proof.
  unfold scheduleCacheSave. destruct (cacheSaveTimer st) eqn:Ht; [trivial|].
  unfold saveFlight. rewrite Ht. intros H.
  change (pendingSaves (snd (setTimeout CacheSaveTask 1000 st)) = 1).
  rewrite pendingSaves_setTimeout, H. reflexivity.
Qed.

Lemma saveFlight_cacheGet (key : string) (st : State) :
  saveFlight st -> saveFlight (snd (cacheGet key st)).
Proof.
  unfold cacheGet. destruct (Js.isEmpty key); [trivial|].
  destruct (mapGet key (decisionCache st)); [|trivial].
  apply saveFlight_same; reflexivity.
Qed.

Lemma saveFlight_cacheSet (key : string) (isMusic : bool) (st : State) :
  saveFlight st -> saveFlight (cacheSet key isMusic st).
Proof.
  intros H. unfold cacheSet. destruct (Js.isEmpty key); [exact H|].
  apply saveFlight_scheduleCacheSave. revert H.
  apply saveFlight_same; reflexivity.
Qed.

Lemma saveFlight_scanNow (page : Page) (st : State) :
  saveFlight st -> saveFlight (scanNow page st).
Proof.
  apply Inv_scanNow.
  - intros el f s _. apply saveFlight_same; reflexivity.
  - intros el s. apply saveFlight_same; reflexivity.
  - intros f s. apply saveFlight_same; reflexivity.
  - exact saveFlight_hideElement.
  - exact saveFlight_unhideElement.
  - exact saveFlight_cacheGet.
  - exact saveFlight_cacheSet.
  - intros s. apply saveFlight_same; reflexivity.
Qed.

Lemma saveFlight_rescanAll (page : Page) (st : State) :
  saveFlight st -> saveFlight (rescanAll page st).
Proof.
  apply Inv_rescanAll.
  - intros el f s _. apply saveFlight_same; reflexivity.
  - intros el s. apply saveFlight_same; reflexivity.
  - intros f s. apply saveFlight_same; reflexivity.
  - exact saveFlight_hideElement.
  - exact saveFlight_unhideElement.
  - exact saveFlight_cacheGet.
  - exact saveFlight_cacheSet.
  - intros s. apply saveFlight_same; reflexivity.
Qed.

Lemma saveFlight_applyShowBlocked (show : bool) (st : State) :
  saveFlight st -> saveFlight (applyShowBlocked show st).
Proof.
  intros H. unfold applyShowBlocked. cbv zeta. destruct show.
  - apply (Inv_fold saveFlight).
    + intros s el. apply saveFlight_updateElement.
    + revert H. apply saveFlight_same; reflexivity.
  - apply (Inv_fold saveFlight).
    + intros s el Hs. destruct (elements s !! el) as [e|]; [|exact Hs].
      destruct (negb (mvHidden e)); [apply saveFlight_hideElement, Hs|exact Hs].
    + revert H. apply saveFlight_same; reflexivity.
Qed.

Lemma saveFlight_loadCache (raw : list (string * StoredValue)) (st : State) :
  saveFlight st -> saveFlight (loadCache raw st).
Proof.
  unfold loadCache. apply (Inv_fold saveFlight). intros s [k v] Hs. simpl.
  destruct v; [|exact Hs]. revert Hs. apply saveFlight_same; reflexivity.
Qed.

Lemma saveFlight_scheduleScan (st : State) :
  saveFlight st -> saveFlight (scheduleScan st).
Proof.
  intros H. unfold scheduleScan. destruct (scanTimer st); [exact H|].
  match goal with
  | |- context [setTimeout ScanTask ?d st] =>
      pose proof (saveFlight_setTimeout ScanTask d st ltac:(discriminate) H) as H1;
      destruct (setTimeout ScanTask d st) as [id st1] eqn:E
  end.
  revert H1. apply saveFlight_same; reflexivity.
Qed.

Lemma takeTimer_saves (id : nat) (pending rest : list Timer) (t : Timer) :
  takeTimer id pending = Some (t, rest) ->
  length (List.filter isSaveTask pending)
  = (if isSaveTask t then 1 else 0) + length (List.filter isSaveTask rest).
Proof.
  revert rest. induction pending as [|t0 l IH]; intros rest; simpl; [discriminate|].
  destruct (Nat.eqb (timerId t0) id).
  - intros H. inversion H; subst. destruct (isSaveTask t); reflexivity.
  - destruct (takeTimer id l) as [[found rest']|]; [|discriminate].
    intros H. inversion H; subst. simpl. specialize (IH _ eq_refl).
    destruct (isSaveTask t0); simpl; lia.
Qed.

Lemma saveFlight_step (st : State) (ev : Event) :
  saveFlight st -> saveFlight (step st ev).
Proof.
  intros H. destruct ev as [|id page|page|show|newValue page|raw|doc|t]; simpl.
  - apply saveFlight_scheduleScan, H.
  - destruct (takeTimer id (timers st)) as [[t rest]|] eqn:Htake; [|exact H].
    pose proof (takeTimer_saves _ _ _ _ Htake) as Hcount.
    unfold saveFlight, pendingSaves in H.
    assert (isSaveTask t
            = match timerTask t with CacheSaveTask => true | _ => false end)
      as Hkind by reflexivity.
    destruct (timerTask t) eqn:Htask; rewrite Hkind in Hcount.
    + unfold scanCallback. apply saveFlight_scanNow.
      unfold saveFlight, pendingSaves. simpl. lia.
    + unfold hideCallback. simpl.
      assert (saveFlight (set_timers rest st)) as Hrest
          by (unfold saveFlight, pendingSaves; simpl; lia).
      destruct (elements st !! element); [|exact Hrest].
      destruct (_ && _); [|exact Hrest].
      apply saveFlight_updateElement, Hrest.
    + unfold saveFlight, pendingSaves. simpl.
      destruct (cacheSaveTimer st); lia.
  - apply saveFlight_rescanAll, H.
  - apply saveFlight_applyShowBlocked, H.
  - apply saveFlight_rescanAll, saveFlight_applyShowBlocked.
    revert H. apply saveFlight_same; reflexivity.
  - apply saveFlight_loadCache, H.
  - exact H.
  - exact H.
Qed.

Lemma saveFlight_run (st : State) (evs : list Event) :
  saveFlight st -> saveFlight (run st evs).
Proof.
  revert st. induction evs as [|ev later IH]; intros st H; [exact H|].
  apply IH, saveFlight_step, H.
Qed.

Lemma saveFlight_init (loaded : Settings) :
  saveFlight (init loaded initialState).
Proof.
  unfold init. apply saveFlight_scheduleScan, saveFlight_applyShowBlocked.
  reflexivity.
Qed.

Lemma cacheSet_arms_save (key : string) (isMusic : bool) (st : State) :
  Js.isEmpty key = false -> cacheSaveTimer (cacheSet key isMusic st) <> None.
Proof.
  intros Hk. unfold cacheSet. rewrite Hk. unfold scheduleCacheSave. simpl.
  destruct (cacheSaveTimer st) eqn:Ht; simpl; [rewrite Ht|]; discriminate.
Qed.

(** *** The marker classes *)

Lemma unhideElement_once (el : nat) (st : State) :
  unhideElement el st
  = updateElement el (fun e => set_mvBlocked false (set_mvHidden false e)) st.
Proof.
  unfold unhideElement, updateElement. simpl. rewrite alter_alter_eq.
  reflexivity.
Qed.

Lemma marks_same (st st' : State) :
  elements st' = elements st -> settings st' = settings st ->
  rootShowBlocked st' = rootShowBlocked st ->
  marksConsistent st -> marksConsistent st'.
Proof. unfold marksConsistent. intros -> -> ->. trivial. Qed.

Lemma marks_updateElement (el : nat) (f : Element -> Element) (st : State) :
  (forall e, (mvHidden e = true -> mvBlocked e = true) ->
             mvHidden (f e) = true -> mvBlocked (f e) = true) ->
  (forall e, mvHidden e = false -> mvHidden (f e) = false) ->
  marksConsistent st -> marksConsistent (updateElement el f st).
Proof.
  intros Hf1 Hf2 (M1 & M2 & M3). unfold marksConsistent, updateElement. simpl.
  split; [|split; [|exact M3]].
  - intros x e'. destruct (decide (x = el)) as [->|Hne].
    + rewrite lookup_alter_eq. destruct (elements st !! el) as [e|] eqn:E;
        simpl; [|discriminate].
      intros [= <-]. apply Hf1. apply (M1 el e E).
    + rewrite lookup_alter_ne by congruence. apply M1.
  - intros Hshow x e'. destruct (decide (x = el)) as [->|Hne].
    + rewrite lookup_alter_eq. destruct (elements st !! el) as [e|] eqn:E;
        simpl; [|discriminate].
      intros [= <-]. apply Hf2. apply (M2 Hshow el e E).
    + rewrite lookup_alter_ne by congruence. apply (M2 Hshow).
Qed.

Lemma marks_updateDataset (el : nat) (f : Dataset -> Dataset) (st : State) :
  marksConsistent st -> marksConsistent (updateDataset el f st).
Proof. apply marks_updateElement; intros e H; exact H. Qed.

Lemma marks_hideElement (el : nat) (st : State) :
  marksConsistent st -> marksConsistent (hideElement el st).
Proof.
  intros H. unfold hideElement.
  assert (marksConsistent (updateElement el (set_mvBlocked true) st)) as H1.
  { revert H. apply marks_updateElement.
    - intros e _ _. reflexivity.
    - intros e He. exact He. }
  destruct (showBlocked _); [exact H1|].
  revert H1. apply marks_same; reflexivity.
Qed.

Lemma marks_unhideElement (el : nat) (st : State) :
  marksConsistent st -> marksConsistent (unhideElement el st).
Proof.
  rewrite unhideElement_once. apply marks_updateElement.
  - intros e _. simpl. discriminate.
  - intros e _. reflexivity.
Qed.

Lemma settings_scheduleCacheSave (st : State) :
  settings (scheduleCacheSave st) = settings st
  /\ rootShowBlocked (scheduleCacheSave st) = rootShowBlocked st.
Proof. unfold scheduleCacheSave. destruct (cacheSaveTimer st); split; reflexivity. Qed.

Lemma marks_cacheGet (key : string) (st : State) :
  marksConsistent st -> marksConsistent (snd (cacheGet key st)).
Proof.
  unfold cacheGet. destruct (Js.isEmpty key); [trivial|].
  destruct (mapGet key (decisionCache st)); [|trivial].
  apply marks_same; reflexivity.
Qed.

Lemma marks_cacheSet (key : string) (isMusic : bool) (st : State) :
  marksConsistent st -> marksConsistent (cacheSet key isMusic st).
Proof.
  apply marks_same.
  - apply elements_cacheSet.
  - unfold cacheSet. destruct (Js.isEmpty key); [reflexivity|].
    cbv zeta.
    match goal with
    | |- settings (scheduleCacheSave ?s) = _ =>
        destruct (settings_scheduleCacheSave s) as [A _]; rewrite A
    end.
    reflexivity.
  - unfold cacheSet. destruct (Js.isEmpty key); [reflexivity|].
    cbv zeta.
    match goal with
    | |- rootShowBlocked (scheduleCacheSave ?s) = _ =>
        destruct (settings_scheduleCacheSave s) as [_ A]; rewrite A
    end.
    reflexivity.
Qed.

Lemma marks_scanNow (page : Page) (st : State) :
  marksConsistent st -> marksConsistent (scanNow page st).
Proof.
  apply Inv_scanNow.
  - intros el f s _. apply marks_updateDataset.
  - intros el s. apply marks_updateDataset.
  - intros f s. apply marks_same; reflexivity.
  - exact marks_hideElement.
  - exact marks_unhideElement.
  - exact marks_cacheGet.
  - exact marks_cacheSet.
  - intros s. apply marks_same; reflexivity.
Qed.

Lemma marks_rescanAll (page : Page) (st : State) :
  marksConsistent st -> marksConsistent (rescanAll page st).
Proof.
  apply Inv_rescanAll.
  - intros el f s _. apply marks_updateDataset.
  - intros el s. apply marks_updateDataset.
  - intros f s. apply marks_same; reflexivity.
  - exact marks_hideElement.
  - exact marks_unhideElement.
  - exact marks_cacheGet.
  - exact marks_cacheSet.
  - intros s. apply marks_same; reflexivity.
Qed.

Lemma marks_hideCallback (el : nat) (st : State) :
  marksConsistent st -> marksConsistent (hideCallback el st).
Proof.
  intros H. unfold hideCallback.
  destruct (elements st !! el) as [e|] eqn:E; [|exact H].
  destruct (negb (showBlocked (settings st)) && mvBlocked e) eqn:Hc; [|exact H].
  apply andb_prop in Hc as [Hshow Hb]. apply negb_true_iff in Hshow.
  destruct H as (M1 & M2 & M3). unfold marksConsistent, updateElement. simpl.
  split; [|split; [|exact M3]].
  - intros x e'. destruct (decide (x = el)) as [->|Hne].
    + rewrite lookup_alter_eq, E. simpl. intros [= <-] _. exact Hb.
    + rewrite lookup_alter_ne by congruence. apply M1.
  - rewrite Hshow. discriminate.
Qed.

Lemma In_blockedElements (x : nat) (st : State) :
  In x (blockedElements st)
  <-> exists e, elements st !! x = Some e /\ mvBlocked e = true.
Proof.
  unfold blockedElements. rewrite in_map_iff. split.
  - intros [[k e] [<- H]]. apply filter_In in H as [H Hb].
    apply list_elem_of_In, elem_of_map_to_list in H. exists e. auto.
  - intros [e [E Hb]]. exists (x, e). split; [reflexivity|].
    apply filter_In. split; [|exact Hb].
    apply list_elem_of_In, elem_of_map_to_list. exact E.
Qed.

(** Removing [mv-hidden] from the nodes of [l]. *)
Lemma reveal_lookup (l : list nat) (x : nat) (st : State) :
  elements
    (fold_left (fun acc el => updateElement el (set_mvHidden false) acc) l st)
    !! x
  = (if existsb (Nat.eqb x) l then set_mvHidden false else fun e => e)
      <$> elements st !! x.
Proof.
  revert st. induction l as [|a l IH]; intros st.
  - simpl. destruct (elements st !! x); reflexivity.
  - cbn [fold_left existsb]. rewrite IH. unfold updateElement. simpl.
    destruct (Nat.eqb x a) eqn:Hxa.
    + apply Nat.eqb_eq in Hxa. subst a. rewrite lookup_alter_eq. simpl.
      destruct (elements st !! x) as [e|]; [|reflexivity]. simpl.
      destruct (existsb (Nat.eqb x) l); reflexivity.
    + apply Nat.eqb_neq in Hxa. rewrite lookup_alter_ne by congruence.
      reflexivity.
Qed.

Lemma existsb_In (x : nat) (l : list nat) :
  existsb (Nat.eqb x) l = true <-> In x l.
Proof.
  rewrite existsb_exists. split.
  - intros [y [Hy E]]. apply Nat.eqb_eq in E. subst y. exact Hy.
  - intros H. exists x. split; [exact H|apply Nat.eqb_refl].
Qed.

Lemma reveal_fields (l : list nat) (st : State) :
  let st' := fold_left (fun acc el => updateElement el (set_mvHidden false) acc)
               l st in
  settings st' = settings st /\ rootShowBlocked st' = rootShowBlocked st
  /\ decisionCache st' = decisionCache st /\ timers st' = timers st.
Proof.
  revert st. induction l as [|a l IH]; intros st; [repeat split|].
  cbn [fold_left]. cbv zeta in *.
  destruct (IH (updateElement a (set_mvHidden false) st)) as (A & B & C & D).
  rewrite A, B, C, D. repeat split.
Qed.

(** What [applyShowBlocked] does to a node: with the override on, a
    blocked node loses [mv-hidden]; with it off, nothing changes on the
    node (hiding is left to the timers). *)
Lemma applyShowBlocked_lookup (show : bool) (st : State) (x : nat) :
  elements (applyShowBlocked show st) !! x
  = (fun e => if show && mvBlocked e then set_mvHidden false e else e)
      <$> elements st !! x.
Proof.
  unfold applyShowBlocked. cbv zeta.
  set (st2 := set_rootShowBlocked show
                (set_settings (set_showBlocked show (settings st)) st)).
  destruct show; cbn [andb].
  - rewrite reveal_lookup. change (elements st2) with (elements st).
    destruct (elements st !! x) as [e|] eqn:E; [|reflexivity]. simpl.
    destruct (existsb (Nat.eqb x) (blockedElements st2)) eqn:Hex.
    + apply existsb_In, In_blockedElements in Hex as [e0 [E0 Hb]].
      change (elements st2) with (elements st) in E0.
      rewrite E in E0. injection E0 as <-. rewrite Hb. reflexivity.
    + destruct (mvBlocked e) eqn:Hb; [|reflexivity].
      assert (existsb (Nat.eqb x) (blockedElements st2) = true) as Hex'
          by (apply existsb_In, In_blockedElements; exists e; auto).
      congruence.
  - assert (forall l s,
               (forall el, In el l ->
                           forall e, elements s !! el = Some e ->
                                     mvBlocked e = true) ->
               elements
                 (fold_left
                    (fun acc el =>
                       match elements acc !! el with
                       | Some e => if negb (mvHidden e) then hideElement el acc
                                   else acc
                       | None => acc
                       end) l s)
               = elements s) as Hfold.
    { induction l as [|a l IH]; intros s Hl; [reflexivity|].
      cbn [fold_left].
      assert (elements
                (match elements s !! a with
                 | Some e => if negb (mvHidden e) then hideElement a s else s
                 | None => s
                 end) = elements s) as Hstep.
      { destruct (elements s !! a) as [e|] eqn:Ea; [|reflexivity].
        destruct (negb (mvHidden e)); [|reflexivity].
        unfold hideElement.
        assert (elements (updateElement a (set_mvBlocked true) s) = elements s)
          as Hu.
        { unfold updateElement. simpl. apply alter_id. intros e0 E0.
          pose proof (Hl a (or_introl eq_refl) e0 E0) as Hb.
          destruct e0. simpl in *. subst. reflexivity. }
        destruct (showBlocked _); [exact Hu|]. simpl. exact Hu. }
      rewrite IH; [exact Hstep|].
      intros el Hin e. rewrite Hstep. apply Hl. right. exact Hin. }
    rewrite Hfold.
    + change (elements st2) with (elements st).
      destruct (elements st !! x); reflexivity.
    + intros el Hin e E. apply In_blockedElements in Hin as [e0 [E0 Hb]].
      rewrite E in E0. injection E0 as <-. exact Hb.
Qed.

Lemma hideElement_fields (el : nat) (st : State) :
  settings (hideElement el st) = settings st
  /\ rootShowBlocked (hideElement el st) = rootShowBlocked st
  /\ decisionCache (hideElement el st) = decisionCache st.
Proof. unfold hideElement. simpl. destruct (showBlocked _); repeat split. Qed.

Lemma applyShowBlocked_fields (show : bool) (st : State) :
  settings (applyShowBlocked show st) = set_showBlocked show (settings st)
  /\ rootShowBlocked (applyShowBlocked show st) = show
  /\ decisionCache (applyShowBlocked show st) = decisionCache st.
Proof.
  unfold applyShowBlocked. cbv zeta.
  set (st2 := set_rootShowBlocked show
                (set_settings (set_showBlocked show (settings st)) st)).
  destruct show.
  - destruct (reveal_fields (blockedElements st2) st2) as (A & B & C & _).
    rewrite A, B, C. repeat split.
  - generalize (blockedElements st2).
    assert (settings st2 = set_showBlocked false (settings st)
            /\ rootShowBlocked st2 = false
            /\ decisionCache st2 = decisionCache st) as H by repeat split.
    revert H. generalize st2. intros s H l. revert s H.
    induction l as [|a l IH]; intros s H; [exact H|].
    cbn [fold_left]. apply IH.
    destruct (elements s !! a) as [e|]; [|exact H].
    destruct (negb (mvHidden e)); [|exact H].
    destruct (hideElement_fields a s) as (A & B & C). rewrite A, B, C. exact H.
Qed.

Lemma marks_applyShowBlocked (show : bool) (st : State) :
  (forall el e, elements st !! el = Some e ->
                mvHidden e = true -> mvBlocked e = true) ->
  marksConsistent (applyShowBlocked show st).
Proof.
  intros M1. destruct (applyShowBlocked_fields show st) as (A & B & _).
  unfold marksConsistent. rewrite A, B. simpl.
  split; [|split; [|reflexivity]].
  - intros x e'. rewrite applyShowBlocked_lookup.
    destruct (elements st !! x) as [e|] eqn:E; simpl; [|discriminate].
    intros [= <-]. destruct (show && mvBlocked e); [discriminate|].
    apply (M1 x e E).
  - intros -> x e'. rewrite applyShowBlocked_lookup.
    destruct (elements st !! x) as [e|] eqn:E; simpl; [|discriminate].
    intros [= <-]. destruct (mvBlocked e) eqn:Hb; [reflexivity|].
    destruct (mvHidden e) eqn:Hh; [|reflexivity].
    rewrite (M1 x e E Hh) in Hb. discriminate.
Qed.

Lemma marks_render (doc : gmap nat RawFields) (st : State) :
  marksConsistent st -> marksConsistent (render doc st).
Proof.
  intros (M1 & M2 & M3). unfold marksConsistent, render. simpl.
  split; [|split; [|exact M3]].
  - intros x e'. rewrite map_lookup_imap.
    destruct (doc !! x) as [fields|]; simpl; [|discriminate].
    destruct (elements st !! x) as [e|] eqn:E; intros [= <-]; simpl.
    + apply (M1 x e E).
    + discriminate.
  - intros Hshow x e'. rewrite map_lookup_imap.
    destruct (doc !! x) as [fields|]; simpl; [|discriminate].
    destruct (elements st !! x) as [e|] eqn:E; intros [= <-]; simpl.
    + apply (M2 Hshow x e E).
    + reflexivity.
Qed.

Lemma marks_scheduleScan (st : State) :
  marksConsistent st -> marksConsistent (scheduleScan st).
Proof.
  unfold scheduleScan. destruct (scanTimer st); [trivial|].
  apply marks_same; reflexivity.
Qed.

Lemma marks_loadCache (raw : list (string * StoredValue)) (st : State) :
  marksConsistent st -> marksConsistent (loadCache raw st).
Proof.
  unfold loadCache. apply (Inv_fold marksConsistent). intros s [k v] Hs. simpl.
  destruct v; [|exact Hs]. revert Hs. apply marks_same; reflexivity.
Qed.

Lemma marks_step (st : State) (ev : Event) :
  marksConsistent st -> marksConsistent (step st ev).
Proof.
  intros H. destruct ev as [|id page|page|show|newValue page|raw|doc|t]; simpl.
  - apply marks_scheduleScan, H.
  - destruct (takeTimer id (timers st)) as [[t rest]|]; [|exact H].
    assert (marksConsistent (set_timers rest st)) as Hrest
        by (revert H; apply marks_same; reflexivity).
    destruct (timerTask t).
    + unfold scanCallback. apply marks_scanNow.
      revert H. apply marks_same; reflexivity.
    + apply marks_hideCallback, Hrest.
    + revert H. apply marks_same; reflexivity.
  - apply marks_rescanAll, H.
  - apply marks_applyShowBlocked, H.
  - apply marks_rescanAll, marks_applyShowBlocked. apply H.
  - apply marks_loadCache, H.
  - apply marks_render, H.
  - revert H. apply marks_same; reflexivity.
Qed.

Lemma marks_run (st : State) (evs : list Event) :
  marksConsistent st -> marksConsistent (run st evs).
Proof.
  revert st. induction evs as [|ev later IH]; intros st H; [exact H|].
  apply IH, marks_step, H.
Qed.

Lemma marks_init (loaded : Settings) :
  marksConsistent (init loaded initialState).
Proof.
  unfold init. apply marks_scheduleScan, marks_applyShowBlocked.
  intros el e. simpl. rewrite lookup_empty. discriminate.
Qed.

(** X12: the cache-save timer is single-flight.  In every state the
    content script reaches at most one save is pending, and one is
    pending exactly when [cacheSaveTimer] is set; a put of a non-empty
    key always leaves exactly one save pending, so any number of puts
    within the delay are persisted by one write; and when the timer
    fires it clears [cacheSaveTimer] and hands the cache, as it is at
    that moment, to storage. *)
Theorem cache_save_single_flight (loaded : Settings) (evs : list Event) :
  let st := run (init loaded initialState) evs in
  pendingSaves st <= 1
  /\ (pendingSaves st = 1 <-> cacheSaveTimer st <> None)
  /\ (forall key isMusic,
        key <> "" ->
        cacheSaveTimer (cacheSet key isMusic st) <> None
        /\ pendingSaves (cacheSet key isMusic st) = 1)
  /\ cacheSaveTimer (cacheSaveCallback st) = None
  /\ persisted (cacheSaveCallback st) = Some (decisionCache st).
Proof.
  intros st.
  pose proof (saveFlight_run _ evs (saveFlight_init loaded)) as H. fold st in H.
  split; [|split; [|split; [|split; reflexivity]]].
  - unfold saveFlight in H. rewrite H. destruct (cacheSaveTimer st); lia.
  - unfold saveFlight in H. rewrite H.
    destruct (cacheSaveTimer st); split; congruence.
  - intros key isMusic Hk.
    assert (Js.isEmpty key = false) as Hk' by (destruct key; [congruence|reflexivity]).
    pose proof (cacheSet_arms_save key isMusic st Hk') as Ha.
    split; [exact Ha|].
    pose proof (saveFlight_cacheSet key isMusic st H) as Hs.
    unfold saveFlight in Hs. rewrite Hs.
    destruct (cacheSaveTimer (cacheSet key isMusic st)) eqn:Et;
      [reflexivity|]. elim Ha. reflexivity.
Qed.

(** X13: the marker classes stay consistent.  In every state the
    content script reaches, a node that carries [mv-hidden] also
    carries [mv-blocked]; while the setting [showBlocked] is on no node
    carries [mv-hidden]; and the class [mv-show-blocked] of the root
    element mirrors the setting. *)
Theorem marker_classes_consistent (loaded : Settings) (evs : list Event) :
  let st := run (init loaded initialState) evs in
  (forall el e, elements st !! el = Some e ->
                mvHidden e = true -> mvBlocked e = true)
  /\ (showBlocked (settings st) = true ->
      forall el e, elements st !! el = Some e -> mvHidden e = false)
  /\ rootShowBlocked st = showBlocked (settings st).
Proof. intros st. apply (marks_run _ evs (marks_init loaded)). Qed.

(** X14: what [applyShowBlocked] changes.  It sets the setting and the
    root class to its argument; with the argument true every blocked
    node loses [mv-hidden], with the argument false no node changes at
    once (the nodes to hide again are left to the hide timers); in both
    cases the decision cache, the [mv-blocked] marks and the processed
    flags and keys of all nodes stay as they are. *)
Theorem applyShowBlocked_effect (show : bool) (st : State) :
  settings (applyShowBlocked show st) = set_showBlocked show (settings st)
  /\ rootShowBlocked (applyShowBlocked show st) = show
  /\ decisionCache (applyShowBlocked show st) = decisionCache st
  /\ scanEpoch (applyShowBlocked show st) = scanEpoch st
  /\ (forall x,
        elements (applyShowBlocked show st) !! x
        = (fun e => if show && mvBlocked e then set_mvHidden false e else e)
            <$> elements st !! x)
  /\ elements (applyShowBlocked false st) = elements st.
Proof.
  destruct (applyShowBlocked_fields show st) as (A & B & C).
  destruct (quiet_applyShowBlocked show st) as (_ & D & _).
  repeat split; try assumption.
  - apply applyShowBlocked_lookup.
  - apply map_eq. intros x. rewrite applyShowBlocked_lookup. simpl.
    destruct (elements st !! x); reflexivity.
Qed.

(** ** The cache across a session *)

Lemma cacheInv_same (P : CacheMap -> Prop) (st st' : State) :
  decisionCache st' = decisionCache st ->
  P (decisionCache st) -> P (decisionCache st').
Proof. intros ->. trivial. Qed.

Lemma decisionCache_hideElement (el : nat) (st : State) :
  decisionCache (hideElement el st) = decisionCache st.
Proof. apply hideElement_fields. Qed.

Section CacheSteps.
Variable P : CacheMap -> Prop.
Hypothesis P_cacheGet :
  forall key st, P (decisionCache st) -> P (decisionCache (snd (cacheGet key st))).
Hypothesis P_cacheSet :
  forall key isMusic st,
    P (decisionCache st) -> P (decisionCache (cacheSet key isMusic st)).

Lemma cacheInv_scanNow (page : Page) (st : State) :
  P (decisionCache st) -> P (decisionCache (scanNow page st)).
Proof.
  apply (Inv_scanNow (fun s => P (decisionCache s))).
  - intros el f s _. apply cacheInv_same. reflexivity.
  - intros el s. apply cacheInv_same. reflexivity.
  - intros f s. apply cacheInv_same. reflexivity.
  - intros el s. apply cacheInv_same, decisionCache_hideElement.
  - intros el s. apply cacheInv_same. reflexivity.
  - exact P_cacheGet.
  - exact P_cacheSet.
  - intros s. apply cacheInv_same. reflexivity.
Qed.

Lemma cacheInv_rescanAll (page : Page) (st : State) :
  P (decisionCache st) -> P (decisionCache (rescanAll page st)).
Proof.
  intros H. unfold rescanAll. apply cacheInv_scanNow.
  rewrite decisionCache_clearTargets. exact H.
Qed.

Lemma cacheInv_step (st : State) (ev : Event) :
  isLoad ev = false ->
  P (decisionCache st) -> P (decisionCache (step st ev)).
Proof.
  intros Hev H.
  destruct ev as [|id page|page|show|newValue page|raw|doc|t]; simpl;
    try discriminate Hev.
  - unfold scheduleScan. destruct (scanTimer st); [exact H|]. exact H.
  - destruct (takeTimer id (timers st)) as [[t rest]|]; [|exact H].
    destruct (timerTask t).
    + unfold scanCallback. apply cacheInv_scanNow. exact H.
    + unfold hideCallback. simpl. destruct (elements st !! element); [|exact H].
      destruct (_ && _); exact H.
    + exact H.
  - apply cacheInv_rescanAll, H.
  - destruct (applyShowBlocked_fields show st) as (_ & _ & C). rewrite C. exact H.
  - apply cacheInv_rescanAll.
    match goal with
    | |- context [applyShowBlocked ?b ?s] =>
        destruct (applyShowBlocked_fields b s) as (_ & _ & C)
    end.
    rewrite C. exact H.
  - exact H.
  - exact H.
Qed.
End CacheSteps.

Lemma uniqueKeys_loadCache (raw : list (string * StoredValue)) (st : State) :
  uniqueKeys st -> uniqueKeys (loadCache raw st).
Proof.
  unfold loadCache. apply (Inv_fold uniqueKeys). intros s [k v] Hs. simpl.
  destruct v; [|exact Hs]. unfold uniqueKeys. simpl.
  apply mapKeys_NoDup_mapSet, Hs.
Qed.

Lemma uniqueKeys_step (st : State) (ev : Event) :
  uniqueKeys st -> uniqueKeys (step st ev).
Proof.
  intros H. destruct (isLoad ev) eqn:Hev.
  - destruct ev; try discriminate Hev. apply uniqueKeys_loadCache, H.
  - apply (cacheInv_step (fun c => List.NoDup (mapKeys c)));
      [exact mapKeys_NoDup_cacheGet|exact mapKeys_NoDup_cacheSet|exact Hev|exact H].
Qed.

Lemma uniqueKeys_run (st : State) (evs : list Event) :
  uniqueKeys st -> uniqueKeys (run st evs).
Proof.
  revert st. induction evs as [|ev later IH]; intros st H; [exact H|].
  apply IH, uniqueKeys_step, H.
Qed.

Lemma init_cache (loaded : Settings) :
  decisionCache (init loaded initialState) = [].
Proof.
  unfold init.
  assert (forall s, decisionCache (scheduleScan s) = decisionCache s) as Hs
      by (intros s; unfold scheduleScan; destruct (scanTimer s); reflexivity).
  rewrite Hs.
  match goal with
  | |- context [applyShowBlocked ?b ?s] =>
      destruct (applyShowBlocked_fields b s) as (_ & _ & C)
  end.
  rewrite C. reflexivity.
Qed.

Lemma uniqueKeys_reachable (loaded : Settings) (evs : list Event) :
  uniqueKeys (run (init loaded initialState) evs).
Proof.
  apply uniqueKeys_run. unfold uniqueKeys. rewrite init_cache. constructor.
Qed.

Lemma withinBound_cacheGet (key : string) (st : State) :
  withinBound st -> withinBound (snd (cacheGet key st)).
Proof.
  intros [Hnd Hb]. split; [apply mapKeys_NoDup_cacheGet, Hnd|].
  pose proof (cacheGet_length key st). lia.
Qed.

Lemma withinBound_cacheSet (key : string) (isMusic : bool) (st : State) :
  withinBound st -> withinBound (cacheSet key isMusic st).
Proof.
  intros [Hnd Hb]. split; [apply mapKeys_NoDup_cacheSet, Hnd|].
  apply cacheSet_length, Hb.
Qed.

Lemma withinBound_step (st : State) (ev : Event) :
  isLoad ev = false -> withinBound st -> withinBound (step st ev).
Proof.
  apply (cacheInv_step
           (fun c => List.NoDup (mapKeys c) /\ length c <= MAX_CACHE_ENTRIES)).
  - exact withinBound_cacheGet.
  - exact withinBound_cacheSet.
Qed.

Lemma withinBound_run (st : State) (evs : list Event) :
  forallb (fun ev => negb (isLoad ev)) evs = true ->
  withinBound st -> withinBound (run st evs).
Proof.
  revert st. induction evs as [|ev later IH]; intros st Hevs H; [exact H|].
  simpl in Hevs. apply andb_prop in Hevs as [Hev Hlater].
  apply negb_true_iff in Hev. apply IH; [exact Hlater|].
  apply withinBound_step; assumption.
Qed.

Lemma storedUnder_loadCache (key : string) (raw : list (string * StoredValue))
  (st : State) :
  mapGet key (decisionCache (loadCache raw st))
  = match storedUnder key raw with
    | Some e => Some e
    | None => mapGet key (decisionCache st)
    end.
Proof.
  revert st. induction raw as [|[k v] rest IH]; intros st; [reflexivity|].
  change (loadCache ((k, v) :: rest) st)
    with (loadCache rest
            (match v with
             | WellFormed value =>
                 set_decisionCache (mapSet k value (decisionCache st)) st
             | Malformed => st
             end)).
  rewrite IH. cbn [storedUnder].
  destruct (storedUnder key rest); [reflexivity|].
  destruct v as [value|]; [|reflexivity]. simpl.
  destruct (String.eqb k key) eqn:E.
  - apply String.eqb_eq in E. subst k. apply mapGet_mapSet_eq.
  - apply String.eqb_neq in E. apply mapGet_mapSet_ne, E.
Qed.

(** *** The order of the keys *)

Lemma cacheGet_keys (key : string) (entry : Entry.t) (st : State) :
  Js.isEmpty key = false ->
  mapGet key (decisionCache st) = Some entry ->
  mapKeys (decisionCache (snd (cacheGet key st)))
  = List.filter (fun k => negb (String.eqb k key)) (mapKeys (decisionCache st))
    ++ [key].
Proof.
  intros Hk Hm. rewrite (cacheGet_found _ _ _ Hk Hm). simpl.
  rewrite mapKeys_mapSet_absent by apply mapGet_mapDelete_eq.
  rewrite mapKeys_mapDelete. reflexivity.
Qed.

Lemma cacheSet_keys_present (key : string) (isMusic : bool) (entry : Entry.t)
  (st : State) :
  Js.isEmpty key = false ->
  length (decisionCache st) <= MAX_CACHE_ENTRIES ->
  mapGet key (decisionCache st) = Some entry ->
  mapKeys (decisionCache (cacheSet key isMusic st)) = mapKeys (decisionCache st).
Proof.
  intros Hk Hb Hm. rewrite cacheSet_no_eviction; [|exact Hk|].
  - apply (mapKeys_mapSet_present _ _ _ _ Hm).
  - rewrite (mapSet_present_length _ _ _ _ Hm). exact Hb.
Qed.

Lemma cacheSet_keys_absent (key : string) (isMusic : bool) (st : State) :
  Js.isEmpty key = false ->
  uniqueKeys st ->
  length (decisionCache st) <= MAX_CACHE_ENTRIES ->
  mapGet key (decisionCache st) = None ->
  mapKeys (decisionCache (cacheSet key isMusic st))
  = (if Nat.ltb (length (decisionCache st)) MAX_CACHE_ENTRIES
     then mapKeys (decisionCache st)
     else tl (mapKeys (decisionCache st))) ++ [key].
Proof.
  intros Hk Hnd Hb Hm.
  destruct (Nat.ltb (length (decisionCache st)) MAX_CACHE_ENTRIES) eqn:Hlt.
  - apply Nat.ltb_lt in Hlt. rewrite cacheSet_no_eviction; [|exact Hk|].
    + apply mapKeys_mapSet_absent, Hm.
    + rewrite (mapSet_absent _ _ _ Hm), length_app. simpl. lia.
  - apply Nat.ltb_ge in Hlt.
    rewrite cacheSet_evicts_oldest; [|exact Hk|exact Hnd|exact Hm|lia].
    unfold mapKeys. rewrite List.map_app. simpl.
    destruct (decisionCache st); reflexivity.
Qed.

(** *** Epoch stamps *)

Lemma stamps_same (st st' : State) :
  elements st' = elements st -> scanEpoch st' = scanEpoch st ->
  stampsBounded st -> stampsBounded st'.
Proof. unfold stampsBounded. intros -> ->. trivial. Qed.

Lemma stamps_updateElement (el : nat) (f : Element -> Element) (st : State) :
  (forall e, mvEpoch (dataset (f e)) = mvEpoch (dataset e)
             \/ mvEpoch (dataset (f e)) = Some (scanEpoch st)) ->
  stampsBounded st -> stampsBounded (updateElement el f st).
Proof.
  intros Hf H x e' k. unfold updateElement. simpl.
  destruct (decide (x = el)) as [->|Hne].
  - rewrite lookup_alter_eq. destruct (elements st !! el) as [e|] eqn:E;
      simpl; [|discriminate].
    intros [= <-] Hk. destruct (Hf e) as [Hs|Hs]; rewrite Hs in Hk.
    + apply (H el e k E Hk).
    + injection Hk as <-. lia.
  - rewrite lookup_alter_ne by congruence. apply H.
Qed.

Lemma stamps_hideElement (el : nat) (st : State) :
  stampsBounded st -> stampsBounded (hideElement el st).
Proof.
  intros H. unfold hideElement.
  assert (stampsBounded (updateElement el (set_mvBlocked true) st)) as H1
      by (apply stamps_updateElement; [intros e; left; reflexivity|exact H]).
  destruct (showBlocked _); [exact H1|].
  revert H1. apply stamps_same; reflexivity.
Qed.

Lemma stamps_unhideElement (el : nat) (st : State) :
  stampsBounded st -> stampsBounded (unhideElement el st).
Proof.
  rewrite unhideElement_once. apply stamps_updateElement.
  intros e. left. reflexivity.
Qed.

Lemma stamps_scan_hyps :
  (forall el f st, (forall d, mvEpoch (f d) = mvEpoch d) ->
                   stampsBounded st -> stampsBounded (updateDataset el f st))
  /\ (forall el st, stampsBounded st -> stampsBounded (markEpoch el st))
  /\ (forall f st, stampsBounded st -> stampsBounded (updateDebug f st))
  /\ (forall key st, stampsBounded st -> stampsBounded (snd (cacheGet key st)))
  /\ (forall key isMusic st,
        stampsBounded st -> stampsBounded (cacheSet key isMusic st))
  /\ (forall st, stampsBounded st ->
                 stampsBounded (set_scanEpoch (S (scanEpoch st)) st)).
Proof.
  split; [|split; [|split; [|split; [|split]]]].
  - intros el f st Hf. apply stamps_updateElement. intros e. left. apply Hf.
  - intros el st. apply stamps_updateElement. intros e. right. reflexivity.
  - intros f st. apply stamps_same; reflexivity.
  - intros key st. apply stamps_same; [apply elements_cacheGet|].
    apply (quiet_cacheGet key st).
  - intros key isMusic st. apply stamps_same; [apply elements_cacheSet|].
    apply (quiet_cacheSet key isMusic st).
  - intros st H el e k E Hk. simpl. specialize (H el e k E Hk). lia.
Qed.

Lemma stamps_scanNow (page : Page) (st : State) :
  stampsBounded st -> stampsBounded (scanNow page st).
Proof.
  destruct stamps_scan_hyps as (A & B & C & D & E & F).
  apply Inv_scanNow; try assumption;
    [exact stamps_hideElement|exact stamps_unhideElement].
Qed.

Lemma stamps_rescanAll (page : Page) (st : State) :
  stampsBounded st -> stampsBounded (rescanAll page st).
Proof.
  destruct stamps_scan_hyps as (A & B & C & D & E & F).
  apply Inv_rescanAll; try assumption;
    [exact stamps_hideElement|exact stamps_unhideElement].
Qed.

Lemma stamps_applyShowBlocked (show : bool) (st : State) :
  stampsBounded st -> stampsBounded (applyShowBlocked show st).
Proof.
  intros H x e' k. rewrite applyShowBlocked_lookup.
  destruct (quiet_applyShowBlocked show st) as (_ & -> & _).
  destruct (elements st !! x) as [e|] eqn:E; simpl; [|discriminate].
  intros [= <-] Hk. apply (H x e k E).
  destruct (show && mvBlocked e); exact Hk.
Qed.

Lemma stamps_step (st : State) (ev : Event) :
  stampsBounded st -> stampsBounded (step st ev).
Proof.
  intros H. destruct ev as [|id page|page|show|newValue page|raw|doc|t]; simpl.
  - revert H. apply stamps_same; [|apply scheduleScan_epoch].
    unfold scheduleScan. destruct (scanTimer st); reflexivity.
  - destruct (takeTimer id (timers st)) as [[t rest]|]; [|exact H].
    destruct (timerTask t).
    + unfold scanCallback. apply stamps_scanNow.
      revert H. apply stamps_same; reflexivity.
    + unfold hideCallback. simpl.
      destruct (elements st !! element) as [e|]; [|exact H].
      destruct (_ && _); [|exact H].
      apply stamps_updateElement; [intros e0; left; reflexivity|exact H].
    + exact H.
  - apply stamps_rescanAll, H.
  - apply stamps_applyShowBlocked, H.
  - apply stamps_rescanAll, stamps_applyShowBlocked.
    revert H. apply stamps_same; reflexivity.
  - revert H. apply stamps_same; [|apply (quiet_loadCache raw st)].
    unfold loadCache. generalize st. induction raw as [|[k v] rest IH];
      intros s; [reflexivity|].
    simpl. rewrite IH. destruct v; reflexivity.
  - intros x e' k. unfold render. simpl. rewrite map_lookup_imap.
    destruct (doc !! x) as [fields|]; simpl; [|discriminate].
    destruct (elements st !! x) as [e|] eqn:E; intros [= <-]; simpl.
    + apply (H x e k E).
    + discriminate.
  - exact H.
Qed.

Lemma stamps_run (st : State) (evs : list Event) :
  stampsBounded st -> stampsBounded (run st evs).
Proof.
  revert st. induction evs as [|ev later IH]; intros st H; [exact H|].
  apply IH, stamps_step, H.
Qed.

Lemma stamps_init (loaded : Settings) :
  stampsBounded (init loaded initialState).
Proof.
  unfold init.
  match goal with
  | |- stampsBounded (scheduleScan ?s) =>
      assert (stampsBounded s) as H
  end.
  { apply stamps_applyShowBlocked. intros el e k. simpl.
    rewrite lookup_empty. discriminate. }
  revert H. apply stamps_same; [|apply scheduleScan_epoch].
  unfold scheduleScan.
  match goal with |- context [scanTimer ?s] => destruct (scanTimer s) end;
    reflexivity.
Qed.

(** X15: the order in which the cache evicts.  For a non-empty key and
    a cache within its bound: a hit moves the key behind all others,
    which keep their order; a put of a key that is present leaves the
    order as it is (the key keeps its place); a put of a new key
    appends it, after dropping the first key when the cache is full.
    So the key evicted by a put is always the one whose last hit or
    insertion is the oldest. *)
Theorem cache_eviction_order (key : string) (isMusic : bool) (st : State) :
  key <> "" ->
  List.NoDup (mapKeys (decisionCache st)) ->
  length (decisionCache st) <= MAX_CACHE_ENTRIES ->
  let keys := mapKeys (decisionCache st) in
  (mapGet key (decisionCache st) <> None ->
   mapKeys (decisionCache (snd (cacheGet key st)))
   = List.filter (fun k => negb (String.eqb k key)) keys ++ [key]
   /\ mapKeys (decisionCache (cacheSet key isMusic st)) = keys)
  /\ (mapGet key (decisionCache st) = None ->
      mapKeys (decisionCache (snd (cacheGet key st))) = keys
      /\ mapKeys (decisionCache (cacheSet key isMusic st))
         = (if Nat.ltb (length (decisionCache st)) MAX_CACHE_ENTRIES
            then keys else tl keys) ++ [key]).
Proof.
  intros Hk Hnd Hb keys.
  assert (Js.isEmpty key = false) as Hk'
      by (destruct key; [congruence|reflexivity]).
  split.
  - destruct (mapGet key (decisionCache st)) as [entry|] eqn:Hm; [|congruence].
    intros _. split.
    + apply (cacheGet_keys _ _ _ Hk' Hm).
    + apply (cacheSet_keys_present _ _ _ _ Hk' Hb Hm).
  - intros Hm. split.
    + rewrite (cacheGet_absent _ _ Hm). reflexivity.
    + apply (cacheSet_keys_absent _ _ _ Hk' Hnd Hb Hm).
Qed.

(** A cache that holds [id:a] and [id:b], in this order: a hit on
    [id:a] moves it behind [id:b]. *)
Lemma cache_eviction_order_witness :
  let st := cacheSet "id:b" true (cacheSet "id:a" false initialState) in
  mapKeys (decisionCache st) = ["id:a"; "id:b"]
  /\ mapKeys (decisionCache (snd (cacheGet "id:a" st))) = ["id:b"; "id:a"]
  /\ mapKeys (decisionCache (cacheSet "id:a" true st)) = ["id:a"; "id:b"].
Proof.
  split; [reflexivity|].
  apply (proj1 (cache_eviction_order "id:a" true
                  (cacheSet "id:b" true (cacheSet "id:a" false initialState))
                  ltac:(discriminate)
                  ltac:(repeat constructor; simpl; intuition discriminate)
                  ltac:(unfold MAX_CACHE_ENTRIES; simpl; lia))).
  discriminate.
Defined.

(** X16: without the load path the bound holds.  In every state the
    content script reaches through events other than the arrival of the
    persisted cache, the decision cache holds at most
    [MAX_CACHE_ENTRIES] entries. *)
Theorem cache_bound_without_load (loaded : Settings) (evs : list Event) :
  forallb (fun ev => negb (isLoad ev)) evs = true ->
  length (decisionCache (run (init loaded initialState) evs))
  <= MAX_CACHE_ENTRIES.
Proof.
  intros Hevs.
  apply (withinBound_run (init loaded initialState) evs Hevs).
  split.
  - unfold uniqueKeys. rewrite init_cache. constructor.
  - rewrite init_cache. simpl. lia.
Qed.

(** A page render, a scan request, the scan, a refresh. *)
Lemma cache_bound_without_load_witness :
  length
    (decisionCache
       (run (init DEFAULTS initialState)
          [DomReplaced {[ 0 := fieldsOf "Some Song" "" "3:10" (Some "abc") ]};
           ChangeSignal; TimerFires 1 (homePage [0]); Refresh (homePage [0])]))
  <= MAX_CACHE_ENTRIES.
Proof.
  apply (cache_bound_without_load DEFAULTS
           [DomReplaced {[ 0 := fieldsOf "Some Song" "" "3:10" (Some "abc") ]};
            ChangeSignal; TimerFires 1 (homePage [0]); Refresh (homePage [0])]).
  reflexivity.
Defined.

(** X17: how [loadCache] merges.  After the persisted object has been
    read, the entry under a key is the well-formed value the object
    holds under that key, if it holds one; otherwise (the key is absent
    from the object, or its value is malformed) it is what the cache
    held before.  So persisted entries overwrite entries decided before
    the read resolved, and malformed values are ignored. *)
Theorem loadCache_merges (key : string) (raw : list (string * StoredValue))
  (st : State) :
  mapGet key (decisionCache (loadCache raw st))
  = match storedUnder key raw with
    | Some e => Some e
    | None => mapGet key (decisionCache st)
    end.
Proof. apply storedUnder_loadCache. Qed.

(** With distinct keys, the Map holds a pair exactly when [mapGet]
    finds it, so reordering the entries changes no lookup. *)
Lemma mapGet_Some_In (key : string) (e : Entry.t) (m : CacheMap) :
  List.NoDup (mapKeys m) -> (mapGet key m = Some e <-> In (key, e) m).
Proof.
  induction m as [|[k e0] rest IH]; simpl; intros Hnd.
  - split; [discriminate|tauto].
  - inversion Hnd as [|? ? Hk Hrest]; subst.
    destruct (String.eqb k key) eqn:E.
    + apply String.eqb_eq in E. subst k. split.
      * intros [= ->]. left. reflexivity.
      * intros [[= ->]|Hin]; [reflexivity|].
        elim Hk. apply (in_map fst) in Hin. exact Hin.
    + apply String.eqb_neq in E. rewrite (IH Hrest). split; [tauto|].
      intros [[= -> _]|Hin]; [congruence|exact Hin].
Qed.

Lemma mapGet_Permutation (key : string) (m m' : CacheMap) :
  List.NoDup (mapKeys m) -> Permutation m m' -> mapGet key m = mapGet key m'.
Proof.
  intros Hnd Hp.
  assert (List.NoDup (mapKeys m')) as Hnd'
      by (eapply Permutation_NoDup; [apply Permutation_map, Hp|exact Hnd]).
  destruct (mapGet key m) as [e|] eqn:Hm.
  - symmetry. apply (mapGet_Some_In _ _ _ Hnd').
    apply (Permutation_in _ Hp), (mapGet_Some_In _ _ _ Hnd), Hm.
  - destruct (mapGet key m') as [e'|] eqn:Hm'; [|reflexivity].
    apply (mapGet_Some_In _ _ _ Hnd') in Hm'.
    apply (Permutation_in _ (Permutation_sym Hp)) in Hm'.
    apply (mapGet_Some_In _ _ _ Hnd) in Hm'. congruence.
Qed.

(** X18: what one session persists, the next one loads back.  In every
    state the content script reaches the keys of the cache are
    distinct, and the save callback hands the whole cache to storage.
    When a fresh content script receives these entries from storage, in
    whatever order, [loadCache] rebuilds a cache with the same entry
    under every key and the same number of entries; its order is the
    order in which the entries were listed. *)
Theorem cache_save_load_roundtrip (loaded : Settings) (evs : list Event)
  (raw : list (string * StoredValue)) :
  let st := run (init loaded initialState) evs in
  Permutation raw (snapshotOf (decisionCache st)) ->
  List.NoDup (mapKeys (decisionCache st))
  /\ persisted (cacheSaveCallback st) = Some (decisionCache st)
  /\ (forall key,
        mapGet key (decisionCache (loadCache raw initialState))
        = mapGet key (decisionCache st))
  /\ length (decisionCache (loadCache raw initialState))
     = length (decisionCache st)
  /\ snapshotOf (decisionCache (loadCache raw initialState)) = raw.
Proof.
  intros st Hp. pose proof (uniqueKeys_reachable loaded evs) as H. fold st in H.
  unfold uniqueKeys in H.
  split; [exact H|]. split; [reflexivity|].
  unfold snapshotOf in Hp.
  apply Permutation_map_inv in Hp as (entries & -> & Hp).
  assert (List.NoDup (mapKeys entries)) as Hnd
      by (eapply Permutation_NoDup; [apply Permutation_map, Hp|exact H]).
  fold (snapshotOf entries).
  rewrite loadCache_snapshot; [|exact Hnd|reflexivity].
  change (decisionCache initialState ++ entries) with entries.
  split; [|split; [|reflexivity]].
  - intros key. symmetry. apply mapGet_Permutation; assumption.
  - symmetry. apply Permutation_length, Hp.
Qed.

(** Two tiles decided by a forced rescan; storage hands the two entries
    back in the other order. *)
Lemma cache_save_load_roundtrip_witness :
  let st := run (init DEFAULTS initialState)
              [DomReplaced {[ 0 := fieldsOf "Some Song" "" "3:10" (Some "abc");
                              1 := fieldsOf "Other Song" "" "" (Some "xyz") ]};
               Refresh (homePage [0; 1])] in
  let raw := [("id:xyz", WellFormed sampleEntry);
              ("id:abc", WellFormed sampleEntry)] in
  mapKeys (decisionCache st) = ["id:abc"; "id:xyz"]
  /\ mapKeys (decisionCache (loadCache raw initialState)) = ["id:xyz"; "id:abc"]
  /\ forall key,
       mapGet key (decisionCache (loadCache raw initialState))
       = mapGet key (decisionCache st).
Proof.
  assert (decisionCache
            (run (init DEFAULTS initialState)
               [DomReplaced
                  {[ 0 := fieldsOf "Some Song" "" "3:10" (Some "abc");
                     1 := fieldsOf "Other Song" "" "" (Some "xyz") ]};
                Refresh (homePage [0; 1])])
          = [("id:abc", sampleEntry); ("id:xyz", sampleEntry)]) as Hc
      by (vm_compute; reflexivity).
  split; [rewrite Hc; reflexivity|]. split; [reflexivity|].
  refine (proj1 (proj2 (proj2
            (cache_save_load_roundtrip DEFAULTS
               [DomReplaced
                  {[ 0 := fieldsOf "Some Song" "" "3:10" (Some "abc");
                     1 := fieldsOf "Other Song" "" "" (Some "xyz") ]};
                Refresh (homePage [0; 1])]
               [("id:xyz", WellFormed sampleEntry);
                ("id:abc", WellFormed sampleEntry)] _)))).
  rewrite Hc. apply perm_swap.
Defined.

(** ** Targets, scans and rescans *)

(** *** Candidates *)

Lemma setAdd_spec (el : nat) (acc : list nat) :
  List.NoDup acc ->
  List.NoDup (setAdd el acc)
  /\ forall x, In x (setAdd el acc) <-> In x acc \/ x = el.
Proof.
  intros Hnd. unfold setAdd. destruct (existsb (Nat.eqb el) acc) eqn:Hex.
  - split; [exact Hnd|]. intros x. split; [tauto|].
    intros [H| ->]; [exact H|]. apply existsb_In, Hex.
  - split.
    + apply List.NoDup_app; [exact Hnd|constructor; [intros []|constructor]|].
      intros x Hx [<-|[]].
      apply existsb_In in Hx. congruence.
    + intros x. rewrite in_app_iff. simpl. split.
      * intros [H|[H|[]]]; [left; exact H|right; congruence].
      * intros [H|H]; [left; exact H|right; left; congruence].
Qed.

Lemma fold_setAdd_spec (l acc : list nat) :
  List.NoDup acc ->
  List.NoDup (fold_left (fun a el => setAdd el a) l acc)
  /\ forall x, In x (fold_left (fun a el => setAdd el a) l acc)
               <-> In x acc \/ In x l.
Proof.
  revert acc. induction l as [|el l IH]; intros acc Hnd; simpl.
  - split; [exact Hnd|]. intros x. tauto.
  - destruct (setAdd_spec el acc Hnd) as [Hnd1 Hin1].
    destruct (IH _ Hnd1) as [Hnd2 Hin2]. split; [exact Hnd2|].
    intros x. rewrite Hin2, Hin1. split.
    + intros [[H|H]|H]; [left; exact H|right; left; congruence|right; right; exact H].
    + intros [H|[H|H]]; [left; left; exact H|left; right; congruence|right; exact H].
Qed.

Lemma collectCandidates_spec (target : Target) :
  List.NoDup (collectCandidates target)
  /\ forall x, In x (collectCandidates target)
               <-> In x (selectorMatches target)
                   \/ (context target = "watch-sidebar"
                       /\ In x (fallbackContainers target)).
Proof.
  unfold collectCandidates.
  destruct (fold_setAdd_spec (selectorMatches target) [] (List.NoDup_nil _))
    as [Hnd1 Hin1].
  destruct (String.eqb (context target) "watch-sidebar") eqn:Hc.
  - apply String.eqb_eq in Hc.
    destruct (fold_setAdd_spec (fallbackContainers target) _ Hnd1) as [Hnd2 Hin2].
    split; [exact Hnd2|]. intros x. rewrite Hin2, Hin1. simpl. tauto.
  - apply String.eqb_neq in Hc. split; [exact Hnd1|].
    intros x. rewrite Hin1. simpl. tauto.
Qed.

(** *** Keys *)

Lemma append_inj_l (a b c : string) : a +:+ b = a +:+ c -> b = c.
Proof.
  induction a as [|x r IH]; [trivial|].
  rewrite !append_cons. intros [= H]. apply IH, H.
Qed.

Lemma truthyOpt_some (o : option string) :
  truthyOpt o = true -> exists s, o = Some s /\ s <> "".
Proof.
  destruct o as [s|]; [|discriminate]. simpl. intros H. exists s.
  split; [reflexivity|]. intros ->. discriminate H.
Qed.

Lemma cacheKey_cases (fields : RawFields) :
  (exists id, rawVideoId fields = Some id /\ id <> ""
              /\ cacheKey (extractVideoData fields) = Some ("id:" +:+ id))
  \/ (truthyOpt (rawVideoId fields) = false
      /\ normalizeText (rawTitle fields) <> ""
      /\ cacheKey (extractVideoData fields)
         = Some ("title:" +:+ normalizeText (rawTitle fields)))
  \/ (truthyOpt (rawVideoId fields) = false
      /\ normalizeText (rawTitle fields) = ""
      /\ cacheKey (extractVideoData fields) = None).
Proof.
  unfold extractVideoData. simpl.
  destruct (truthyOpt (rawVideoId fields)) eqn:Hid.
  - left. destruct (truthyOpt_some _ Hid) as [id [E Hne]].
    exists id. rewrite E. auto.
  - right. destruct (normalizeText (rawTitle fields)) eqn:Hn; simpl.
    + right. auto.
    + left. repeat split. discriminate.
Qed.

(** *** Scans *)

Lemma processCandidate_decided (page : Page) (context : string) (el : nat)
  (st : State) (e : Element) :
  elements st !! el = Some e ->
  mvEpoch (dataset e) <> Some (scanEpoch st) ->
  exists e',
    elements (processCandidate page context el st) !! el = Some e'
    /\ if visitSkips page context e
       then e' = stampedWith (scanEpoch st) e
       else decidedNode (scanEpoch st)
              (elementKeyOf (extractVideoData (raw e)))
              (decisionFor (extractVideoData (raw e)) st) e e'.
Proof.
  intros Hel Hs.
  apply (touches_lookup _ _ _ _ _
           (processCandidate_visit page context el st e Hel Hs) Hel).
Qed.

(** The first visit of [el] in a pass over [l]: the candidates before
    it leave it alone, its own visit decides it with the cache as the
    earlier visits left it, and the later ones find its stamp. *)
Lemma fold_processCandidate_decided (page : Page) (context : string)
  (el : nat) (l : list nat) (st : State) (e : Element) :
  In el l ->
  elements st !! el = Some e ->
  mvEpoch (dataset e) <> Some (scanEpoch st) ->
  exists before after e',
    l = before ++ el :: after
    /\ elements
         (fold_left (fun acc y => processCandidate page context y acc) l st)
         !! el = Some e'
    /\ if visitSkips page context e
       then e' = stampedWith (scanEpoch st) e
       else decidedNode (scanEpoch st)
              (elementKeyOf (extractVideoData (raw e)))
              (decisionFor (extractVideoData (raw e))
                 (fold_left (fun acc y => processCandidate page context y acc)
                    before st))
              e e'.
Proof.
  revert st. induction l as [|y l IH]; intros st Hin Hel Hs; [destruct Hin|].
  cbn [fold_left]. destruct (decide (y = el)) as [->|Hne].
  - destruct (processCandidate_decided page context el st e Hel Hs)
      as [e' [E V]].
    exists [], l, e'. split; [reflexivity|]. split; [|exact V].
    apply visited_kept_fold; [exact E|].
    rewrite processCandidate_scanEpoch.
    destruct (visitSkips page context e).
    + subst e'. reflexivity.
    + apply (decidedNode_epoch _ _ _ _ _ V).
  - destruct Hin as [->|Hin]; [congruence|].
    destruct (IH (processCandidate page context y st) Hin)
      as (before & after & e' & El & E & V).
    + rewrite processCandidate_frame by congruence. exact Hel.
    + rewrite processCandidate_scanEpoch. exact Hs.
    + exists (y :: before), after, e'. split; [rewrite El; reflexivity|].
      split; [exact E|]. rewrite processCandidate_scanEpoch in V. exact V.
Qed.

Lemma scanNow_targets (page : Page) (target : Target) :
  In target (getScanTargets page) -> getScanTargets page = [target].
Proof.
  destruct (getScanTargets_cases page)
    as [E|[(found & _ & _ & E)|(found & viaLinks & _ & _ & E)]];
    rewrite E; simpl; intros H; try tauto; destruct H as [->|[]]; reflexivity.
Qed.

Lemma scanNow_decided (page : Page) (st : State) (target : Target) (el : nat)
  (e : Element) :
  In target (getScanTargets page) ->
  In el (collectCandidates target) ->
  elements st !! el = Some e ->
  mvEpoch (dataset e) <> Some (S (scanEpoch st)) ->
  exists st0 before after e',
    collectCandidates target = before ++ el :: after
    /\ decisionCache st0 = decisionCache st
    /\ settings st0 = settings st /\ matchers st0 = matchers st
    /\ elements (scanNow page st) !! el = Some e'
    /\ if visitSkips page (context target) e
       then e' = stampedWith (S (scanEpoch st)) e
       else decidedNode (S (scanEpoch st))
              (elementKeyOf (extractVideoData (raw e)))
              (decisionFor (extractVideoData (raw e))
                 (fold_left
                    (fun acc y => processCandidate page (context target) y acc)
                    before st0))
              e e'.
Proof.
  intros Ht Hin Hel Hs.
  destruct (scanNow_single page st target (scanNow_targets _ _ Ht))
    as (st0 & A1 & A2 & A3 & A4 & A5 & _ & _ & E).
  destruct (fold_processCandidate_decided page (context target) el
              (collectCandidates target) st0 e Hin)
    as (before & after & e' & El & E' & V).
  - rewrite A1. exact Hel.
  - rewrite A2. exact Hs.
  - exists st0, before, after, e'. rewrite E, <- A2.
    repeat split; assumption.
Qed.

Lemma scanNow_visited (page : Page) (st : State) (target : Target) (el : nat)
  (e : Element) :
  In target (getScanTargets page) ->
  In el (collectCandidates target) ->
  elements st !! el = Some e ->
  mvEpoch (dataset e) <> Some (S (scanEpoch st)) ->
  exists e', elements (scanNow page st) !! el = Some e'
             /\ visited page (context target) (S (scanEpoch st)) e e'.
Proof.
  intros Ht Hin Hel Hs.
  destruct (scanNow_decided page st target el e Ht Hin Hel Hs)
    as (st0 & before & after & e' & _ & _ & _ & _ & E & V).
  exists e'. split; [exact E|]. unfold visited.
  destruct (visitSkips page (context target) e); [exact V|eauto].
Qed.

Lemma scanNow_untouched (page : Page) (st : State) (x : nat) :
  (forall target, In target (getScanTargets page) ->
                  ~ In x (collectCandidates target)) ->
  elements (scanNow page st) !! x = elements st !! x.
Proof.
  intros Hx.
  destruct (getScanTargets page) as [|target rest] eqn:Et.
  - unfold scanNow. cbv zeta. rewrite Et. cbn [fold_left List.map].
    destruct (debugOnly_resetDebug page st) as (A1 & _).
    set (st1 := whenDebug (resetDebug page) st) in *.
    match goal with
    | |- context [whenDebug (updateDebug ?f) ?s] =>
        destruct (debugOnly_whenDebug f s) as (B1 & _)
    end.
    rewrite B1. simpl. rewrite A1. reflexivity.
  - assert (In target (getScanTargets page)) as Hin
        by (rewrite Et; left; reflexivity).
    destruct (scanNow_single page st target (scanNow_targets _ _ Hin))
      as (st0 & A1 & _ & _ & _ & _ & _ & _ & E).
    rewrite E, fold_processCandidate_frame
      by (apply Hx; left; reflexivity).
    rewrite A1. reflexivity.
Qed.

Lemma scanNow_no_target (page : Page) (st : State) :
  getScanTargets page = [] ->
  elements (scanNow page st) = elements st
  /\ decisionCache (scanNow page st) = decisionCache st
  /\ timers (scanNow page st) = timers st
  /\ cacheSaveTimer (scanNow page st) = cacheSaveTimer st.
Proof.
  intros Et. unfold scanNow. cbv zeta. rewrite Et. cbn [fold_left List.map].
  destruct (debugOnly_resetDebug page st) as (A1 & A2 & A3 & A4 & A5 & A6 & A7).
  set (st1 := whenDebug (resetDebug page) st) in *.
  match goal with
  | |- context [whenDebug (updateDebug ?f) ?s] =>
      destruct (debugOnly_whenDebug f s) as (B1 & B2 & B3 & B4 & B5 & B6 & B7)
  end.
  rewrite B1, B3, B6, B7. simpl. repeat split; assumption.
Qed.

Lemma getScanTargets_other_page (page : Page) :
  pathname page <> "/" -> pathname page <> "/watch" -> getScanTargets page = [].
Proof.
  intros Hh Hw. unfold getScanTargets.
  apply String.eqb_neq in Hh. apply String.eqb_neq in Hw.
  rewrite Hh, Hw. reflexivity.
Qed.

(** *** Forced rescans *)

Lemma clearMarks_stamp (el x : nat) (st : State) :
  option_map (fun e => mvEpoch (dataset e)) (elements (clearMarks el st) !! x)
  = option_map (fun e => mvEpoch (dataset e)) (elements st !! x).
Proof.
  unfold clearMarks, unhideElement, updateDataset, updateElement. simpl.
  destruct (decide (el = x)) as [->|Hne].
  - rewrite !lookup_alter_eq. destruct (elements st !! x); reflexivity.
  - rewrite !lookup_alter_ne by exact Hne. reflexivity.
Qed.

Lemma clearTargets_stamp (page : Page) (x : nat) (st : State) :
  option_map (fun e => mvEpoch (dataset e)) (elements (clearTargets page st) !! x)
  = option_map (fun e => mvEpoch (dataset e)) (elements st !! x).
Proof.
  unfold clearTargets. generalize (getScanTargets page). intros targets.
  revert st. induction targets as [|t l IH]; intros st; simpl; [reflexivity|].
  rewrite IH. generalize (collectCandidates t). intros els. revert st.
  induction els as [|el els IHe]; intros st; simpl; [reflexivity|].
  rewrite IHe. apply clearMarks_stamp.
Qed.

Lemma clearTargets_node (page : Page) (target : Target) (el : nat)
  (st : State) (e : Element) :
  In target (getScanTargets page) ->
  In el (collectCandidates target) ->
  elements st !! el = Some e ->
  exists e0, elements (clearTargets page st) !! el = Some e0
             /\ raw e0 = raw e
             /\ mvEpoch (dataset e0) = mvEpoch (dataset e)
             /\ cleared e0.
Proof.
  intros Ht Hin Hel.
  destruct (clearTargets_lookup page el st e Hel) as (e0 & E & R & C).
  pose proof (clearTargets_stamp page el st) as Hs. rewrite E, Hel in Hs.
  simpl in Hs. injection Hs as Hs.
  exists e0. split; [exact E|]. split; [exact R|]. split; [exact Hs|].
  apply C. eauto.
Qed.

Lemma cleared_not_skipped (page : Page) (context : string) (e0 : Element) :
  cleared e0 ->
  hasData (extractVideoData (raw e0)) = true ->
  visitSkips page context e0 = false.
Proof.
  intros (Hp & _) Hd. unfold visitSkips, skipsProcessed. rewrite Hd, Hp.
  simpl. destruct (watchChanged page e0); simpl;
    rewrite andb_false_r; reflexivity.
Qed.

Lemma clearTargets_fields (page : Page) (st : State) :
  scanEpoch (clearTargets page st) = scanEpoch st
  /\ settings (clearTargets page st) = settings st
  /\ matchers (clearTargets page st) = matchers st.
Proof.
  unfold clearTargets. generalize (getScanTargets page). intros targets.
  revert st. induction targets as [|t l IH]; intros st; simpl; [repeat split|].
  destruct (IH (fold_left (fun acc' el => clearMarks el acc')
                  (collectCandidates t) st)) as (A & B & C).
  rewrite A, B, C. clear. generalize (collectCandidates t). intros els.
  revert st. induction els as [|el els IHe]; intros st; simpl; [repeat split|].
  destruct (IHe (clearMarks el st)) as (A & B & C). rewrite A, B, C.
  repeat split.
Qed.

(** A forced rescan decides every enumerated node whose item has data,
    whatever marks the node carried. *)
Lemma rescanAll_decided (page : Page) (st : State) (target : Target)
  (el : nat) (e : Element) :
  In target (getScanTargets page) ->
  In el (collectCandidates target) ->
  elements st !! el = Some e ->
  mvEpoch (dataset e) <> Some (S (scanEpoch st)) ->
  hasData (extractVideoData (raw e)) = true ->
  exists st0 before after e',
    collectCandidates target = before ++ el :: after
    /\ decisionCache st0 = decisionCache st
    /\ settings st0 = settings st /\ matchers st0 = matchers st
    /\ elements (rescanAll page st) !! el = Some e'
    /\ raw e' = raw e
    /\ mvEpoch (dataset e') = Some (S (scanEpoch st))
    /\ mvProcessed (dataset e') = "1"
    /\ mvKey (dataset e')
       = Js.slice0 200 (elementKeyOf (extractVideoData (raw e)))
    /\ mvBlocked e'
       = negb (decisionFor (extractVideoData (raw e))
                 (fold_left
                    (fun acc y => processCandidate page (context target) y acc)
                    before st0))
    /\ mvHidden e' = false.
Proof.
  intros Ht Hin Hel Hs Hd. unfold rescanAll.
  destruct (clearTargets_node page target el st e Ht Hin Hel)
    as (e0 & E0 & R0 & S0 & C0).
  destruct (clearTargets_fields page st) as (F1 & F2 & F3).
  destruct (scanNow_decided page (clearTargets page st) target el e0 Ht Hin E0)
    as (st0 & before & after & e' & El & A & A2 & A3 & E & V).
  { rewrite S0, F1. exact Hs. }
  rewrite cleared_not_skipped in V by (rewrite ?R0; assumption).
  rewrite R0, F1 in V. destruct V as (V1 & V2 & V3 & V4 & V5 & V6).
  exists st0, before, after, e'.
  rewrite A, A2, A3, F2, F3, decisionCache_clearTargets.
  destruct C0 as (_ & _ & _ & Hh). rewrite Hh, andb_false_r in V6.
  repeat split; try assumption; congruence.
Qed.

(** *** Cached decisions and new settings *)

Lemma decisionFor_cached (data : VideoData) (st : State) (key : string)
  (entry : Entry.t) :
  cacheKey data = Some key -> key <> "" ->
  mapGet key (decisionCache st) = Some entry ->
  decisionFor data st = Entry.isMusic entry.
Proof.
  intros Hk Hne Hm. unfold decisionFor. rewrite Hk. simpl.
  assert (Js.truthy key = true) as Ht by (destruct key; [congruence|reflexivity]).
  rewrite Ht, Hm. reflexivity.
Qed.

Lemma cacheKey_nonempty (fields : RawFields) (key : string) :
  cacheKey (extractVideoData fields) = Some key ->
  key <> "" /\ hasData (extractVideoData fields) = true.
Proof.
  intros Hk.
  destruct (cacheKey_cases fields)
    as [(id & Hid & Hne & E)|[(Hid & Hn & E)|(_ & _ & E)]];
    rewrite E in Hk; [| |discriminate]; injection Hk as <-.
  - split; [discriminate|]. unfold hasData, extractVideoData. simpl.
    rewrite Hid. simpl. destruct id; [congruence|]. simpl.
    apply negb_true_iff, andb_false_r.
  - split; [discriminate|]. unfold hasData, extractVideoData. simpl.
    destruct (rawTitle fields); [elim Hn; reflexivity|reflexivity].
Qed.

Lemma candidateCount_single (page : Page) (target : Target) :
  In target (getScanTargets page) ->
  candidateCount page = length (collectCandidates target).
Proof.
  intros Ht. unfold candidateCount. rewrite (scanNow_targets _ _ Ht). simpl.
  lia.
Qed.

Lemma cached_through_pass (page : Page) (context : string) (before : list nat)
  (st0 : State) (key : string) (entry : Entry.t) :
  mapGet key (decisionCache st0) = Some entry ->
  length (decisionCache st0) + length before <= MAX_CACHE_ENTRIES ->
  exists entry',
    mapGet key
      (decisionCache
         (fold_left (fun acc y => processCandidate page context y acc)
            before st0)) = Some entry'
    /\ Entry.isMusic entry' = Entry.isMusic entry.
Proof.
  intros Hm Hroom.
  destruct (grows_fold nat (fun acc y => processCandidate page context y acc)
              before st0 (fun s x => grows_processCandidate page context x s))
    as [_ K].
  apply (K Hroom key entry Hm).
Qed.

Lemma settingsChanged_keeps_cached_decision (st : State) (newValue : Settings)
  (page : Page) (target : Target) (el : nat) (e : Element) (key : string)
  (entry : Entry.t) :
  In target (getScanTargets page) ->
  In el (collectCandidates target) ->
  elements st !! el = Some e ->
  mvEpoch (dataset e) <> Some (S (scanEpoch st)) ->
  cacheKey (extractVideoData (raw e)) = Some key ->
  mapGet key (decisionCache st) = Some entry ->
  length (decisionCache st) + candidateCount page <= MAX_CACHE_ENTRIES ->
  exists e',
    elements (step st (SettingsChanged newValue page)) !! el = Some e'
    /\ mvProcessed (dataset e') = "1"
    /\ mvBlocked e' = negb (Entry.isMusic entry).
Proof.
  intros Ht Hin Hel Hs Hk Hm Hroom. cbn [step].
  set (st1 := set_matchers (buildMatchers newValue) (set_settings newValue st)).
  set (sA := applyShowBlocked (showBlocked newValue) st1).
  destruct (cacheKey_nonempty _ _ Hk) as [Hne Hd].
  destruct (applyShowBlocked_fields (showBlocked newValue) st1) as (_ & _ & HcA).
  destruct (quiet_applyShowBlocked (showBlocked newValue) st1) as (_ & HeA & _).
  fold sA in HcA, HeA.
  pose proof (applyShowBlocked_lookup (showBlocked newValue) st1 el) as HlA.
  fold sA in HlA. change (elements st1) with (elements st) in HlA.
  rewrite Hel in HlA. simpl in HlA.
  set (eA := if showBlocked newValue && mvBlocked e then set_mvHidden false e
             else e) in HlA.
  assert (raw eA = raw e /\ dataset eA = dataset e) as [RA DA]
      by (subst eA; destruct (_ && _); split; reflexivity).
  destruct (rescanAll_decided page sA target el eA Ht Hin HlA)
    as (st0 & before & after & e' & El & A & _ & _ & E & _ & _ & Hp & _ & Hb & _).
  { rewrite DA, HeA. exact Hs. }
  { rewrite RA. exact Hd. }
  exists e'. split; [exact E|]. split; [exact Hp|].
  rewrite Hb, RA.
  destruct (cached_through_pass page (context target) before st0 key entry)
    as [entry' [Hm' Hi]].
  - rewrite A, HcA. exact Hm.
  - rewrite A, HcA. change (decisionCache st1) with (decisionCache st).
    rewrite (candidateCount_single _ _ Ht), El, length_app in Hroom.
    simpl in Hroom. lia.
  - rewrite (decisionFor_cached _ _ key entry' Hk Hne Hm'), Hi. reflexivity.
Qed.

(** X19: cache keys identify items.  A cache key is never the empty
    string; an item has none exactly when it has no video id and its
    title normalizes to the empty string; two items share a cache key
    only if both have the same video id, or neither has one and their
    titles normalize to the same text (a key made from an id never
    equals a key made from a title); and an item has data (a title or a
    video id) exactly when its element key is not empty. *)
Theorem cacheKey_identifies (a b : RawFields) :
  (forall key, cacheKey (extractVideoData a) = Some key -> key <> "")
  /\ (cacheKey (extractVideoData a) = None
      <-> truthyOpt (rawVideoId a) = false /\ normalizeText (rawTitle a) = "")
  /\ (cacheKey (extractVideoData a) = cacheKey (extractVideoData b) ->
      cacheKey (extractVideoData a) <> None ->
      (truthyOpt (rawVideoId a) = true /\ rawVideoId a = rawVideoId b)
      \/ (truthyOpt (rawVideoId a) = false /\ truthyOpt (rawVideoId b) = false
          /\ normalizeText (rawTitle a) = normalizeText (rawTitle b)))
  /\ (hasData (extractVideoData a) = true
      <-> elementKeyOf (extractVideoData a) <> "").
Proof.
  split; [|split; [|split]].
  - intros key Hk. apply (cacheKey_nonempty a key Hk).
  - destruct (cacheKey_cases a)
      as [(id & Hid & Hne & E)|[(Hid & Hn & E)|(Hid & Hn & E)]]; rewrite E.
    + split; [discriminate|]. rewrite Hid. simpl.
      destruct id; [congruence|]. intros [H _]. discriminate H.
    + split; [discriminate|]. intros [_ H]. congruence.
    + split; auto.
  - intros Heq Hsome.
    destruct (cacheKey_cases a)
      as [(id & Hid & Hne & E)|[(Hid & Hn & E)|(Hid & Hn & E)]];
      rewrite E in *; [| |congruence];
      destruct (cacheKey_cases b)
        as [(id' & Hid' & Hne' & E')|[(Hid' & Hn' & E')|(Hid' & Hn' & E')]];
      rewrite E' in Heq; try discriminate Heq; injection Heq as Heq.
    + left. apply append_inj_l in Heq. subst id'. rewrite Hid, Hid'.
      split; [|reflexivity]. simpl. destruct id; [congruence|reflexivity].
    + right. apply append_inj_l in Heq. auto.
  - split; [|apply hasData_of_key].
    intros Hd E. apply elementKey_of_hasData in Hd. rewrite E in Hd.
    discriminate Hd.
Qed.

(** X20: skipping is confined to the home feed.  A page has at most one
    scan target; on the home target there is no current watch id, so
    the watch-change reset of [processCandidate] never fires there; and
    for every target of the page the skip test holds exactly when the
    target is the home feed, the node carries the processed flag and
    its stored key equals the computed key. *)
Theorem skip_only_on_home (page : Page) (target : Target) (e : Element)
  (data : VideoData) :
  In target (getScanTargets page) ->
  getScanTargets page = [target]
  /\ (context target = "home" \/ context target = "watch-sidebar")
  /\ (context target = "home" ->
      getCurrentWatchVideoId page = None /\ fallbackContainers target = [])
  /\ (skipsProcessed page (context target) e data = true
      <-> context target = "home"
          /\ mvProcessed (dataset e) = "1"
          /\ mvKey (dataset e) = elementKeyOf data).
Proof.
  intros Ht. split; [apply scanNow_targets, Ht|].
  destruct (getScanTargets_cases page)
    as [E|[(found & Hp & _ & E)|(found & viaLinks & Hp & _ & E)]];
    rewrite E in Ht; simpl in Ht; [tauto| |];
    destruct Ht as [<-|[]]; simpl.
  - assert (getCurrentWatchVideoId page = None) as Hw
        by (unfold getCurrentWatchVideoId; rewrite Hp; reflexivity).
    split; [left; reflexivity|]. split; [auto|].
    unfold skipsProcessed. rewrite (watchChanged_off_watch _ _ Hw). simpl.
    rewrite andb_true_iff, !String.eqb_eq. tauto.
  - split; [right; reflexivity|]. split; [discriminate|].
    unfold skipsProcessed. simpl. split; [discriminate|].
    intros [H _]. discriminate H.
Qed.

(** The home page with one tile. *)
Lemma skip_only_on_home_witness :
  getScanTargets (homePage [0]) = [homeTarget [0]]
  /\ getCurrentWatchVideoId (homePage [0]) = None.
Proof.
  destruct (skip_only_on_home (homePage [0]) (homeTarget [0])
              (freshElement (fieldsOf "Some Song" "" "3:10" None))
              (extractVideoData (fieldsOf "Some Song" "" "3:10" None))
              ltac:(left; reflexivity)) as (A & _ & B & _).
  split; [exact A|]. apply B. reflexivity.
Defined.

(** X21: [collectCandidates] returns a set.  No node occurs twice in
    the result, and a node is in it exactly when the target's selector
    matches it or, for the watch sidebar only, when it is the container
    of a link matched by the fallback selector. *)
Theorem collectCandidates_set (target : Target) :
  List.NoDup (collectCandidates target)
  /\ forall x, In x (collectCandidates target)
               <-> In x (selectorMatches target)
                   \/ (context target = "watch-sidebar"
                       /\ In x (fallbackContainers target)).
Proof. apply collectCandidates_spec. Qed.

(** X22: a scan visits every enumerated node.  In every state the
    content script reaches, after [scanNow] every node of the page's
    target that exists carries the stamp of the new epoch and is as its
    visit left it: with only the stamp added, if its item has no data
    yet or the node was skipped as processed; decided, with the
    processed flag and the stored key, otherwise. *)
Theorem scanNow_visits_every_candidate (loaded : Settings) (evs : list Event)
  (page : Page) (target : Target) (el : nat) (e : Element) :
  let st := run (init loaded initialState) evs in
  In target (getScanTargets page) ->
  In el (collectCandidates target) ->
  elements st !! el = Some e ->
  exists e',
    elements (scanNow page st) !! el = Some e'
    /\ mvEpoch (dataset e') = Some (S (scanEpoch st))
    /\ visited page (context target) (S (scanEpoch st)) e e'.
Proof.
  intros st Ht Hin Hel.
  pose proof (stamps_run _ evs (stamps_init loaded)) as Hb. fold st in Hb.
  destruct (scanNow_visited page st target el e Ht Hin Hel) as [e' [E V]].
  - intros Hs. specialize (Hb el e _ Hel Hs). lia.
  - exists e'. split; [exact E|]. split; [|exact V].
    apply (visited_epoch _ _ _ _ _ V).
Qed.

(** The first scan of a home page that shows one tile. *)
Lemma scanNow_visits_every_candidate_witness :
  let fields := fieldsOf "Some Song" "" "3:10" (Some "abc") in
  let st := run (init DEFAULTS initialState) [DomReplaced {[ 0 := fields ]}] in
  exists e',
    elements (scanNow (homePage [0]) st) !! 0 = Some e'
    /\ mvEpoch (dataset e') = Some (S (scanEpoch st))
    /\ visited (homePage [0]) "home" (S (scanEpoch st)) (freshElement fields) e'.
Proof.
  apply (scanNow_visits_every_candidate DEFAULTS
           [DomReplaced {[ 0 := fieldsOf "Some Song" "" "3:10" (Some "abc") ]}]
           (homePage [0]) (homeTarget [0]) 0
           (freshElement (fieldsOf "Some Song" "" "3:10" (Some "abc")))).
  - left. reflexivity.
  - left. reflexivity.
  - reflexivity.
Defined.

(** X23: a scan leaves the rest of the page alone.  A node that the
    page's scan target does not enumerate is not changed by [scanNow]
    in any way. *)
Theorem scanNow_leaves_other_nodes (page : Page) (st : State) (x : nat) :
  (forall target, In target (getScanTargets page) ->
                  ~ In x (collectCandidates target)) ->
  elements (scanNow page st) !! x = elements st !! x.
Proof. apply scanNow_untouched. Qed.

(** Node 1 on a home page whose selector matches node 0 only. *)
Lemma scanNow_leaves_other_nodes_witness :
  let st := tileState (fieldsOf "Some Song" "" "3:10" (Some "abc")) in
  elements (scanNow (homePage [0]) st) !! 1 = elements st !! 1.
Proof.
  apply (scanNow_leaves_other_nodes (homePage [0])
           (tileState (fieldsOf "Some Song" "" "3:10" (Some "abc"))) 1).
  intros target [<-|[]]. simpl. intros [H|[]]. discriminate H.
Defined.

(** X24: off the home feed and the watch page a scan is idle.  When
    the path is neither ["/"] nor ["/watch"] there is no scan target,
    and [scanNow] changes no node, no cache entry and no timer; only
    the epoch moves. *)
Theorem scanNow_idle_elsewhere (page : Page) (st : State) :
  pathname page <> "/" -> pathname page <> "/watch" ->
  getScanTargets page = []
  /\ elements (scanNow page st) = elements st
  /\ decisionCache (scanNow page st) = decisionCache st
  /\ timers (scanNow page st) = timers st
  /\ cacheSaveTimer (scanNow page st) = cacheSaveTimer st
  /\ scanEpoch (scanNow page st) = S (scanEpoch st).
Proof.
  intros Hh Hw. pose proof (getScanTargets_other_page page Hh Hw) as Et.
  destruct (scanNow_no_target page st Et) as (A & B & C & D).
  destruct (scanNow_scheduler page st) as (_ & F & _).
  repeat split; assumption.
Qed.

(** A search results page, with a blocked tile left over in the
    document. *)
Lemma scanNow_idle_elsewhere_witness :
  let st := tileState (fieldsOf "Some Song" "" "3:10" (Some "abc")) in
  elements (scanNow resultsPage st) = elements st
  /\ decisionCache (scanNow resultsPage st) = decisionCache st.
Proof.
  destruct (scanNow_idle_elsewhere resultsPage
              (tileState (fieldsOf "Some Song" "" "3:10" (Some "abc")))
              ltac:(discriminate) ltac:(discriminate)) as (_ & A & B & _).
  split; [exact A|exact B].
Defined.

(** X25: a forced rescan decides again.  After [rescanAll] every
    enumerated node whose item has data is decided in the new epoch,
    whatever processed flag and stored key it carried: it has the
    stamp, the processed flag, the first 200 characters of its key and
    no [mv-hidden] (a node to hide is hidden by its timer later).  When
    the node is the first candidate, the decision applied is the one
    the cache and the classifier give in the state before the rescan. *)
Theorem rescanAll_decides_again (page : Page) (st : State) (target : Target)
  (el : nat) (e : Element) :
  In target (getScanTargets page) ->
  In el (collectCandidates target) ->
  elements st !! el = Some e ->
  mvEpoch (dataset e) <> Some (S (scanEpoch st)) ->
  hasData (extractVideoData (raw e)) = true ->
  exists e',
    elements (rescanAll page st) !! el = Some e'
    /\ raw e' = raw e
    /\ mvEpoch (dataset e') = Some (S (scanEpoch st))
    /\ mvProcessed (dataset e') = "1"
    /\ mvKey (dataset e')
       = Js.slice0 200 (elementKeyOf (extractVideoData (raw e)))
    /\ mvHidden e' = false
    /\ ((exists after, collectCandidates target = el :: after) ->
        mvBlocked e' = negb (decisionFor (extractVideoData (raw e)) st)).
Proof.
  intros Ht Hin Hel Hs Hd.
  destruct (rescanAll_decided page st target el e Ht Hin Hel Hs Hd)
    as (st0 & before & after & e' & El & A1 & A2 & A3 & E & R & S1 & P & K & B & H).
  exists e'. repeat split; try assumption.
  intros [after' Ef]. rewrite B.
  destruct before as [|y before'].
  - simpl. rewrite (decisionFor_ext _ st st0 A1 A2 A3). reflexivity.
  - exfalso. rewrite Ef in El. simpl in El. injection El as Hy Ea.
    destruct (collectCandidates_spec target) as [Hnd _].
    rewrite Ef in Hnd. inversion Hnd as [|? ? Hnot _]; subst.
    apply Hnot. apply in_or_app. right. left. reflexivity.
Qed.

(** A home tile that a scan has processed, rescanned. *)
Lemma rescanAll_decides_again_witness :
  let fields := fieldsOf "Some Song" "" "3:10" (Some "abc") in
  let st := scanNow (homePage [0]) (tileState fields) in
  exists e',
    elements (rescanAll (homePage [0]) st) !! 0 = Some e'
    /\ mvEpoch (dataset e') = Some 2
    /\ mvProcessed (dataset e') = "1"
    /\ mvKey (dataset e') = "id:abc".
Proof.
  destruct (rescanAll_decides_again (homePage [0])
              (scanNow (homePage [0])
                 (tileState (fieldsOf "Some Song" "" "3:10" (Some "abc"))))
              (homeTarget [0]) 0
              (set_dataset
                 {| mvEpoch := Some 1; mvKey := "id:abc"; mvProcessed := "1";
                    mvWatchId := None; mvReason := None; mvTitle := None;
                    mvId := None |}
                 (freshElement (fieldsOf "Some Song" "" "3:10" (Some "abc"))))
              ltac:(left; reflexivity) ltac:(left; reflexivity)
              ltac:(reflexivity) ltac:(discriminate) ltac:(reflexivity))
    as (e' & E & _ & S1 & P & K & _).
  exists e'. repeat split; assumption.
Defined.

(** X26: new settings do not revisit cached decisions.  When the
    settings are replaced, the content script rebuilds the matchers and
    rescans, but it never clears the decision cache: a node of the page
    whose item's cache key is in the cache gets the cached decision
    again, whatever the new keyword lists and policy say (provided the
    cache has room for the page's candidates, so that the entry is not
    evicted during the pass). *)
Theorem settings_change_keeps_cached_decision (st : State)
  (newValue : Settings) (page : Page) (target : Target) (el : nat)
  (e : Element) (key : string) (entry : Entry.t) :
  In target (getScanTargets page) ->
  In el (collectCandidates target) ->
  elements st !! el = Some e ->
  mvEpoch (dataset e) <> Some (S (scanEpoch st)) ->
  cacheKey (extractVideoData (raw e)) = Some key ->
  mapGet key (decisionCache st) = Some entry ->
  length (decisionCache st) + candidateCount page <= MAX_CACHE_ENTRIES ->
  exists e',
    elements (step st (SettingsChanged newValue page)) !! el = Some e'
    /\ mvProcessed (dataset e') = "1"
    /\ mvBlocked e' = negb (Entry.isMusic entry).
Proof. apply settingsChanged_keeps_cached_decision. Qed.

(** The tile ["Some Song"] was decided "not music" and cached; the user
    then adds ["some song"] to the strong keywords.  The classifier
    would now call it music, the rescan blocks it again. *)
Lemma settings_change_keeps_cached_decision_witness :
  let fields := fieldsOf "Some Song" "" "3:10" (Some "abc") in
  let st := cacheSet "id:abc" false (tileState fields) in
  let newValue := settingsWith ["some song"] [] [] [] "show" in
  Result.isMusic
    (classifyVideo newValue (buildMatchers newValue) (extractVideoData fields))
  = true
  /\ exists e',
       elements (step st (SettingsChanged newValue (homePage [0]))) !! 0
       = Some e'
       /\ mvProcessed (dataset e') = "1"
       /\ mvBlocked e' = true.
Proof.
  split; [reflexivity|].
  apply (settings_change_keeps_cached_decision
           (cacheSet "id:abc" false
              (tileState (fieldsOf "Some Song" "" "3:10" (Some "abc"))))
           (settingsWith ["some song"] [] [] [] "show")
           (homePage [0]) (homeTarget [0]) 0
           (freshElement (fieldsOf "Some Song" "" "3:10" (Some "abc")))
           "id:abc" {| Entry.isMusic := false; Entry.ts := 0 |}).
  - left. reflexivity.
  - left. reflexivity.
  - reflexivity.
  - discriminate.
  - reflexivity.
  - reflexivity.
  - change (2 <= MAX_CACHE_ENTRIES). unfold MAX_CACHE_ENTRIES. lia.
Defined.

(** ** The keyword lists of the options form *)

Lemma trimEnd_cons (c : ascii) (r : string) :
  Js.trimEnd (String c r)
  = match Js.trimEnd r with
    | EmptyString => if Js.isSpace c then EmptyString else String c EmptyString
    | r' => String c r'
    end.
Proof. reflexivity. Qed.

Lemma trimEnd_idem (s : string) : Js.trimEnd (Js.trimEnd s) = Js.trimEnd s.
Proof.
  induction s as [|c r IH]; [reflexivity|]. rewrite trimEnd_cons.
  destruct (Js.trimEnd r) as [|c' r'] eqn:Hr.
  - destruct (Js.isSpace c) eqn:Hc; [reflexivity|]. simpl. rewrite Hc.
    reflexivity.
  - rewrite trimEnd_cons, IH. reflexivity.
Qed.

Lemma trimStart_head (s : string) :
  match Js.trimStart s with
  | EmptyString => True
  | String c _ => Js.isSpace c = false
  end.
Proof.
  induction s as [|c r IH]; simpl; [exact I|].
  destruct (Js.isSpace c) eqn:Hc; [exact IH|exact Hc].
Qed.

Lemma trimEnd_head (c : ascii) (r : string) :
  Js.isSpace c = false ->
  exists r', Js.trimEnd (String c r) = String c r'.
Proof.
  intros Hc. cbn [Js.trimEnd]. destruct (Js.trimEnd r); [|eauto].
  rewrite Hc. eauto.
Qed.

Lemma trim_idem (s : string) : Js.trim (Js.trim s) = Js.trim s.
Proof.
  unfold Js.trim. pose proof (trimStart_head s) as H.
  destruct (Js.trimStart s) as [|c r]; [reflexivity|].
  destruct (trimEnd_head c r H) as [r' E]. rewrite E.
  cbn [Js.trimStart]. rewrite H, <- E. apply trimEnd_idem.
Qed.

Lemma allChars_trimStart (p : ascii -> bool) (s : string) :
  allChars p s = true -> allChars p (Js.trimStart s) = true.
Proof.
  induction s as [|c r IH]; simpl; [trivial|].
  intros H. destruct (Js.isSpace c); [|exact H].
  apply andb_prop in H as [_ Hr]. apply IH, Hr.
Qed.

Lemma allChars_trimEnd (p : ascii -> bool) (s : string) :
  allChars p s = true -> allChars p (Js.trimEnd s) = true.
Proof.
  induction s as [|c r IH]; [trivial|]. cbn [Js.trimEnd allChars].
  intros H. apply andb_prop in H as [Hc Hr]. specialize (IH Hr).
  destruct (Js.trimEnd r) as [|c' r'].
  - destruct (Js.isSpace c); [reflexivity|]. simpl. rewrite Hc. reflexivity.
  - cbn [allChars]. cbn [allChars] in IH. rewrite Hc. exact IH.
Qed.

Lemma split_pieces (p : ascii -> bool) (s : string) :
  Forall (fun piece => allChars (fun c => negb (p c)) piece = true)
    (Js.split p s).
Proof.
  induction s as [|c r IH]; simpl.
  - constructor; [reflexivity|constructor].
  - destruct (p c) eqn:Hc.
    + constructor; [reflexivity|exact IH].
    + destruct (Js.split p r) as [|h t]; [repeat constructor; simpl; rewrite Hc; reflexivity|].
      inversion IH as [|? ? Hh Ht]; subst. constructor; [|exact Ht].
      simpl. rewrite Hc. exact Hh.
Qed.

Lemma textToList_clean (text : string) :
  Forall cleanLine (Options.textToList text).
Proof.
  unfold Options.textToList, Js.filterBoolean.
  pose proof (split_pieces Options.isNewline text) as H.
  induction H as [|piece l Hp _ IH]; simpl; [constructor|].
  destruct (Js.truthy (Js.trim piece)) eqn:Ht; [|exact IH].
  constructor; [|exact IH]. split; [|split].
  - intros E. rewrite E in Ht. discriminate.
  - apply trim_idem.
  - unfold Js.trim. apply allChars_trimEnd, allChars_trimStart, Hp.
Qed.

Lemma textToList_listToText (items : list string) :
  Forall cleanLine items ->
  Options.textToList (Options.listToText (LArray items)) = items.
Proof.
  intros H. unfold Options.textToList, Options.listToText.
  destruct items as [|x rest]; [reflexivity|].
  rewrite (split_joinWith Options.isNewline "010"%char);
    [|reflexivity|discriminate|].
  - induction H as [|y l (Hne & Ht & _) _ IH]; [reflexivity|].
    simpl. rewrite Ht. destruct y; [congruence|]. simpl. f_equal. exact IH.
  - eapply List.Forall_impl; [|exact H]. intros y (_ & _ & Hy). exact Hy.
Qed.

(** X27: the keyword lists survive the options form.  Every line that
    [textToList] returns is non-empty, trimmed and free of line feeds;
    a list of such lines, shown in the textarea by [listToText] and
    read back by [textToList], comes back unchanged; so saving a form
    that was loaded from saved settings stores the same lists again.
    A value that is not an array is shown as the empty text and read
    back as the empty list. *)
Theorem options_lists_roundtrip (text : string) :
  Forall cleanLine (Options.textToList text)
  /\ Options.textToList (Options.listToText (LArray (Options.textToList text)))
     = Options.textToList text
  /\ (forall items, Forall cleanLine items ->
        Options.textToList (Options.listToText (LArray items)) = items)
  /\ Options.textToList (Options.listToText LOther) = []
  /\ Options.textToList (Options.listToText (LString text)) = [].
Proof.
  split; [apply textToList_clean|]. split.
  - apply textToList_listToText, textToList_clean.
  - split; [exact textToList_listToText|]. split; reflexivity.
Qed.

(** ** Pending hides *)

Lemma hidePending_mono (st st' : State) :
  settings st' = settings st ->
  incl (timers st) (timers st') ->
  (forall el e', elements st' !! el = Some e' ->
                 mvBlocked e' = true -> mvHidden e' = false ->
                 (exists e, elements st !! el = Some e
                            /\ mvBlocked e = true /\ mvHidden e = false)
                 \/ hidePendingFor el st') ->
  hidePending st -> hidePending st'.
Proof.
  intros Hs Ht He H Hshow el e' E' Hb Hh. rewrite Hs in Hshow.
  destruct (He el e' E' Hb Hh) as [(e & E & Hb0 & Hh0)|Hp]; [|exact Hp].
  destruct (H Hshow el e E Hb0 Hh0) as [t [Hin Htask]].
  exists t. split; [apply Ht, Hin|exact Htask].
Qed.

Lemma hidePending_same (st st' : State) :
  settings st' = settings st -> elements st' = elements st ->
  incl (timers st) (timers st') ->
  hidePending st -> hidePending st'.
Proof.
  intros Hs He Ht. apply hidePending_mono; [exact Hs|exact Ht|].
  intros el e' E' Hb Hh. left. exists e'. rewrite <- He. auto.
Qed.

Lemma hidePending_updateElement (el : nat) (f : Element -> Element) (st : State) :
  (forall e, mvBlocked (f e) = true -> mvHidden (f e) = false ->
             mvBlocked e = true /\ mvHidden e = false) ->
  hidePending st -> hidePending (updateElement el f st).
Proof.
  intros Hf. apply hidePending_mono; [reflexivity|apply incl_refl|].
  intros x e'. unfold updateElement. simpl.
  destruct (decide (x = el)) as [->|Hne].
  - rewrite lookup_alter_eq. destruct (elements st !! el) as [e|] eqn:E;
      simpl; [|discriminate].
    intros [= <-] Hb Hh. left. exists e. destruct (Hf e Hb Hh). auto.
  - rewrite lookup_alter_ne by congruence. intros E Hb Hh. left. eauto.
Qed.

Lemma hidePending_hideElement (el : nat) (st : State) :
  hidePending st -> hidePending (hideElement el st).
Proof.
  intros H. unfold hideElement.
  destruct (showBlocked (settings (updateElement el (set_mvBlocked true) st)))
    eqn:Hshow.
  - intros Hs. simpl in Hs, Hshow. congruence.
  - revert H. apply hidePending_mono.
    + reflexivity.
    + simpl. apply incl_appl, incl_refl.
    + intros x e'. simpl. destruct (decide (x = el)) as [->|Hne].
      * intros _ _ _. right. eexists.
        split; [simpl; apply in_or_app; right; left; reflexivity|reflexivity].
      * rewrite lookup_alter_ne by congruence. intros E Hb Hh. left. eauto.
Qed.

Lemma hidePending_unhideElement (el : nat) (st : State) :
  hidePending st -> hidePending (unhideElement el st).
Proof.
  rewrite unhideElement_once. apply hidePending_updateElement.
  intros e Hb. discriminate Hb.
Qed.

Lemma timers_scheduleCacheSave (st : State) :
  settings (scheduleCacheSave st) = settings st
  /\ incl (timers st) (timers (scheduleCacheSave st)).
Proof.
  unfold scheduleCacheSave. destruct (cacheSaveTimer st).
  - split; [reflexivity|apply incl_refl].
  - split; [reflexivity|]. simpl. apply incl_appl, incl_refl.
Qed.

Lemma hidePending_cacheGet (key : string) (st : State) :
  hidePending st -> hidePending (snd (cacheGet key st)).
Proof.
  unfold cacheGet. destruct (Js.isEmpty key); [trivial|].
  destruct (mapGet key (decisionCache st)); [|trivial].
  apply hidePending_same; [reflexivity|reflexivity|apply incl_refl].
Qed.

Lemma hidePending_cacheSet (key : string) (isMusic : bool) (st : State) :
  hidePending st -> hidePending (cacheSet key isMusic st).
Proof.
  apply hidePending_same; [| apply elements_cacheSet |].
  - unfold cacheSet. destruct (Js.isEmpty key); [reflexivity|]. cbv zeta.
    match goal with
    | |- settings (scheduleCacheSave ?s) = _ =>
        destruct (timers_scheduleCacheSave s) as [A _]; rewrite A
    end.
    reflexivity.
  - unfold cacheSet. destruct (Js.isEmpty key); [apply incl_refl|]. cbv zeta.
    match goal with
    | |- incl _ (timers (scheduleCacheSave ?s)) =>
        destruct (timers_scheduleCacheSave s) as [_ A]
    end.
    exact A.
Qed.

Lemma hidePending_scan_hyps :
  (forall el f st, (forall d, mvEpoch (f d) = mvEpoch d) ->
                   hidePending st -> hidePending (updateDataset el f st))
  /\ (forall el st, hidePending st -> hidePending (markEpoch el st))
  /\ (forall f st, hidePending st -> hidePending (updateDebug f st))
  /\ (forall st, hidePending st ->
                 hidePending (set_scanEpoch (S (scanEpoch st)) st)).
Proof.
  split; [|split; [|split]].
  - intros el f st _. apply hidePending_updateElement. intros e Hb Hh. auto.
  - intros el st. apply hidePending_updateElement. intros e Hb Hh. auto.
  - intros f st. apply hidePending_same; [reflexivity|reflexivity|apply incl_refl].
  - intros st. apply hidePending_same; [reflexivity|reflexivity|apply incl_refl].
Qed.

Lemma hidePending_scanNow (page : Page) (st : State) :
  hidePending st -> hidePending (scanNow page st).
Proof.
  destruct hidePending_scan_hyps as (A & B & C & D).
  apply Inv_scanNow; try assumption.
  - exact hidePending_hideElement.
  - exact hidePending_unhideElement.
  - exact hidePending_cacheGet.
  - exact hidePending_cacheSet.
Qed.

Lemma hidePending_rescanAll (page : Page) (st : State) :
  hidePending st -> hidePending (rescanAll page st).
Proof.
  destruct hidePending_scan_hyps as (A & B & C & D).
  apply Inv_rescanAll; try assumption.
  - exact hidePending_hideElement.
  - exact hidePending_unhideElement.
  - exact hidePending_cacheGet.
  - exact hidePending_cacheSet.
Qed.

Lemma takeTimer_rest (id : nat) (pending rest : list Timer) (t : Timer) :
  takeTimer id pending = Some (t, rest) ->
  forall t', In t' pending -> t' = t \/ In t' rest.
Proof.
  revert rest. induction pending as [|t0 l IH]; intros rest; simpl; [discriminate|].
  destruct (Nat.eqb (timerId t0) id).
  - intros [= <- <-] t' [->|Hin]; auto.
  - destruct (takeTimer id l) as [[found rest']|]; [|discriminate].
    intros [= <- <-] t' [->|Hin].
    + right. left. reflexivity.
    + destruct (IH _ eq_refl t' Hin) as [->|H]; [left; reflexivity|].
      right. right. exact H.
Qed.

(** Re-hiding: every blocked, not yet hidden node gets a timer. *)
Lemma rehide_fold (l : list nat) (st : State) :
  showBlocked (settings st) = false ->
  let st' := fold_left
               (fun acc el =>
                  match elements acc !! el with
                  | Some e => if negb (mvHidden e) then hideElement el acc
                              else acc
                  | None => acc
                  end) l st in
  incl (timers st) (timers st')
  /\ forall el e, In el l -> elements st !! el = Some e ->
                  mvBlocked e = true -> mvHidden e = false ->
                  hidePendingFor el st'.
Proof.
  revert st. induction l as [|a l IH]; intros st Hshow; cbn [fold_left].
  - split; [apply incl_refl|]. intros el e [].
  - set (st1 := match elements st !! a with
                | Some e => if negb (mvHidden e) then hideElement a st else st
                | None => st
                end).
    assert (showBlocked (settings st1) = false
            /\ incl (timers st) (timers st1)
            /\ (forall e, elements st !! a = Some e -> mvHidden e = false ->
                          hidePendingFor a st1)
            /\ (forall x e, elements st !! x = Some e -> mvBlocked e = true ->
                            exists e1, elements st1 !! x = Some e1
                                       /\ mvBlocked e1 = true
                                       /\ mvHidden e1 = mvHidden e)) as H1.
    { subst st1. destruct (elements st !! a) as [e|] eqn:Ea.
      - destruct (mvHidden e) eqn:Hh; simpl.
        + split; [exact Hshow|]. split; [apply incl_refl|].
          split; [intros e0 [= <-] H; congruence|]. intros x e0 E Hb. eauto.
        + destruct (hideElement_fields a st) as (A & _ & _).
          split; [rewrite A; exact Hshow|].
          unfold hideElement. simpl. rewrite Hshow. simpl.
          split; [apply incl_appl, incl_refl|]. split.
          * intros e0 _ _. eexists.
            split; [apply in_or_app; right; left; reflexivity|reflexivity].
          * intros x e0 E Hb. destruct (decide (x = a)) as [->|Hne].
            -- rewrite lookup_alter_eq, E. simpl. eauto.
            -- rewrite lookup_alter_ne by congruence. eauto.
      - split; [exact Hshow|]. split; [apply incl_refl|].
        split; [intros e0 H; discriminate H|]. intros x e0 E Hb. eauto. }
    destruct H1 as (Hs1 & Hi1 & Ha & Hk).
    destruct (IH st1 Hs1) as [Hi2 Hrest]. cbv zeta in *.
    split; [eapply incl_tran; eassumption|].
    intros el e [->|Hin] E Hb Hh.
    + destruct (Ha e E Hh) as [t [Hin Htask]]. exists t.
      split; [apply Hi2, Hin|exact Htask].
    + destruct (Hk el e E Hb) as (e1 & E1 & Hb1 & Hh1).
      apply (Hrest el e1 Hin E1 Hb1). congruence.
Qed.

Lemma hidePending_applyShowBlocked (show : bool) (st : State) :
  hidePending (applyShowBlocked show st).
Proof.
  intros Hshow el e'.
  destruct (applyShowBlocked_fields show st) as (A & _ & _).
  rewrite A in Hshow. simpl in Hshow. subst show.
  rewrite applyShowBlocked_lookup. simpl.
  destruct (elements st !! el) as [e|] eqn:E; simpl; [|discriminate].
  intros [= <-] Hb Hh. unfold applyShowBlocked. cbv zeta.
  set (st2 := set_rootShowBlocked false
                (set_settings (set_showBlocked false (settings st)) st)).
  destruct (rehide_fold (blockedElements st2) st2 eq_refl) as [_ H].
  apply (H el e); try assumption.
  apply In_blockedElements. exists e. auto.
Qed.

Lemma hideCallback_fields (el : nat) (st : State) :
  settings (hideCallback el st) = settings st
  /\ timers (hideCallback el st) = timers st.
Proof.
  unfold hideCallback. destruct (elements st !! el); [|split; reflexivity].
  destruct (_ && _); split; reflexivity.
Qed.

Lemma hidePending_step (st : State) (ev : Event) :
  hidePending st -> hidePending (step st ev).
Proof.
  intros H. destruct ev as [|id page|page|show|newValue page|raw|doc|t]; simpl.
  - revert H. unfold scheduleScan. destruct (scanTimer st); [trivial|].
    apply hidePending_same; [reflexivity|reflexivity|].
    simpl. apply incl_appl, incl_refl.
  - destruct (takeTimer id (timers st)) as [[t rest]|] eqn:Htake; [|exact H].
    pose proof (takeTimer_rest _ _ _ _ Htake) as Hrest.
    destruct (timerTask t) eqn:Htask.
    + unfold scanCallback. apply hidePending_scanNow.
      intros Hshow el e E Hb Hh. destruct (H Hshow el e E Hb Hh) as [t' [Hin Ht']].
      destruct (Hrest t' Hin) as [->|Hin']; [congruence|].
      exists t'. auto.
    + intros Hshow el e'.
      destruct (hideCallback_fields element (set_timers rest st)) as [Hsf Htf].
      rewrite Hsf in Hshow. simpl in Hshow.
      assert (forall x e0, x <> element -> elements st !! x = Some e0 ->
                           mvBlocked e0 = true -> mvHidden e0 = false ->
                           hidePendingFor x
                             (hideCallback element (set_timers rest st)))
        as Hother.
      { intros x e0 Hx E Hb Hh.
        destruct (H Hshow x e0 E Hb Hh) as [t' [Hin Ht']].
        destruct (Hrest t' Hin) as [->|Hin']; [congruence|].
        exists t'. split; [|exact Ht']. rewrite Htf. exact Hin'. }
      unfold hideCallback at 1. simpl.
      destruct (elements st !! element) as [e0|] eqn:E0.
      * rewrite Hshow. simpl. destruct (mvBlocked e0) eqn:Hb0.
        -- simpl. destruct (decide (el = element)) as [->|Hne].
           ++ rewrite lookup_alter_eq, E0. simpl. intros [= <-] _ Hh.
              discriminate Hh.
           ++ rewrite lookup_alter_ne by congruence. intros E Hb Hh.
              apply (Hother el e' Hne E Hb Hh).
        -- simpl. intros E Hb Hh. destruct (decide (el = element)) as [->|Hne].
           ++ congruence.
           ++ apply (Hother el e' Hne E Hb Hh).
      * simpl. intros E Hb Hh. destruct (decide (el = element)) as [->|Hne].
        -- congruence.
        -- apply (Hother el e' Hne E Hb Hh).
    + intros Hshow el e E Hb Hh. destruct (H Hshow el e E Hb Hh) as [t' [Hin Ht']].
      destruct (Hrest t' Hin) as [->|Hin']; [congruence|].
      exists t'. auto.
  - apply hidePending_rescanAll, H.
  - apply hidePending_applyShowBlocked.
  - apply hidePending_rescanAll, hidePending_applyShowBlocked.
  - revert H. apply hidePending_same.
    + unfold loadCache. generalize st. induction raw as [|[k v] rest IH];
        intros s; [reflexivity|]. simpl. rewrite IH. destruct v; reflexivity.
    + unfold loadCache. generalize st. induction raw as [|[k v] rest IH];
        intros s; [reflexivity|]. simpl. rewrite IH. destruct v; reflexivity.
    + assert (forall s, timers (loadCache raw s) = timers s) as Ht.
      { unfold loadCache. induction raw as [|[k v] rest IH];
          intros s; [reflexivity|]. simpl. rewrite IH. destruct v; reflexivity. }
      rewrite Ht. apply incl_refl.
  - revert H. apply hidePending_mono; [reflexivity|apply incl_refl|].
    intros el e'. unfold render. simpl. rewrite map_lookup_imap.
    destruct (doc !! el) as [fields|]; simpl; [|discriminate].
    destruct (elements st !! el) as [e|] eqn:E; intros [= <-]; simpl.
    + intros Hb Hh. left. eauto.
    + discriminate.
  - revert H. apply hidePending_same; [reflexivity|reflexivity|apply incl_refl].
Qed.

Lemma hidePending_run (st : State) (evs : list Event) :
  hidePending st -> hidePending (run st evs).
Proof.
  revert st. induction evs as [|ev later IH]; intros st H; [exact H|].
  apply IH, hidePending_step, H.
Qed.

Lemma hidePending_init (loaded : Settings) :
  hidePending (init loaded initialState).
Proof.
  unfold init.
  match goal with
  | |- hidePending (scheduleScan ?s) =>
      assert (hidePending s) as H by apply hidePending_applyShowBlocked;
      revert H; generalize s
  end.
  intros s. unfold scheduleScan. destruct (scanTimer s); [trivial|].
  apply hidePending_same; [reflexivity|reflexivity|].
  simpl. apply incl_appl, incl_refl.
Qed.

(** X28: a blocked node is hidden or about to be.  In every state the
    content script reaches, while the setting [showBlocked] is off,
    every node that carries [mv-blocked] without [mv-hidden] has a hide
    timer pending; and the callback of that timer, run while the node
    is still blocked and the setting still off, puts [mv-hidden] on
    it. *)
Theorem blocked_node_hide_pending (loaded : Settings) (evs : list Event)
  (el : nat) (e : Element) :
  let st := run (init loaded initialState) evs in
  showBlocked (settings st) = false ->
  elements st !! el = Some e ->
  mvBlocked e = true -> mvHidden e = false ->
  (exists t, In t (timers st) /\ timerTask t = HideTask el)
  /\ elements (hideCallback el st) !! el = Some (set_mvHidden true e).
Proof.
  intros st Hshow Hel Hb Hh. split.
  - apply (hidePending_run _ evs (hidePending_init loaded) Hshow el e Hel Hb Hh).
  - unfold hideCallback. rewrite Hel, Hshow, Hb. simpl.
    rewrite lookup_alter_eq, Hel. reflexivity.
Qed.

(** Under the policy ["hide"], a tile without any keyword match after
    the first scan: blocked, with its hide timer pending. *)
Lemma blocked_node_hide_pending_witness :
  let fields := fieldsOf "Some Talk" "" "3:10" (Some "abc") in
  let st := run (init (settingsWith [] [] [] [] "hide") initialState)
              [DomReplaced {[ 0 := fields ]}; TimerFires 1 (homePage [0])] in
  let e := {| raw := fields;
              dataset := {| mvEpoch := Some 1; mvKey := "id:abc";
                            mvProcessed := "1"; mvWatchId := None;
                            mvReason := None; mvTitle := None; mvId := None |};
              mvBlocked := true; mvHidden := false |} in
  (exists t, In t (timers st) /\ timerTask t = HideTask 0)
  /\ elements (hideCallback 0 st) !! 0 = Some (set_mvHidden true e).
Proof.
  apply (blocked_node_hide_pending (settingsWith [] [] [] [] "hide")
           [DomReplaced {[ 0 := fieldsOf "Some Talk" "" "3:10" (Some "abc") ]};
            TimerFires 1 (homePage [0])] 0); reflexivity.
Defined.

(** ** Keys longer than the 200 characters kept on a node *)

Lemma slice0_full (n : nat) (s : string) :
  n <= String.length s -> String.length (Js.slice0 n s) = n.
Proof.
  revert s. induction n as [|n IH]; intros [|c r] H; simpl in *;
    try reflexivity; try lia.
  rewrite IH by lia. reflexivity.
Qed.

(** A node whose computed key is longer than the key it carries is not
    skipped; a scan stamps it, decides it and keeps the cut key. *)
Lemma scanNow_long_key (page : Page) (st : State) (target : Target) (el : nat)
  (e : Element) :
  shortKeys st -> stampsBounded st ->
  In target (getScanTargets page) ->
  In el (collectCandidates target) ->
  elements st !! el = Some e ->
  200 < String.length (elementKeyOf (extractVideoData (raw e))) ->
  (forall context,
     skipsProcessed page context e (extractVideoData (raw e)) = false)
  /\ exists e',
       elements (scanNow page st) !! el = Some e'
       /\ decidedCut (S (scanEpoch st))
            (elementKeyOf (extractVideoData (raw e))) e e'
       /\ ((exists after, collectCandidates target = el :: after) ->
           mvBlocked e' = negb (decisionFor (extractVideoData (raw e)) st)).
Proof.
  intros Hshort Hstamps Ht Hin Hel Hlong.
  set (data := extractVideoData (raw e)) in *.
  assert (forall context, skipsProcessed page context e data = false) as Hskip.
  { intros context. unfold skipsProcessed.
    rewrite (eqb_length_differs (mvKey (dataset e)) (elementKeyOf data)).
    - apply andb_false_r.
    - specialize (Hshort el e Hel). unfold shortKey in Hshort. lia. }
  split; [exact Hskip|].
  assert (hasData data = true) as Hdata.
  { apply hasData_of_key. intros E. fold data in E. rewrite E in Hlong.
    simpl in Hlong. lia. }
  destruct (scanNow_decided page st target el e Ht Hin Hel)
    as (st0 & before & after & e' & El & A1 & A2 & A3 & E & V).
  { intros Hs. specialize (Hstamps el e _ Hel Hs). lia. }
  unfold visitSkips in V. fold data in V.
  rewrite Hdata, Hskip in V. simpl in V.
  destruct V as (V1 & V2 & V3 & V4 & V5 & V6).
  exists e'. split; [exact E|]. split.
  - unfold decidedCut. rewrite V4.
    assert (String.length (Js.slice0 200 (elementKeyOf data)) = 200) as Hcut
        by (apply slice0_full; lia).
    repeat split; try assumption.
    intros Ek. rewrite Ek in Hcut. lia.
  - intros [after' Ef]. rewrite V5.
    destruct before as [|y before'].
    + simpl. rewrite (decisionFor_ext _ st st0 A1 A2 A3). reflexivity.
    + exfalso. rewrite Ef in El. simpl in El. injection El as Hy Ea.
      destruct (collectCandidates_spec target) as [Hnd _].
      rewrite Ef in Hnd. inversion Hnd as [|? ? Hnot _]; subst.
      apply Hnot. apply in_or_app. right. left. reflexivity.
Qed.

(** C10: the key kept on a node is the computed key cut to 200
    characters, and the skip test compares it with the whole computed
    key.  So in every state the content script reaches, for an
    enumerated node whose computed key is longer than 200 characters,
    whatever flag and key the node carries: the skip test is false in
    every context; a scan stamps the node, decides it (for the first
    candidate, with the decision that the cache and the classifier give
    in the state before the scan), marks it processed and keeps the
    first 200 characters of the key, which differ from the key; and the
    next scan, which finds the node processed, does all of this again. *)
Theorem long_key_never_skipped (loaded : Settings) (evs : list Event)
  (page : Page) (target : Target) (el : nat) (element : Element) :
  let st := run (init loaded initialState) evs in
  let data := extractVideoData (raw element) in
  let key := elementKeyOf data in
  In target (getScanTargets page) ->
  In el (collectCandidates target) ->
  elements st !! el = Some element ->
  200 < String.length key ->
  (forall context, skipsProcessed page context element data = false)
  /\ exists element' element'',
       elements (scanNow page st) !! el = Some element'
       /\ decidedCut (S (scanEpoch st)) key element element'
       /\ (forall context, skipsProcessed page context element' data = false)
       /\ elements (scanNow page (scanNow page st)) !! el = Some element''
       /\ decidedCut (S (S (scanEpoch st))) key element' element''
       /\ ((exists after, collectCandidates target = el :: after) ->
           mvBlocked element' = negb (decisionFor data st)
           /\ mvBlocked element''
              = negb (decisionFor data (scanNow page st))).
Proof.
  intros st data key Ht Hin Hel Hlong. subst data key.
  pose proof (shortKeys_reachable loaded evs) as Hshort. fold st in Hshort.
  pose proof (stamps_run _ evs (stamps_init loaded)) as Hstamps.
  fold st in Hstamps.
  destruct (scanNow_long_key page st target el element Hshort Hstamps Ht Hin
              Hel Hlong) as (Hskip & element' & E1 & D1 & B1).
  pose proof D1 as (R1 & _).
  destruct (scanNow_long_key page (scanNow page st) target el element'
              (keepsShort_scanNow page st Hshort)
              (stamps_scanNow page st Hstamps) Ht Hin E1)
    as (Hskip' & element'' & E2 & D2 & B2).
  { rewrite R1. exact Hlong. }
  rewrite R1 in Hskip', D2, B2.
  destruct (scanNow_scheduler page st) as (_ & Hepoch & _).
  rewrite Hepoch in D2.
  split; [exact Hskip|]. exists element', element''.
  split; [exact E1|]. split; [exact D1|]. split; [exact Hskip'|].
  split; [exact E2|]. split; [exact D2|].
  intros Hfirst. split; [apply B1|apply B2]; exact Hfirst.
Qed.

(** A home tile with the title [longTitle] that a forced rescan has
    processed: it carries the processed flag and the first 200
    characters of its key, and the next two scans decide it again. *)
Lemma long_key_never_skipped_witness :
  let page := homePage [0] in
  let st := run (init DEFAULTS initialState)
              [DomReplaced {[ 0 := fieldsOf longTitle "" "" None ]};
               Refresh page] in
  let data := extractVideoData (raw processedLongTile) in
  elements st !! 0 = Some processedLongTile
  /\ mvProcessed (dataset processedLongTile) = "1"
  /\ String.length (elementKeyOf data) = 201
  /\ skipsProcessed page "home" processedLongTile data = false
  /\ exists element' element'',
       elements (scanNow page st) !! 0 = Some element'
       /\ decidedCut 2 (elementKeyOf data) processedLongTile element'
       /\ mvBlocked element' = negb (decisionFor data st)
       /\ elements (scanNow page (scanNow page st)) !! 0 = Some element''
       /\ decidedCut 3 (elementKeyOf data) element' element''.
Proof.
  assert (elements
            (run (init DEFAULTS initialState)
               [DomReplaced {[ 0 := fieldsOf longTitle "" "" None ]};
                Refresh (homePage [0])]) !! 0
          = Some processedLongTile) as Hel by (vm_compute; reflexivity).
  assert (200 < String.length
                  (elementKeyOf (extractVideoData (raw processedLongTile))))
    as Hlong by (vm_compute; lia).
  destruct (long_key_never_skipped DEFAULTS
              [DomReplaced {[ 0 := fieldsOf longTitle "" "" None ]};
               Refresh (homePage [0])]
              (homePage [0]) (homeTarget [0]) 0 processedLongTile
              (or_introl eq_refl) (or_introl eq_refl) Hel Hlong)
    as (Hskip & element' & element'' & E1 & D1 & _ & E2 & D2 & B).
  split; [exact Hel|]. split; [reflexivity|].
  split; [vm_compute; reflexivity|]. split; [apply Hskip|].
  exists element', element''.
  split; [exact E1|]. split; [exact D1|].
  split; [apply B; exists []; reflexivity|].
  split; [exact E2|exact D2].
Defined.
